(** * Tijuana "no website" crawlers: a shallow embedding and its properties

    The repository holds three near-identical crawlers over a places-search
    provider and one CSV post-processing script:

    - [exhaustive.py]: grid scan, de-duplication, website filter;
    - [places.py]: grid scan, de-duplication, website and category filter;
    - [tijuana_places_no_website.py]: one large circle, website filter,
      no de-duplication;
    - [only_phone.py]: keeps the rows of a CSV file that have a phone.

    Python values are modelled as they reach the program: a detail response
    is a dictionary of JSON values, coordinates are binary64 floats, the seen
    set is a finite set of strings.  The remote provider, the console and the
    file system are made explicit: every request, pause, printed message and
    written file is an event of the run's trace.  A run starts after the
    credential check at the top of each script; a request that times out or
    cannot connect is the provider answering with no response.  Loops that
    Python runs until the provider lets them end take fuel. *)

From Stdlib Require Import Floats.PrimFloat Floats.FloatOps Floats.SpecFloat.
From Stdlib Require Import ZArith QArith Qround Lqa Uint63 Ascii String.
From stdpp Require Import base option list gmap strings.

Set Warnings "-inexact-float,-register-all,-level-tolerance,-clear-no-such-hyp".
Open Scope string_scope.
Open Scope list_scope.
Open Scope Z_scope.

(** ** Python values *)

(** What [r.json()] returns.  Numbers are the integers; the fields the
    programs read are strings, lists and objects. *)
Inductive json :=
| JNull
| JBool (b : bool)
| JNum (n : Z)
| JStr (s : string)
| JArr (l : list json)
| JObj (o : gmap string json).

(** Exceptions the modelled code can raise. *)
Inductive exn :=
| HTTPError                 (* [r.raise_for_status()] *)
| KeyError (k : string)     (* [d[k]] on a dictionary without [k] *)
| TypeError                 (* subscripting, iterating or hashing the wrong kind of value *)
| ValueError.               (* [csv.DictWriter] given a key outside its fieldnames *)

(** Python truth value of a JSON value. *)
Definition truthy (v : json) : bool :=
  match v with
  | JNull => false
  | JBool b => b
  | JNum n => negb (Z.eqb n 0)
  | JStr s => negb (String.eqb s "")
  | JArr l => match l with [] => false | _ => true end
  | JObj o => negb (bool_decide (o = ∅))
  end.

(** [a or b] *)
Definition py_or (a b : json) : json := if truthy a then a else b.

(** [k in d] *)
Definition py_in (k : string) (d : gmap string json) : bool :=
  bool_decide (is_Some (d !! k)).

(** [d.get(k)] and [d.get(k, dflt)] *)
Definition py_get (d : gmap string json) (k : string) : json :=
  default JNull (d !! k).
Definition py_get_default (d : gmap string json) (k : string) (dflt : json) : json :=
  default dflt (d !! k).

(** [d[k]] on a dictionary, and [v[k]] on an arbitrary value with a string
    key: only an object can be subscripted by a string. *)
Definition py_getitem (d : gmap string json) (k : string) : exn + json :=
  match d !! k with
  | Some v => inr v
  | None => inl (KeyError k)
  end.
Definition py_subscript (v : json) (k : string) : exn + json :=
  match v with
  | JObj o => py_getitem o k
  | _ => inl TypeError
  end.

(** Truth value of an optional string ([None] and [""] are false). *)
Definition truthy_str (t : option string) : bool :=
  match t with
  | Some s => negb (String.eqb s "")
  | None => false
  end.

(** ** Requests, events and the provider *)

(** The JSON body of a Nearby-Search request: either the circle with the
    result cap, or nothing but a page token. *)
Inductive body :=
| BodyCircle (maxResultCount : Z) (latitude longitude radius : float)
| BodyToken (pageToken : string).

(** The search response as the programs read it: [resp.get("places", [])]
    with [p["id"]] for each place, and [resp.get("nextPageToken")]. *)
Record SearchResponse := {
  places : option (list string);
  nextPageToken : option string
}.

(** An accepted place: the dictionary appended to [rows]. *)
Record PlaceRecord := {
  name : json;
  address : json;
  phone : json
}.

(** Console messages, by kind and arguments. *)
Inductive msg :=
| MsgGrid (n : nat)                               (* "Grid points ..." *)
| MsgPoint (idx total : nat) (lat lon : float)    (* "Point idx/total (lat, lon)" *)
| MsgPage (page : nat) (n : nat)                  (* "page p: n places" *)
| MsgCount (n : nat)                              (* the count line before the export *)
| MsgSaved (out : string)                         (* "Saved -> out" *)
| MsgNoMatches                                    (* "No matches found." *)
| MsgSearchError                                  (* "Nearby search error: ..." *)
| MsgDetailsError (pid : string).                 (* "Details error: ... pid ..." *)

(** A CSV file as the rows handed to the writer, cell by cell. *)
Definition csv := list (list json).

Inductive event :=
| EvSearch (b : body) (mask : string)      (* [requests.post(SEARCH_URL, json=b, ...)] *)
| EvDetails (pid : string) (mask : string) (* [requests.get(DETAILS_URL.format(pid), ...)] *)
| EvSleep (secs : Z)                       (* [time.sleep(secs)] *)
| EvPrint (m : msg)                        (* [print(...)] *)
| EvWrite (out : string) (f : csv).        (* the file written under [with open(out, "w", ...)] *)

(** The remote provider: a state machine answering search and detail
    requests; [None] is a non-success status. *)
Record provider (P : Type) := {
  search : P → body → P * option SearchResponse;
  fetch : P → string → P * option (gmap string json)
}.
Arguments search {P} _ _ _.
Arguments fetch {P} _ _ _.

(** The state of a run: the provider, the seen set ([seen_ids] / [seen]),
    the accumulation ([rows] / [found]) and the trace of events so far. *)
Record world (P : Type) := World {
  prov : P;
  seen : gset string;
  rows : list PlaceRecord;
  trace : list event
}.
Arguments World {P} _ _ _ _.
Arguments prov {P} _.
Arguments seen {P} _.
Arguments rows {P} _.
Arguments trace {P} _.

Definition init {P} (p : P) : world P := World p ∅ [] [].

(** ** A state and exception monad with fuel *)

Inductive result (P A : Type) :=
| Done (a : A) (w : world P)
| Raised (e : exn) (w : world P)
| OutOfFuel (w : world P).
Arguments Done {P A} _ _.
Arguments Raised {P A} _ _.
Arguments OutOfFuel {P A} _.

Definition M (P A : Type) : Type := world P → result P A.

Definition ret {P A} (a : A) : M P A := fun w => Done a w.
Definition bind {P A B} (m : M P A) (k : A → M P B) : M P B :=
  fun w => match m w with
           | Done a w' => k a w'
           | Raised e w' => Raised e w'
           | OutOfFuel w' => OutOfFuel w'
           end.
Definition raise {P A} (e : exn) : M P A := fun w => Raised e w.
Definition out_of_fuel {P A} : M P A := fun w => OutOfFuel w.

Notation "x <- m ;; k" := (bind m (fun x => k))
  (at level 100, m at next level, right associativity, only parsing).
Notation "m ;; k" := (bind m (fun _ => k))
  (at level 100, right associativity, only parsing).

Definition lift {P A} (r : exn + A) : M P A :=
  match r with
  | inl e => raise e
  | inr a => ret a
  end.

Definition emit {P} (ev : event) : M P unit :=
  fun w => Done tt (World (prov w) (seen w) (rows w) (trace w ++ [ev])).

Definition print {P} (m : msg) : M P unit := emit (EvPrint m).
Definition sleep {P} (secs : Z) : M P unit := emit (EvSleep secs).

(** [rows.append(r)] *)
Definition append_row {P} (r : PlaceRecord) : M P unit :=
  fun w => Done tt (World (prov w) (seen w) (rows w ++ [r]) (trace w)).

(** [requests.post(SEARCH_URL, json=b, ...)]: the request is recorded and
    the provider answers; [None] stands for a response whose status is not
    a success. *)
Definition post_search {P} (pv : provider P) (b : body) (mask : string)
  : M P (option SearchResponse) :=
  fun w =>
    let '(p', r) := search pv (prov w) b in
    Done r (World p' (seen w) (rows w) (trace w ++ [EvSearch b mask])).

(** [requests.get(DETAILS_URL.format(pid), ...)] *)
Definition get_details {P} (pv : provider P) (pid : string) (mask : string)
  : M P (option (gmap string json)) :=
  fun w =>
    let '(p', r) := fetch pv (prov w) pid in
    Done r (World p' (seen w) (rows w) (trace w ++ [EvDetails pid mask])).

(** [r.raise_for_status()] followed by [return r.json()] *)
Definition json_or_raise {P A} (r : option A) : M P A :=
  match r with
  | Some a => ret a
  | None => raise HTTPError
  end.

(** [for x in xs: f x] *)
Fixpoint for_each {P A} (xs : list A) (f : A → M P unit) : M P unit :=
  match xs with
  | [] => ret tt
  | x :: xs' => f x ;; for_each xs' f
  end.

(** [for i, x in enumerate(xs, i0): f i x] *)
Fixpoint for_enumerate {P A} (i0 : nat) (xs : list A) (f : nat → A → M P unit)
  : M P unit :=
  match xs with
  | [] => ret tt
  | x :: xs' => f i0 x ;; for_enumerate (S i0) xs' f
  end.

(** The world a computation ends in, whatever the outcome. *)
Definition final {P A} (r : result P A) : world P :=
  match r with
  | Done _ w => w
  | Raised _ w => w
  | OutOfFuel w => w
  end.

(** ** The Deduplicator *)

(** [if pid in seen: continue] followed by [seen.add(pid)], as one
    operation on the seen set: the answer says whether the caller goes on
    to fetch the details. *)
Definition admit_id (pid : string) (s : gset string) : bool * gset string :=
  if decide (pid ∈ s) then (false, s) else (true, {[pid]} ∪ s).

(** The same operation on the run's state. *)
Definition admit_seen {P} (pid : string) : M P bool :=
  fun w => let '(b, s') := admit_id pid (seen w) in
           Done b (World (prov w) s' (rows w) (trace w)).

(** [admit_id] over a sequence of ids, threading the set. *)
Fixpoint admit_all (ids : list string) (s : gset string) : list bool * gset string :=
  match ids with
  | [] => ([], s)
  | pid :: ids' =>
      let '(b, s1) := admit_id pid s in
      let '(bs, s2) := admit_all ids' s1 in
      (b :: bs, s2)
  end.

(** ** Floating-point ranges and the grid *)

(** The exact rational value of a finite binary64 number. *)
Definition float_val (f : float) : Q :=
  match Prim2SF f with
  | S754_finite s m e =>
      let z := if s then Z.neg m else Z.pos m in
      if (0 <=? e)%Z then inject_Z (z * 2 ^ e) else Qmake z (2 ^ Z.to_pos (- e))
  | _ => 0%Q
  end.

(** [itertools.product(xs, ys)]: first argument outer. *)
Definition product {A B} (xs : list A) (ys : list B) : list (A * B) :=
  x ← xs; (fun y => (x, y)) <$> ys.

(** Round a rational to the nearest integer, ties to even. *)
Definition Qround_half_even (q : Q) : Z :=
  let f := Qfloor q in
  match (q - inject_Z f ?= 1 # 2)%Q with
  | Lt => f
  | Gt => f + 1
  | Eq => if Z.even f then f else f + 1
  end.

(** The float of an integer below 2^63 in magnitude. *)
Definition float_of_Z (z : Z) : float :=
  if z <? 0 then PrimFloat.opp (PrimFloat.of_uint63 (Uint63.of_Z (- z)))
  else PrimFloat.of_uint63 (Uint63.of_Z z).

(** [round(x, 6)] on a float: the float nearest to the decimal obtained by
    rounding the exact value of [x] to six places, ties to even, with the
    sign of [x].  From 2^33 on, neighbouring floats are more than 1e-6
    apart and the result is [x]; infinities and NaN are returned as they
    are. *)
Definition round6 (x : float) : float :=
  let a := PrimFloat.abs x in
  if negb (PrimFloat.is_finite x) || PrimFloat.leb 8589934592 a then x
  else
    let n := Qround_half_even (float_val a * 1000000) in
    let r := PrimFloat.div (float_of_Z n) 1000000 in
    if PrimFloat.get_sign x then PrimFloat.opp r else r.

(** ** exhaustive.py *)

Module Exhaustive.

(** [frange], lines 34-39: the generator run to the end, as the list it
    yields; [None] when the loop has not ended within [fuel] tests. *)
Fixpoint frange (fuel : nat) (x stop step : float) : option (list float) :=
  match fuel with
  | O => None
  | S fuel' =>
      if PrimFloat.ltb x stop
      then cons x <$> frange fuel' (PrimFloat.add x step) stop step
      else Some []
  end.

Definition LAT_MIN : float := 32.42.
Definition LAT_MAX : float := 32.59.
Definition LON_MIN : float := (-117.13)%float.
Definition LON_MAX : float := (-116.88)%float.
Definition LAT_STEP : float := 0.02.
Definition LON_STEP : float := 0.02.
Definition RADIUS_M : float := 1500.

(** The grid of a bounding box, lines 99-100 with the constants as
    arguments. *)
Definition grid (fuel : nat) (lat_min lat_max lat_step lon_min lon_max lon_step : float)
  : option (list (float * float)) :=
  match frange fuel lat_min lat_max lat_step, frange fuel lon_min lon_max lon_step with
  | Some lats, Some lons => Some (product lats lons)
  | _, _ => None
  end.

Definition grid_points (fuel : nat) : option (list (float * float)) :=
  grid fuel LAT_MIN LAT_MAX LAT_STEP LON_MIN LON_MAX LON_STEP.

(** The request body built by [nearby], lines 54-66. *)
Definition nearby_body (center_lat center_lon : float) (page_token : option string) : body :=
  match page_token with
  | Some t =>
      if truthy_str page_token then BodyToken t
      else BodyCircle 20 center_lat center_lon RADIUS_M
  | None => BodyCircle 20 center_lat center_lon RADIUS_M
  end.

(** The dictionary appended to [rows], lines 126-131; the entries are
    evaluated in order, so a missing name is reported first. *)
Definition make_row (det : gmap string json) : exn + PlaceRecord :=
  match py_getitem det "displayName" with
  | inl e => inl e
  | inr dn =>
      match py_subscript dn "text" with
      | inl e => inl e
      | inr nm =>
          match py_getitem det "formattedAddress" with
          | inl e => inl e
          | inr ad =>
              inr {| name := nm;
                     address := ad;
                     phone := py_or (py_get det "internationalPhoneNumber")
                                    (py_get_default det "nationalPhoneNumber" (JStr "")) |}
          end
      end
  end.

Section Crawl.
Context {P : Type} (pv : provider P).

(** [nearby], lines 52-77 *)
Definition nearby (center_lat center_lon : float) (page_token : option string)
  : M P SearchResponse :=
  r <- post_search pv (nearby_body center_lat center_lon page_token) "places.id" ;;
  json_or_raise r.

(** [details], lines 80-92 *)
Definition details (place_id : string) : M P (gmap string json) :=
  r <- get_details pv place_id
         "displayName,formattedAddress,internationalPhoneNumber,nationalPhoneNumber,websiteUri" ;;
  json_or_raise r.

(** The body of [for pid in place_ids], lines 116-132. *)
Definition visit (pid : string) : M P unit :=
  fresh <- admit_seen pid ;;
  if negb fresh then ret tt                       (* continue *)
  else
    det <- details pid ;;
    if py_in "websiteUri" det then ret tt         (* continue *)
    else
      row <- lift (make_row det) ;;
      append_row row.

(** The [while True] loop of one scan point, lines 109-137. *)
Fixpoint walk (fuel : nat) (lat lon : float) (page_token : option string)
  (page_num : nat) : M P unit :=
  match fuel with
  | O => out_of_fuel
  | S fuel' =>
      resp <- nearby lat lon page_token ;;
      let page_num := S page_num in
      let place_ids := default [] (places resp) in
      print (MsgPage page_num (length place_ids)) ;;
      for_each place_ids visit ;;
      let page_token := nextPageToken resp in
      if negb (truthy_str page_token) then ret tt  (* break *)
      else
        sleep 2 ;;
        walk fuel' lat lon page_token page_num
  end.

(** The loop over the grid, lines 104-137. *)
Definition crawl (fuel : nat) (grid_points : list (float * float)) : M P unit :=
  for_enumerate 1 grid_points (fun idx '(lat, lon) =>
    print (MsgPoint idx (length grid_points) lat lon) ;;
    walk fuel lat lon None 0).

(** The export, lines 141-150. *)
Definition export : M P unit :=
  fun w =>
    let rows := rows w in
    (print (MsgCount (length rows)) ;;
     match rows with
     | _ :: _ =>
         let out := "tijuana_no_website.csv" in
         emit (EvWrite out
                 ([JStr "name"; JStr "address"; JStr "phone"]
                    :: ((fun r => [name r; address r; phone r]) <$> rows))) ;;
         print (MsgSaved out)
     | [] => print MsgNoMatches
     end) w.

(** The program from the grid on, lines 96-150. *)
Definition main (grid_fuel fuel : nat) : M P unit :=
  match grid_points grid_fuel with
  | None => out_of_fuel
  | Some grid_points =>
      print (MsgGrid (length grid_points)) ;;
      crawl fuel grid_points ;;
      export
  end.
End Crawl.

End Exhaustive.

(** ** Python sets of JSON values *)

(** The hashable JSON values, up to Python equality: [True] and [False]
    are the numbers 1 and 0. *)
Inductive atom :=
| ANone
| ANum (n : Z)
| AStr (s : string).

#[global] Instance atom_eq_dec : EqDecision atom.
Proof. solve_decision. Defined.

#[global] Instance atom_countable : Countable atom.
Proof.
  refine (inj_countable'
            (fun a => match a with
                      | ANone => inl tt
                      | ANum n => inr (inl n)
                      | AStr s => inr (inr s)
                      end)
            (fun x => match x with
                      | inl _ => ANone
                      | inr (inl n) => ANum n
                      | inr (inr s) => AStr s
                      end) _).
  intros []; reflexivity.
Defined.

(** [hash(v)]: lists and dictionaries are unhashable. *)
Definition hashable (v : json) : exn + atom :=
  match v with
  | JNull => inr ANone
  | JBool b => inr (ANum (if b then 1 else 0))
  | JNum n => inr (ANum n)
  | JStr s => inr (AStr s)
  | JArr _ | JObj _ => inl TypeError
  end.

(** The one-character strings of a string. *)
Fixpoint chars (s : string) : list string :=
  match s with
  | EmptyString => []
  | String c s' => String c EmptyString :: chars s'
  end.

(** [s.add(v)] *)
Definition py_set_add (v : json) (s : gset atom) : exn + gset atom :=
  match hashable v with
  | inl e => inl e
  | inr a => inr ({[a]} ∪ s)
  end.

(** [set(v)]: the elements of a list, the characters of a string, the keys
    of a dictionary; anything else is not iterable. *)
Definition py_set (v : json) : exn + gset atom :=
  match v with
  | JArr l =>
      foldr (fun x acc => match acc with
                          | inl e => inl e
                          | inr s => py_set_add x s
                          end) (inr ∅) l
  | JStr s => inr (list_to_set (AStr <$> chars s))
  | JObj o => inr (set_map AStr (dom o))
  | JNull | JBool _ | JNum _ => inl TypeError
  end.

(** ** places.py *)

Module Filtered.

Definition PROMO_TYPES : gset string :=
  list_to_set [
    (* food & beverage *)
    "restaurant"; "cafe"; "coffee_shop"; "bakery"; "ice_cream_shop";
    "pizza_restaurant"; "dessert_shop"; "bar"; "pub";
    (* beauty & personal care *)
    "barber_shop"; "beauty_salon"; "hair_salon"; "nail_salon";
    "spa"; "massage"; "wellness_center"; "yoga_studio";
    (* small health practices *)
    "dental_clinic"; "physiotherapist"; "chiropractor";
    (* lodging & rentals *)
    "bed_and_breakfast"; "guest_house"; "hostel"; "inn";
    (* events & recreation *)
    "wedding_venue"; "event_venue"; "community_center";
    "tour_agency"; "travel_agency";
    (* retail & specialty shops *)
    "clothing_store"; "gift_shop"; "book_store"; "jewelry_store";
    "furniture_store"; "pet_store"; "sporting_goods_store"; "florist";
    (* home & repair services *)
    "electrician"; "plumber"; "locksmith"; "painter"; "laundry"
  ].

Definition LAT_MIN : float := 32.42.
Definition LAT_MAX : float := 32.59.
Definition LON_MIN : float := (-117.13)%float.
Definition LON_MAX : float := (-116.88)%float.
Definition LAT_STEP : float := 0.02.
Definition LON_STEP : float := 0.02.
Definition RADIUS_M : float := 1500.

(** [frange], lines 67-70: the yielded value is rounded, the running one
    is not. *)
Fixpoint frange (fuel : nat) (start stop step : float) : option (list float) :=
  match fuel with
  | O => None
  | S fuel' =>
      if PrimFloat.ltb start stop
      then cons (round6 start) <$> frange fuel' (PrimFloat.add start step) stop step
      else Some []
  end.

(** [grid], lines 107-108 *)
Definition grid (fuel : nat) : option (list (float * float)) :=
  match frange fuel LAT_MIN LAT_MAX LAT_STEP, frange fuel LON_MIN LON_MAX LON_STEP with
  | Some lats, Some lons => Some (product lats lons)
  | _, _ => None
  end.

(** The request body built by [nearby], lines 73-81. *)
Definition nearby_body (lat lon : float) (page_token : option string) : body :=
  match page_token with
  | Some t =>
      if truthy_str page_token then BodyToken t
      else BodyCircle 20 lat lon RADIUS_M
  | None => BodyCircle 20 lat lon RADIUS_M
  end.

(** [place_types], lines 130-132. *)
Definition place_types (det : gmap string json) : exn + gset atom :=
  match py_set (py_get_default det "types" (JArr [])) with
  | inl e => inl e
  | inr s =>
      if truthy (py_get det "primaryType")
      then match py_getitem det "primaryType" with
           | inl e => inl e
           | inr v => py_set_add v s
           end
      else inr s
  end.

(** [place_types & PROMO_TYPES], line 134: only a string equals a string. *)
Definition promo_overlap (s : gset atom) : gset atom :=
  s ∩ set_map AStr PROMO_TYPES.

(** The dictionary appended to [rows], lines 137-142. *)
Definition make_row (det : gmap string json) : exn + PlaceRecord :=
  match py_getitem det "displayName" with
  | inl e => inl e
  | inr dn =>
      match py_subscript dn "text" with
      | inl e => inl e
      | inr nm =>
          match py_getitem det "formattedAddress" with
          | inl e => inl e
          | inr ad =>
              inr {| name := nm;
                     address := ad;
                     phone := py_or (py_get det "internationalPhoneNumber")
                                    (py_get_default det "nationalPhoneNumber" (JStr "")) |}
          end
      end
  end.

(** The decision taken on a detail response, lines 126-142: [None] is a
    skip ([continue]), [Some r] the record appended. *)
Definition decide_place (det : gmap string json) : exn + option PlaceRecord :=
  if py_in "websiteUri" det then inr None
  else
    match place_types det with
    | inl e => inl e
    | inr types =>
        if bool_decide (promo_overlap types = ∅) then inr None
        else match make_row det with
             | inl e => inl e
             | inr r => inr (Some r)
             end
    end.

Section Crawl.
Context {P : Type} (pv : provider P).

(** [nearby], lines 72-89 *)
Definition nearby (lat lon : float) (page_token : option string) : M P SearchResponse :=
  r <- post_search pv (nearby_body lat lon page_token) "places.id" ;;
  json_or_raise r.

(** [details], lines 91-103 *)
Definition details (pid : string) : M P (gmap string json) :=
  r <- get_details pv pid
         "displayName,formattedAddress,internationalPhoneNumber,nationalPhoneNumber,websiteUri,types,primaryType" ;;
  json_or_raise r.

(** The body of [for pid in pids], lines 121-142. *)
Definition visit (pid : string) : M P unit :=
  fresh <- admit_seen pid ;;
  if negb fresh then ret tt                       (* continue *)
  else
    det <- details pid ;;
    verdict <- lift (decide_place det) ;;
    match verdict with
    | None => ret tt                              (* continue *)
    | Some row => append_row row
    end.

(** The [while True] loop of one scan point, lines 114-147. *)
Fixpoint walk (fuel : nat) (lat lon : float) (token : option string) (page : nat)
  : M P unit :=
  match fuel with
  | O => out_of_fuel
  | S fuel' =>
      resp <- nearby lat lon token ;;
      let page := S page in
      let pids := default [] (places resp) in
      print (MsgPage page (length pids)) ;;
      for_each pids visit ;;
      let token := nextPageToken resp in
      if negb (truthy_str token) then ret tt      (* break *)
      else
        sleep 2 ;;
        walk fuel' lat lon token page
  end.

(** The loop over the grid, lines 111-147. *)
Definition crawl (fuel : nat) (grid : list (float * float)) : M P unit :=
  for_enumerate 1 grid (fun idx '(lat, lon) =>
    print (MsgPoint idx (length grid) lat lon) ;;
    walk fuel lat lon None 0).

(** The export, lines 150-158. *)
Definition export : M P unit :=
  fun w =>
    let rows := rows w in
    (print (MsgCount (length rows)) ;;
     match rows with
     | _ :: _ =>
         let out := "tijuana_no_website.csv" in
         emit (EvWrite out
                 ([JStr "name"; JStr "address"; JStr "phone"]
                    :: ((fun r => [name r; address r; phone r]) <$> rows))) ;;
         print (MsgSaved out)
     | [] => print MsgNoMatches
     end) w.

(** The program from the grid on, lines 106-158. *)
Definition main (grid_fuel fuel : nat) : M P unit :=
  match grid grid_fuel with
  | None => out_of_fuel
  | Some grid =>
      print (MsgGrid (length grid)) ;;
      crawl fuel grid ;;
      export
  end.
End Crawl.

End Filtered.

(** ** tijuana_places_no_website.py *)

Module SingleCircle.

(** The request body built by [nearby_page], lines 31-43. *)
Definition nearby_body (page_token : option string) : body :=
  match page_token with
  | Some t =>
      if truthy_str page_token then BodyToken t
      else BodyCircle 20 32.529014 (-117.033050)%float 20000
  | None => BodyCircle 20 32.529014 (-117.033050)%float 20000
  end.

(** The dictionary appended to [found], lines 96-101. *)
Definition make_row (det : gmap string json) : exn + PlaceRecord :=
  match py_getitem det "displayName" with
  | inl e => inl e
  | inr dn =>
      match py_subscript dn "text" with
      | inl e => inl e
      | inr nm =>
          match py_getitem det "formattedAddress" with
          | inl e => inl e
          | inr ad =>
              inr {| name := nm;
                     address := ad;
                     phone := py_or (py_get det "internationalPhoneNumber")
                                    (py_get_default det "nationalPhoneNumber" (JStr "")) |}
          end
      end
  end.

Section Crawl.
Context {P : Type} (pv : provider P).

(** [nearby_page], lines 29-56.  The provider answers with status 200 and
    a body, or ([None]) with an error status, 400 or above: the diagnostic
    is printed and [raise_for_status] raises.  An answer with another
    status below 400, on which the script prints the diagnostic and goes
    on, is not among the answers of a provider. *)
Definition nearby_page (page_token : option string) : M P SearchResponse :=
  r <- post_search pv (nearby_body page_token)
         "places.id,places.displayName,places.formattedAddress" ;;
  match r with
  | None => print MsgSearchError ;; raise HTTPError
  | Some data => ret data
  end.

(** [details], lines 59-73; the answers are those of [nearby_page]. *)
Definition details (place_id : string) : M P (gmap string json) :=
  r <- get_details pv place_id
         "displayName,formattedAddress,internationalPhoneNumber,nationalPhoneNumber,websiteUri" ;;
  match r with
  | None => print (MsgDetailsError place_id) ;; raise HTTPError
  | Some det => ret det
  end.

(** The body of [for p in places], lines 88-102: no seen set here. *)
Definition visit (pid : string) : M P unit :=
  det <- details pid ;;
  if py_in "websiteUri" det then ret tt           (* continue *)
  else
    row <- lift (make_row det) ;;
    append_row row.

(** The [while True] loop, lines 81-107. *)
Fixpoint crawl (fuel : nat) (token : option string) (page : nat) : M P unit :=
  match fuel with
  | O => out_of_fuel
  | S fuel' =>
      data <- nearby_page token ;;
      let page := S page in
      let places := default [] (places data) in
      print (MsgPage page (length places)) ;;
      for_each places visit ;;
      let token := nextPageToken data in
      if negb (truthy_str token) then ret tt      (* break *)
      else
        sleep 2 ;;
        crawl fuel' token page
  end.

(** The export, lines 109-121. *)
Definition export : M P unit :=
  fun w =>
    let found := rows w in
    (print (MsgCount (length found)) ;;
     match found with
     | _ :: _ =>
         let outfile := "tijuana_no_website.csv" in
         emit (EvWrite outfile
                 ([JStr "name"; JStr "address"; JStr "phone"]
                    :: ((fun r => [name r; address r; phone r]) <$> found))) ;;
         print (MsgSaved outfile)
     | [] => print MsgNoMatches
     end) w.

(** The program, lines 77-121. *)
Definition main (fuel : nat) : M P unit :=
  crawl fuel None 0 ;;
  export.
End Crawl.

End SingleCircle.

(** ** only_phone.py *)

Module OnlyPhone.

(** A row of [csv.DictReader]: the values under the field names ([None]
    where the record was short) and, under the key [None], the cells of a
    record longer than the header. *)
Record row := {
  fields : gmap string (option string);
  rest : option (list string)
}.

(** [a or b] on values that are [None] or strings. *)
Definition opt_or (a b : option string) : option string :=
  if truthy_str a then a else b.

(** [row.get(k)] with a string key. *)
Definition row_get (r : row) (k : string) : option string :=
  default None (fields r !! k).

(** [str.isspace] on the characters of the row model, which are the code
    points below 256 (a cell holding a code point above is not a cell of
    this model); [py_isspace] below is the class on all code points, and
    the two agree here. *)
Definition is_space (c : ascii) : bool :=
  let n := nat_of_ascii c in
  ((9 <=? n) && (n <=? 13) || (28 <=? n) && (n <=? 32)
   || (n =? 133) || (n =? 160))%nat.

Fixpoint lstrip_chars (l : list ascii) : list ascii :=
  match l with
  | c :: l' => if is_space c then lstrip_chars l' else l
  | [] => []
  end.

(** [s.strip()] *)
Definition strip (s : string) : string :=
  string_of_list_ascii
    (rev (lstrip_chars (rev (lstrip_chars (list_ascii_of_string s))))).

(** [dict(pairs)]: a later pair overrides an earlier one. *)
Definition py_dict {V} (pairs : list (string * V)) : gmap string V :=
  foldl (fun d kv => <[kv.1 := kv.2]> d) ∅ pairs.

(** [DictReader.__next__] on a non-blank record. *)
Definition read_row (fieldnames record : list string) : row :=
  let d := py_dict (zip fieldnames (Some <$> record)) in
  let lf := length fieldnames in
  let lr := length record in
  if (lf <? lr)%nat then
    {| fields := d; rest := Some (drop lf record) |}
  else
    {| fields := foldl (fun d key => <[key := None]> d) d (drop lr fieldnames);
       rest := None |}.

(** The rows the reader yields: blank records are skipped. *)
Definition read_rows (fieldnames : list string) (records : list (list string)) : list row :=
  read_row fieldnames <$> filter (fun r => r ≠ []) records.

(** [DictWriter.writerow]: a key outside the field names is an error;
    a missing value and [None] are written as the empty string. *)
Definition write_row (fieldnames : list string) (r : row) : exn + list string :=
  match rest r with
  | Some _ => inl ValueError
  | None => inr ((fun key => default "" (row_get r key)) <$> fieldnames)
  end.

(** Line 13. *)
Definition phone_of (r : row) : option string :=
  opt_or (opt_or (opt_or (row_get r "phone") (row_get r "Phone"))
                 (row_get r "telefono"))
         (row_get r "Telefono").

(** The test of line 14. *)
Definition keeps (r : row) : bool :=
  let phone := phone_of r in
  truthy_str phone && truthy_str (strip <$> phone).

(** The loop of lines 12-15 over the rows still to read, after the rows
    [out] already written: the file written and the exception that ended
    the run, if any. *)
Fixpoint filter_rows (fieldnames : list string) (rs : list row) (out : list (list string))
  : list (list string) * option exn :=
  match rs with
  | [] => (out, None)
  | r :: rs' =>
      if keeps r then
        match write_row fieldnames r with
        | inl e => (out, Some e)
        | inr cells => filter_rows fieldnames rs' (out ++ [cells])
        end
      else filter_rows fieldnames rs' out
  end.

(** The script on the records of the input file: the first record is the
    header; with no record at all [reader.fieldnames] is [None] and
    [writeheader] fails on it, the output file left empty. *)
Definition main (input : list (list string)) : list (list string) * option exn :=
  match input with
  | [] => ([], Some TypeError)
  | fieldnames :: records =>
      filter_rows fieldnames (read_rows fieldnames records) [fieldnames]
  end.

End OnlyPhone.

(** ** Vocabulary of the statements *)

(** How often [admit_id] answers true for a given id. *)
Definition admissions (pid : string) (ids : list string) (answers : list bool) : nat :=
  length (filter (fun pb => pb.1 = pid ∧ pb.2 = true) (zip ids answers)).

(** A specification of a computation: from a world satisfying [Pre], a
    normal end satisfies [Post], and an exception or the end of the fuel
    leaves a world satisfying [Exc]. *)
Definition triple {P A} (Pre : world P → Prop) (m : M P A)
  (Post : A → world P → Prop) (Exc : world P → Prop) : Prop :=
  ∀ w, Pre w →
       match m w with
       | Done a w' => Post a w'
       | Raised _ w' => Exc w'
       | OutOfFuel w' => Exc w'
       end.

(** The type labels of a detail response whose ["types"] is the list of
    strings [tys] and whose ["primaryType"] is the string [pt]: the union
    the category test is described with. *)
Definition type_labels (tys : option (list string)) (pt : option string) : gset string :=
  list_to_set (default [] tys) ∪ (match pt with Some s => {[s]} | None => ∅ end).

(** The ids whose details were requested, in the order of the requests. *)
Definition fetched (tr : list event) : list string :=
  tr ≫= (fun ev => match ev with EvDetails pid _ => [pid] | _ => [] end).

(** How many detail requests a trace holds for one id. *)
Definition fetch_count (pid : string) (tr : list event) : nat :=
  length (filter (fun q => q = pid) (fetched tr)).

(** What the seen set guarantees at every point of a run: no id was
    fetched twice, and every id fetched is in the set. *)
Definition fetched_once {P} (w : world P) : Prop :=
  NoDup (fetched (trace w)) ∧ ∀ pid, pid ∈ fetched (trace w) → pid ∈ seen w.

(** The paging loop the three crawlers share, over the request and the
    per-candidate step of each. *)
Fixpoint page_loop {P} (nearby : option string → M P SearchResponse)
  (visit : string → M P unit) (fuel : nat) (token : option string) (page : nat)
  : M P unit :=
  match fuel with
  | O => out_of_fuel
  | S fuel' =>
      resp <- nearby token ;;
      let page := S page in
      let pids := default [] (places resp) in
      print (MsgPage page (length pids)) ;;
      for_each pids visit ;;
      let token := nextPageToken resp in
      if negb (truthy_str token) then ret tt
      else
        sleep 2 ;;
        page_loop nearby visit fuel' token page
  end.

(** The header row and the data row of a record, as the writer gets them
    with [fieldnames=["name", "address", "phone"]]. *)
Definition header : list json := [JStr "name"; JStr "address"; JStr "phone"].
Definition cells (r : PlaceRecord) : list json := [name r; address r; phone r].

(** The files written in a trace, in order. *)
Definition written (tr : list event) : list (string * csv) :=
  tr ≫= (fun ev => match ev with EvWrite out f => [(out, f)] | _ => [] end).

(** Events that are neither a search, a pause nor a file. *)
Definition is_quiet (ev : event) : bool :=
  match ev with
  | EvDetails _ _ | EvPrint _ => true
  | _ => false
  end.

(** The trace of [w] extends [tr] by quiet events only. *)
Definition quietly_after {P} (tr : list event) (w : world P) : Prop :=
  ∃ evs, trace w = tr ++ evs ∧ Forall (fun ev => is_quiet ev = true) evs.

Definition no_write {P} (w : world P) : Prop := written (trace w) = [].

(** The console output of a trace. *)
Definition printed (tr : list event) : list msg :=
  tr ≫= (fun ev => match ev with EvPrint m => [m] | _ => [] end).

(** What a program shows once its crawl has ended as [crawled].  When the
    crawl has ended normally the program reaches the export and ends
    normally too, with the same rows: with no row it writes no file and
    prints the count line and the no-match line; with rows it writes the
    one file, the header and a row per record, and prints the count line
    and the name of the file.  When the crawl was stopped by an exception
    (or is still running when the fuel is spent) the program stops with it,
    the export not reached and no file written. *)
Definition run_outcome {P} (crawled whole : result P unit) : Prop :=
  match crawled with
  | Done _ w1 =>
      ∃ w', whole = Done tt w'
            ∧ rows w' = rows w1
            ∧ match rows w1 with
              | [] =>
                  written (trace w') = []
                  ∧ printed (trace w')
                    = printed (trace w1) ++ [MsgCount 0; MsgNoMatches]
              | _ :: _ =>
                  written (trace w')
                  = [("tijuana_no_website.csv", header :: (cells <$> rows w1))]
                  ∧ printed (trace w')
                    = printed (trace w1)
                        ++ [MsgCount (length (rows w1)); MsgSaved "tijuana_no_website.csv"]
              end
  | Raised e w1 => whole = Raised e w1 ∧ written (trace w1) = []
  | OutOfFuel w1 => whole = OutOfFuel w1 ∧ written (trace w1) = []
  end.

(** The searches and pauses of a trace, in order. *)
Definition is_request (ev : event) : bool :=
  match ev with
  | EvSearch _ _ | EvSleep _ => true
  | _ => false
  end.
Definition requests (tr : list event) : list event := List.filter is_request tr.

(** The number of search requests of a trace. *)
Definition search_count (tr : list event) : nat :=
  length (List.filter (fun ev => match ev with EvSearch _ _ => true | _ => false end) tr).

(** A response carries a continuation token when ["nextPageToken"] is there
    and is not the empty string. *)
Definition carries_token (r : SearchResponse) : Prop :=
  ∃ t, nextPageToken r = Some t ∧ t ≠ "".

(** A scripted provider: the searches are answered by the responses of the
    script, one after the other, and fail once the script is spent; the
    details are given by [dets]. *)
Definition scripted (dets : string → option (gmap string json))
  : provider (list SearchResponse) :=
  {| search := fun script _ =>
       match script with
       | [] => ([], None)
       | r :: rest => (rest, Some r)
       end;
     fetch := fun script pid => (script, dets pid) |}.

(** The candidate ids of a list of pages. *)
Definition page_ids (pages : list SearchResponse) : list string :=
  pages ≫= (fun r => default [] (places r)).

(** What follows the first request when the pages [pages] each carry a
    token: for each, the pause and the request holding that token alone. *)
Definition follow_ups (mask : string) (pages : list SearchResponse) : list event :=
  pages ≫= (fun r => [EvSleep 2;
                      EvSearch (BodyToken (default "" (nextPageToken r))) mask]).

(** The running value of [frange] after [k] additions of [step]. *)
Fixpoint frange_nth (x step : float) (k : nat) : float :=
  match k with
  | O => x
  | S k' => frange_nth (PrimFloat.add x step) step k'
  end.

(** The number of points the range has in exact arithmetic:
    ceil((max - min) / step). *)
Definition axis_count (lo hi step : float) : nat :=
  Z.to_nat (Qceiling ((float_val hi - float_val lo) / float_val step)).

Definition Qltb (a b : Q) : bool :=
  match (a ?= b)%Q with
  | Lt => true
  | _ => false
  end.

(** The [k]-th test of the loop gives the answer exact arithmetic gives:
    the running float is below [hi] exactly when [lo + k * step] is, on
    the exact values of the three floats. *)
Definition faithful_test (lo hi step : float) (k : nat) : bool :=
  Bool.eqb (PrimFloat.ltb (frange_nth lo step k) hi)
           (Qltb (float_val lo + inject_Z (Z.of_nat k) * float_val step) (float_val hi)).

(** Every test of the loop up to the end of the exact range is faithful:
    whatever rounding the additions commit, it never tips a comparison. *)
Definition faithful_axis (lo hi step : float) : bool :=
  forallb (faithful_test lo hi step) (seq 0 (S (axis_count lo hi step))).

(** The first value of a list that is a non-empty string. *)
Fixpoint first_nonempty (vals : list (option string)) : option string :=
  match vals with
  | [] => None
  | v :: vals' => if truthy_str v then v else first_nonempty vals'
  end.

(** The values of a row under the four phone keys, in the order of the
    test. *)
Definition phone_values (r : OnlyPhone.row) : list (option string) :=
  [OnlyPhone.row_get r "phone"; OnlyPhone.row_get r "Phone";
   OnlyPhone.row_get r "telefono"; OnlyPhone.row_get r "Telefono"].

(** A record that is blank or has one cell per field name. *)
Definition fits (fieldnames record : list string) : Prop :=
  record = [] ∨ length record = length fieldnames.

(** The run has ended, normally or by an exception. *)
Definition ended {P A} (r : result P A) : Prop :=
  match r with
  | OutOfFuel _ => False
  | _ => True
  end.

(** ** Sample responses and stub providers *)

(** A place with a name, an address and a national phone number only. *)
Definition cafe_x : gmap string json :=
  <["displayName" := JObj {["text" := JStr "Cafe X"]}]>
    (<["formattedAddress" := JStr "123 St"]>
       (<["nationalPhoneNumber" := JStr "555-1234"]> ∅)).

(** A provider that answers every search with the single candidate ["A"]
    and no token, and every detail request with [det]. *)
Definition stub (det : gmap string json) : provider unit :=
  {| search := fun p _ => (p, Some {| places := Some ["A"]; nextPageToken := None |});
     fetch := fun p _ => (p, Some det) |}.

(** A bar without a website. *)
Definition bar_x : gmap string json :=
  <["types" := JArr [JStr "bar"; JStr "point_of_interest"]]>
    (<["primaryType" := JStr "bar"]> cafe_x).

(** A provider whose search answers twice with the candidate ["A"]: a
    first page with a token, then a last page. *)
Definition two_pages (det : gmap string json) : provider nat :=
  {| search := fun n _ =>
       (S n, Some {| places := Some ["A"];
                     nextPageToken := match n with O => Some "t1" | S _ => None end |});
     fetch := fun n _ => (n, Some det) |}.

(** A first page with a token and a last page without. *)
Definition page_one : SearchResponse :=
  {| places := Some ["A"]; nextPageToken := Some "t1" |}.
Definition page_two : SearchResponse :=
  {| places := Some ["B"]; nextPageToken := None |}.

(** A page listing two places, and details served for the first alone. *)
Definition ab_page : SearchResponse :=
  {| places := Some ["A"; "B"]; nextPageToken := None |}.
Definition a_only (pid : string) : option (gmap string json) :=
  if String.eqb pid "A" then Some bar_x else None.

(** ** Further vocabulary *)

(** The scan points of a trace: the centers of its circle requests. *)
Definition scanned (tr : list event) : list (float * float) :=
  tr ≫= (fun ev => match ev with
                   | EvSearch (BodyCircle _ lat lon _) _ => [(lat, lon)]
                   | _ => []
                   end).

(** A property of worlds that no event other than a detail request can
    break, whatever the provider turns into. *)
Definition stable {P} (Inv : world P → Prop) : Prop :=
  ∀ w p' ev, (∀ pid mask, ev ≠ EvDetails pid mask) →
             Inv w → Inv (World p' (seen w) (rows w) (trace w ++ [ev])).

(** The searches and pauses of one walk, as the loop can leave them: a
    first search; then, each time, a pause of 2 seconds followed by a search
    that holds a non-empty token and nothing else.  The sequence may stop
    after a search (the walk is over, or an exception ended it) or after a
    pause (the fuel is spent). *)
Inductive paced : list event → Prop :=
| paced_nil : paced []
| paced_last (b : body) (mask : string) : paced [EvSearch b mask]
| paced_out (b : body) (mask : string) : paced [EvSearch b mask; EvSleep 2]
| paced_next (b : body) (mask : string) (t : string) (mask' : string) (evs : list event) :
    t ≠ "" →
    paced (EvSearch (BodyToken t) mask' :: evs) →
    paced (EvSearch b mask :: EvSleep 2 :: EvSearch (BodyToken t) mask' :: evs).

(** The scan point a request body names, if it names one. *)
Definition center_of (b : body) : list (float * float) :=
  match b with
  | BodyCircle _ lat lon _ => [(lat, lon)]
  | BodyToken _ => []
  end.

(** What a scan over [pts] shows of the circles searched, from the trace
    [tr0] on: every point once and in order when the scan ends, and the
    points up to the one at which it stopped otherwise. *)
Definition scan_outcome {P} (pts : list (float * float)) (tr0 : list event)
  (r : result P unit) : Prop :=
  match r with
  | Done _ w' => scanned (trace w') = scanned tr0 ++ pts
  | Raised _ w' | OutOfFuel w' =>
      ∃ k, (k < length pts)%nat ∧ scanned (trace w') = scanned tr0 ++ take (S k) pts
  end.

(** The record a detail response ends up as in [rows], if any: none for a
    place with a website, and none where building the record raises. *)
Definition accepted (det : gmap string json) : option PlaceRecord :=
  if py_in "websiteUri" det then None
  else match Exhaustive.make_row det with
       | inr r => Some r
       | inl _ => None
       end.

(** The same for the filtered crawler. *)
Definition accepted_promo (det : gmap string json) : option PlaceRecord :=
  match Filtered.decide_place det with
  | inr (Some r) => Some r
  | _ => None
  end.

(** The records of the ids [ids], for a provider whose detail responses
    are [dets]. *)
Definition records_of (acc : gmap string json → option PlaceRecord)
  (dets : string → option (gmap string json)) (ids : list string) : list PlaceRecord :=
  omap (fun pid => dets pid ≫= acc) ids.

(** A provider that hands out a token with every page, and whose places
    all have a website. *)
Definition endless : provider nat :=
  {| search := fun n _ =>
       (S n, Some {| places := Some ["A"]; nextPageToken := Some "more" |});
     fetch := fun n _ => (n, Some (<["websiteUri" := JStr "https://a.example"]> cafe_x)) |}.

(** A record as [DictWriter] writes it back after [DictReader] read it
    short: the missing cells are empty. *)
Definition pad (n : nat) (record : list string) : list string :=
  record ++ replicate (n - length record) "".

(** The records the loop of [only_phone.py] writes. *)
Definition kept_records (fieldnames : list string) (records : list (list string))
  : list (list string) :=
  filter (fun record => OnlyPhone.keeps (OnlyPhone.read_row fieldnames record) = true)
    (filter (fun record => record ≠ []) records).

(** A record that cannot stop the run: it is no longer than the header, or
    it fails the test of line 14. *)
Definition harmless (fieldnames record : list string) : Prop :=
  (length record ≤ length fieldnames)%nat
  ∨ OnlyPhone.keeps (OnlyPhone.read_row fieldnames record) = false.

(** The ids of a sequence that are met for the first time, given the ids
    [s] met before: what is left of the sequence once the ids of [s] and
    the repetitions are taken out. *)
Fixpoint first_sightings (ids : list string) (s : gset string) : list string :=
  match ids with
  | [] => []
  | pid :: ids' =>
      if decide (pid ∈ s) then first_sightings ids' s
      else pid :: first_sightings ids' ({[pid]} ∪ s)
  end.

(** What a run has gathered: the seen set, the ids fetched and the rows. *)
Definition gathered {P} (w : world P) : gset string * list string * list PlaceRecord :=
  (seen w, fetched (trace w), rows w).

(** A place whose visit cannot raise: its details are served, and they
    hold a website or all that a record needs (for the filtered crawler:
    their types can be collected as well). *)
Definition servable (dets : string → option (gmap string json)) (pid : string) : Prop :=
  ∃ det, dets pid = Some det
         ∧ (is_Some (det !! "websiteUri") ∨ ∃ r, Exhaustive.make_row det = inr r).
Definition servable_promo (dets : string → option (gmap string json)) (pid : string) : Prop :=
  ∃ det v, dets pid = Some det ∧ Filtered.decide_place det = inr v.

(** The effect on what is gathered of visiting [pid], with and without the
    seen set. *)
Definition dedup_eff (acc : gmap string json → option PlaceRecord)
  (dets : string → option (gmap string json)) (pid : string)
  (st : gset string * list string * list PlaceRecord)
  : gset string * list string * list PlaceRecord :=
  if decide (pid ∈ st.1.1) then st
  else ({[pid]} ∪ st.1.1, st.1.2 ++ [pid], st.2 ++ records_of acc dets [pid]).
Definition plain_eff (acc : gmap string json → option PlaceRecord)
  (dets : string → option (gmap string json)) (pid : string)
  (st : gset string * list string * list PlaceRecord)
  : gset string * list string * list PlaceRecord :=
  (st.1.1, st.1.2 ++ [pid], st.2 ++ records_of acc dets [pid]).

(** The pages a walk can take within [fuel] rounds: some pages that carry
    a token and then one that does not, listing places that satisfy [ok]. *)
Definition walkable (fuel : nat) (ok : string → Prop) (wk : list SearchResponse) : Prop :=
  (∃ pages last, wk = pages ++ [last] ∧ Forall carries_token pages ∧ ¬ carries_token last)
  ∧ (length wk ≤ fuel)%nat
  ∧ Forall ok (page_ids wk).

(** The file the export writes for the rows [rs], if any. *)
Definition exported (rs : list PlaceRecord) : list (string * csv) :=
  match rs with
  | [] => []
  | _ :: _ => [("tijuana_no_website.csv", header :: (cells <$> rs))]
  end.

(** The last place at which [k] stands in [ks]. *)
Fixpoint last_index (k : string) (ks : list string) : option nat :=
  match ks with
  | [] => None
  | k0 :: ks' =>
      match last_index k ks' with
      | Some j => Some (S j)
      | None => if decide (k0 = k) then Some 0%nat else None
      end
  end.

(** A provider that answers no request with a success status. *)
Definition down : provider unit :=
  {| search := fun p _ => (p, None);
     fetch := fun p _ => (p, None) |}.

(** A park without a website and without a name. *)
Definition nameless_park : gmap string json :=
  <["types" := JArr [JStr "park"; JStr "point_of_interest"]]>
    (<["formattedAddress" := JStr "Av. Revolucion"]> ∅).

(** The page lines of a walk whose pages list [counts] places, after
    [page] pages. *)
Fixpoint page_lines (page : nat) (counts : list nat) : list msg :=
  match counts with
  | [] => []
  | n :: counts' => MsgPage (S page) n :: page_lines (S page) counts'
  end.

(** The lines of a crawl over [pts] from the index [idx] on, when the walks
    begun list the pages [cs]: for each point begun its line, then its page
    lines. *)
Fixpoint point_lines (idx total : nat) (pts : list (float * float)) (cs : list (list nat))
  : list msg :=
  match pts, cs with
  | (lat, lon) :: pts', counts :: cs' =>
      MsgPoint idx total lat lon :: page_lines 0 counts ++ point_lines (S idx) total pts' cs'
  | _, _ => []
  end.

(** The lines that close a run that reaches the export with the rows [rs]. *)
Definition closing_lines (rs : list PlaceRecord) : list msg :=
  [MsgCount (length rs);
   match rs with
   | [] => MsgNoMatches
   | _ :: _ => MsgSaved "tijuana_no_website.csv"
   end].

(** Two runs side by side, of [exhaustive.py] ([we]) and of [places.py]
    ([wf]): the provider is in the same state, the same ids have been seen
    and fetched, and the rows of [places.py] are a sub-list of those of
    [exhaustive.py]. *)
Definition lockstep {P} (we wf : world P) : Prop :=
  prov we = prov wf
  ∧ seen we = seen wf
  ∧ fetched (trace we) = fetched (trace wf)
  ∧ rows wf `sublist_of` rows we.

(** Two computations that stay in step for as long as both end normally. *)
Definition alike {P A} (me mf : M P A) : Prop :=
  ∀ we wf, lockstep we wf →
    match me we, mf wf with
    | Done a we', Done b wf' => a = b ∧ lockstep we' wf'
    | _, _ => True
    end.

(** A park without a website, and details that make place A a bar and
    place B this park. *)
Definition park_x : gmap string json :=
  <["types" := JArr [JStr "park"; JStr "point_of_interest"]]> cafe_x.
Definition bar_and_park (pid : string) : option (gmap string json) :=
  if String.eqb pid "A" then Some bar_x else Some park_x.

(** ** Text as Python has it *)

(** A [str] as the list of its code points. *)
Definition text : Type := list N.

(** [str.isspace] on one character, the class [str.strip] removes: the
    29 code points U+0009-000D, U+001C-0020, U+0085, U+00A0, U+1680,
    U+2000-200A, U+2028, U+2029, U+202F, U+205F and U+3000. *)
Definition py_isspace (c : N) : bool :=
  ((9 <=? c) && (c <=? 13) || (28 <=? c) && (c <=? 32)
   || (c =? 133) || (c =? 160) || (c =? 5760)
   || (8192 <=? c) && (c <=? 8202)
   || (c =? 8232) || (c =? 8233) || (c =? 8239) || (c =? 8287) || (c =? 12288))%N.

Fixpoint py_lstrip (s : text) : text :=
  match s with
  | c :: s' => if py_isspace c then py_lstrip s' else s
  | [] => []
  end.

(** [s.strip()] *)
Definition py_strip (s : text) : text := rev (py_lstrip (rev (py_lstrip s))).

(** The truth value of a value that is [None] or a [str]. *)
Definition truthy_text (t : option text) : bool :=
  match t with
  | Some (_ :: _) => true
  | _ => false
  end.

(** [a or b] *)
Definition or_text (a b : option text) : option text :=
  if truthy_text a then a else b.

(** Lines 13-14 of [only_phone.py] on the four values of a row:
    [phone = row.get('phone') or row.get('Phone') or row.get('telefono')
    or row.get('Telefono')], then [phone and phone.strip()]. *)
Definition phone_test (phone_ Phone_ telefono_ Telefono_ : option text) : bool :=
  let phone := or_text (or_text (or_text phone_ Phone_) telefono_) Telefono_ in
  truthy_text phone && truthy_text (py_strip <$> phone).

(** The first value of a list that is a non-empty text. *)
Fixpoint first_text (vals : list (option text)) : option text :=
  match vals with
  | [] => None
  | v :: vals' => if truthy_text v then v else first_text vals'
  end.

(** The code points of a string of the row model, whose characters are the
    code points below 256. *)
Definition codes (s : string) : text := N_of_ascii <$> list_ascii_of_string s.

(** * Properties *)

(** ** The Deduplicator *)

Lemma admit_fst (pid : string) (s : gset string) :
  (admit_id pid s).1 = bool_decide (pid ∉ s).
Proof.
  unfold admit_id. destruct (decide (pid ∈ s)) as [Hin | Hout]; simpl.
  - symmetry. apply bool_decide_eq_false. intros Hn. exact (Hn Hin).
  - symmetry. apply bool_decide_eq_true. exact Hout.
Qed.

Lemma admit_snd (pid : string) (s : gset string) :
  (admit_id pid s).2 = {[pid]} ∪ s.
Proof.
  unfold admit_id. destruct (decide (pid ∈ s)); simpl; [set_solver | reflexivity].
Qed.

Lemma admit_all_cons (pid : string) (ids : list string) (s : gset string) :
  admit_all (pid :: ids) s
  = ((admit_id pid s).1 :: (admit_all ids (admit_id pid s).2).1,
     (admit_all ids (admit_id pid s).2).2).
Proof.
  simpl. destruct (admit_id pid s) as [b s1]. simpl.
  destruct (admit_all ids s1) as [bs s2]. reflexivity.
Qed.

Lemma admit_all_length (ids : list string) (s : gset string) :
  length (admit_all ids s).1 = length ids.
Proof.
  revert s. induction ids as [| pid ids IH]; intros s; [reflexivity |].
  rewrite admit_all_cons. simpl. f_equal. apply IH.
Qed.

(** The answer at each position: true when the id is neither in the
    initial set nor among the ids presented before. *)
Lemma admit_all_lookup (ids : list string) (s : gset string) (i : nat) :
  (admit_all ids s).1 !! i
  = (fun pid => bool_decide (pid ∉ s ∧ pid ∉ take i ids)) <$> (ids !! i).
Proof.
  revert s i. induction ids as [| pid ids IH]; intros s i.
  - destruct i; reflexivity.
  - rewrite admit_all_cons. destruct i as [| i]; simpl.
    + f_equal. rewrite admit_fst. apply bool_decide_ext.
      split; [intros H; split; [exact H | apply not_elem_of_nil] | intros [H _]; exact H].
    + rewrite IH, admit_snd. destruct (ids !! i) as [q |]; simpl; [| reflexivity].
      f_equal. apply bool_decide_ext. rewrite not_elem_of_cons. set_solver.
Qed.

Lemma admissions_from (pid : string) (ids : list string) (s : gset string) :
  admissions pid ids (admit_all ids s).1
  = if decide (pid ∈ s) then 0%nat else if decide (pid ∈ ids) then 1%nat else 0%nat.
Proof.
  unfold admissions. revert s. induction ids as [| q ids IH]; intros s.
  - simpl. repeat case_decide; try reflexivity; exfalso; eapply not_elem_of_nil; eauto.
  - rewrite admit_all_cons. cbn [fst zip_with]. rewrite filter_cons.
    rewrite admit_fst, admit_snd. cbn [fst snd].
    destruct (decide (q = pid ∧ bool_decide (q ∉ s) = true)) as [[-> Hb] | Hn].
    + apply bool_decide_eq_true in Hb. cbn [length]. rewrite IH.
      rewrite decide_True by set_solver.
      rewrite decide_False by exact Hb.
      rewrite decide_True by (left). reflexivity.
    + rewrite IH. destruct (decide (pid ∈ s)) as [Hs | Hs].
      * rewrite decide_True by set_solver. reflexivity.
      * destruct (decide (q = pid)) as [-> | Hq].
        -- exfalso. apply Hn. split; [reflexivity | apply bool_decide_eq_true; exact Hs].
        -- rewrite decide_False by set_solver.
           destruct (decide (pid ∈ ids)) as [Hi | Hi].
           ++ rewrite decide_True by (right; exact Hi). reflexivity.
           ++ rewrite decide_False; [reflexivity |].
              rewrite elem_of_cons. intros [-> | H]; [exact (Hq eq_refl) | exact (Hi H)].
Qed.

(** C3: over any sequence of ids presented to a fresh Deduplicator, [admit_id]
    answers once per id presented (one answer per call); the answer at a
    position is true exactly when the id does not occur earlier in the
    sequence, so false at every later occurrence; and for every id the
    number of true answers is one when the id occurs in the sequence (zero
    otherwise), whatever the order and the repetitions. *)
Theorem admit_true_exactly_once (ids : list string) :
  let answers := (admit_all ids ∅).1 in
  length answers = length ids
  ∧ (∀ i : nat,
       answers !! i = (fun pid => bool_decide (pid ∉ take i ids)) <$> (ids !! i))
  ∧ (∀ pid : string,
       admissions pid ids answers = if decide (pid ∈ ids) then 1%nat else 0%nat).
Proof.
  cbv zeta. split; [apply admit_all_length | split].
  - intros i. rewrite admit_all_lookup. destruct (ids !! i); simpl; [| reflexivity].
    f_equal. apply bool_decide_ext. set_solver.
  - intros pid. rewrite admissions_from. rewrite decide_False by set_solver. reflexivity.
Qed.

(** ** Reasoning about runs *)

Lemma triple_bind {P A B} (Pre : world P → Prop) (m : M P A) (k : A → M P B)
  (Mid : A → world P → Prop) (Post : B → world P → Prop) (Exc : world P → Prop) :
  triple Pre m Mid Exc →
  (∀ a, triple (Mid a) (k a) Post Exc) →
  triple Pre (bind m k) Post Exc.
Proof.
  intros Hm Hk w Hw. unfold bind. specialize (Hm w Hw).
  destruct (m w) as [a w' | e w' | w']; [apply Hk; exact Hm | exact Hm | exact Hm].
Qed.

Lemma triple_json_or_raise {P A} (r : option A) (Inv : world P → Prop) :
  triple Inv (json_or_raise r) (fun _ => Inv) Inv.
Proof. intros w Hw. destruct r; exact Hw. Qed.

(** A loop keeps an invariant that its body keeps. *)
Lemma triple_for_each {P A} (xs : list A) (f : A → M P unit) (Inv : world P → Prop) :
  (∀ x, x ∈ xs → triple Inv (f x) (fun _ => Inv) Inv) →
  triple Inv (for_each xs f) (fun _ => Inv) Inv.
Proof.
  induction xs as [| x xs IH]; intros Hf.
  - intros w Hw. exact Hw.
  - simpl. eapply triple_bind.
    + apply Hf. left.
    + intros ?. apply IH. intros y Hy. apply Hf. right. exact Hy.
Qed.

Lemma triple_for_enumerate {P A} (i0 : nat) (xs : list A) (f : nat → A → M P unit)
  (Inv : world P → Prop) :
  (∀ i x, triple Inv (f i x) (fun _ => Inv) Inv) →
  triple Inv (for_enumerate i0 xs f) (fun _ => Inv) Inv.
Proof.
  intros Hf. revert i0. induction xs as [| x xs IH]; intros i0.
  - intros w Hw. exact Hw.
  - simpl. eapply triple_bind; [apply Hf | intros ?; apply IH].
Qed.

(** What a run's final world satisfies, whatever the outcome. *)
Lemma triple_final {P A} (Pre : world P → Prop) (m : M P A) (Inv : world P → Prop) (w : world P) :
  triple Pre m (fun _ => Inv) Inv → Pre w → Inv (final (m w)).
Proof. intros Hm Hw. specialize (Hm w Hw). destruct (m w); exact Hm. Qed.

(** ** The website test *)

Lemma py_in_true (k : string) (d : gmap string json) :
  py_in k d = true ↔ is_Some (d !! k).
Proof. unfold py_in. apply bool_decide_eq_true. Qed.

Lemma website_rejects_exhaustive {P} (pv : provider P) (pid : string) (w : world P)
  (p' : P) (det : gmap string json) :
  fetch pv (prov w) pid = (p', Some det) →
  is_Some (det !! "websiteUri") →
  ∃ w', Exhaustive.visit pv pid w = Done tt w' ∧ rows w' = rows w.
Proof.
  intros Hf Hw. apply py_in_true in Hw.
  unfold Exhaustive.visit, Exhaustive.details, bind, admit_seen, get_details.
  destruct (admit_id pid (seen w)) as [[|] s']; simpl.
  - rewrite Hf. simpl. rewrite Hw. eexists. split; reflexivity.
  - eexists. split; reflexivity.
Qed.

Lemma website_rejects_decide (det : gmap string json) :
  is_Some (det !! "websiteUri") → Filtered.decide_place det = inr None.
Proof.
  intros Hw. apply py_in_true in Hw. unfold Filtered.decide_place. rewrite Hw. reflexivity.
Qed.

Lemma website_rejects_filtered {P} (pv : provider P) (pid : string) (w : world P)
  (p' : P) (det : gmap string json) :
  fetch pv (prov w) pid = (p', Some det) →
  is_Some (det !! "websiteUri") →
  ∃ w', Filtered.visit pv pid w = Done tt w' ∧ rows w' = rows w.
Proof.
  intros Hf Hw. apply website_rejects_decide in Hw.
  unfold Filtered.visit, Filtered.details, bind, admit_seen, get_details.
  destruct (admit_id pid (seen w)) as [[|] s']; simpl.
  - rewrite Hf. simpl. rewrite Hw. eexists. split; reflexivity.
  - eexists. split; reflexivity.
Qed.

Lemma website_rejects_single {P} (pv : provider P) (pid : string) (w : world P)
  (p' : P) (det : gmap string json) :
  fetch pv (prov w) pid = (p', Some det) →
  is_Some (det !! "websiteUri") →
  ∃ w', SingleCircle.visit pv pid w = Done tt w' ∧ rows w' = rows w.
Proof.
  intros Hf Hw. apply py_in_true in Hw.
  unfold SingleCircle.visit, SingleCircle.details, bind, get_details.
  rewrite Hf. simpl. rewrite Hw. eexists. split; reflexivity.
Qed.

(** C1: when the detail response of a candidate has a ["websiteUri"] key,
    whatever else it holds, visiting the candidate ends normally and leaves
    the accumulated rows as they were, in the grid crawler, the filtered
    crawler and the single-circle crawler; and in the filtered crawler the
    decision is a skip before the type labels are looked at (it is a skip
    even where building the label set would raise). *)
Theorem website_never_recorded {P} (pv : provider P) (pid : string) (w : world P)
  (p' : P) (det : gmap string json) :
  fetch pv (prov w) pid = (p', Some det) →
  is_Some (det !! "websiteUri") →
  (∃ w', Exhaustive.visit pv pid w = Done tt w' ∧ rows w' = rows w)
  ∧ (∃ w', Filtered.visit pv pid w = Done tt w' ∧ rows w' = rows w)
  ∧ (∃ w', SingleCircle.visit pv pid w = Done tt w' ∧ rows w' = rows w)
  ∧ Filtered.decide_place det = inr None.
Proof.
  intros Hf Hw. repeat split.
  - eapply website_rejects_exhaustive; eassumption.
  - eapply website_rejects_filtered; eassumption.
  - eapply website_rejects_single; eassumption.
  - apply website_rejects_decide. exact Hw.
Qed.

Lemma website_never_recorded_witness :
  let det := <["websiteUri" := JStr "http://x.com"]> cafe_x in
  let w : world unit := init tt in
  (∃ w', Exhaustive.visit (stub det) "A" w = Done tt w' ∧ rows w' = rows w)
  ∧ (∃ w', Filtered.visit (stub det) "A" w = Done tt w' ∧ rows w' = rows w)
  ∧ (∃ w', SingleCircle.visit (stub det) "A" w = Done tt w' ∧ rows w' = rows w)
  ∧ Filtered.decide_place det = inr None.
Proof.
  cbv zeta.
  apply (website_never_recorded (stub (<["websiteUri" := JStr "http://x.com"]> cafe_x))
           "A" (init tt) tt (<["websiteUri" := JStr "http://x.com"]> cafe_x)).
  - reflexivity.
  - exists (JStr "http://x.com"). vm_compute. reflexivity.
Defined.

(** The order of the two tests, on a response whose type labels cannot even
    be collected: with the website key the decision is a skip, without it
    the label set raises. *)
Lemma website_before_types :
  let det := <["types" := JNum 5]> cafe_x in
  Filtered.decide_place det = inl TypeError
  ∧ Filtered.decide_place (<["websiteUri" := JStr "http://x.com"]> det) = inr None.
Proof. cbv zeta. split; vm_compute; reflexivity. Qed.

(** ** Phone selection *)

Lemma make_row_phone (det : gmap string json) (r : PlaceRecord) :
  Exhaustive.make_row det = inr r →
  phone r = py_or (py_get det "internationalPhoneNumber")
                  (py_get_default det "nationalPhoneNumber" (JStr "")).
Proof.
  unfold Exhaustive.make_row. intros H.
  destruct (py_getitem det "displayName") as [e | dn]; [discriminate |].
  destruct (py_subscript dn "text") as [e | nm]; [discriminate |].
  destruct (py_getitem det "formattedAddress") as [e | ad]; [discriminate |].
  injection H as <-. reflexivity.
Qed.

(** The three crawlers build the row in the same way. *)
Lemma make_row_filtered (det : gmap string json) :
  Filtered.make_row det = Exhaustive.make_row det.
Proof. reflexivity. Qed.

Lemma make_row_single (det : gmap string json) :
  SingleCircle.make_row det = Exhaustive.make_row det.
Proof. reflexivity. Qed.

Lemma decide_place_row (det : gmap string json) (r : PlaceRecord) :
  Filtered.decide_place det = inr (Some r) → Exhaustive.make_row det = inr r.
Proof.
  unfold Filtered.decide_place. rewrite make_row_filtered.
  destruct (py_in "websiteUri" det); [discriminate |].
  destruct (Filtered.place_types det) as [e | tys]; [discriminate |].
  destruct (bool_decide _); [discriminate |].
  destruct (Exhaustive.make_row det) as [e | r']; [discriminate |].
  intros H. injection H as <-. reflexivity.
Qed.

(** C5: for every accepted candidate, in each of the three crawlers, the
    record's phone is the international phone number when the response
    carries one (a value Python takes as true: for a string, a non-empty
    one), whether or not a national number is there; with no international
    number carried, it is the national number when the response has one;
    and with neither key it is the empty string. *)
Theorem phone_selection (det : gmap string json) (r : PlaceRecord) :
  Exhaustive.make_row det = inr r
  ∨ Filtered.decide_place det = inr (Some r)
  ∨ SingleCircle.make_row det = inr r →
  (∀ i, det !! "internationalPhoneNumber" = Some i → truthy i = true → phone r = i)
  ∧ (truthy (py_get det "internationalPhoneNumber") = false →
     ∀ n, det !! "nationalPhoneNumber" = Some n → phone r = n)
  ∧ (truthy (py_get det "internationalPhoneNumber") = false →
     det !! "nationalPhoneNumber" = None → phone r = JStr "").
Proof.
  intros H.
  assert (Hr : Exhaustive.make_row det = inr r).
  { destruct H as [H | [H | H]]; [exact H | apply decide_place_row; exact H |].
    rewrite <- make_row_single. exact H. }
  apply make_row_phone in Hr. rewrite Hr. unfold py_or, py_get, py_get_default.
  repeat split.
  - intros i Hi Ht. rewrite Hi. simpl. rewrite Ht. reflexivity.
  - intros Hf n Hn. unfold py_get in Hf. rewrite Hf, Hn. reflexivity.
  - intros Hf Hn. unfold py_get in Hf. rewrite Hf, Hn. reflexivity.
Qed.

Lemma phone_selection_witness :
  let r := {| name := JStr "Cafe X"; address := JStr "123 St"; phone := JStr "555-1234" |} in
  (∀ i, cafe_x !! "internationalPhoneNumber" = Some i → truthy i = true → phone r = i)
  ∧ (truthy (py_get cafe_x "internationalPhoneNumber") = false →
     ∀ n, cafe_x !! "nationalPhoneNumber" = Some n → phone r = n)
  ∧ (truthy (py_get cafe_x "internationalPhoneNumber") = false →
     cafe_x !! "nationalPhoneNumber" = None → phone r = JStr "").
Proof.
  cbv zeta. apply (phone_selection cafe_x). left. vm_compute. reflexivity.
Defined.

(** The selection is by truth value, not by key: an international number
    that is the empty string counts as none, and the national number is
    recorded. *)
Lemma phone_selection_empty_international :
  let det := <["internationalPhoneNumber" := JStr ""]> cafe_x in
  is_Some (det !! "internationalPhoneNumber")
  ∧ is_Some (det !! "nationalPhoneNumber")
  ∧ ∃ r, Exhaustive.make_row det = inr r
         ∧ Some (phone r) ≠ det !! "internationalPhoneNumber"
         ∧ Some (phone r) = det !! "nationalPhoneNumber".
Proof.
  cbv zeta. split; [| split].
  - eexists. vm_compute. reflexivity.
  - eexists. vm_compute. reflexivity.
  - eexists. split; [vm_compute; reflexivity |]. split; vm_compute; [discriminate | reflexivity].
Qed.

(** ** The category test *)

Lemma py_set_strings (l : list string) :
  py_set (JArr (JStr <$> l)) = inr (list_to_set (AStr <$> l)).
Proof.
  unfold py_set. induction l as [| s l IH]; [reflexivity |].
  rewrite fmap_cons. cbn [foldr]. rewrite IH. reflexivity.
Qed.

Lemma elem_of_atoms (a : atom) (l : list string) :
  a ∈ (list_to_set (AStr <$> l) : gset atom) ↔ ∃ s, a = AStr s ∧ s ∈ l.
Proof.
  rewrite elem_of_list_to_set, list_elem_of_fmap. reflexivity.
Qed.

Lemma empty_not_promo : "" ∉ Filtered.PROMO_TYPES.
Proof. apply (bool_decide_unpack _). vm_compute. exact I. Qed.

(** The label set built by the code, for a response whose labels are
    strings: the declared types, and the primary type unless it is empty. *)
Lemma place_types_strings (det : gmap string json) (tys : option (list string))
  (pt : option string) :
  det !! "types" = (fun l => JArr (JStr <$> l)) <$> tys →
  det !! "primaryType" = JStr <$> pt →
  ∃ s : gset atom,
    Filtered.place_types det = inr s
    ∧ ∀ a, a ∈ s ↔ ∃ x, a = AStr x ∧ (x ∈ default [] tys ∨ (pt = Some x ∧ x ≠ "")).
Proof.
  intros Ht Hp. unfold Filtered.place_types, py_get_default, py_get, py_getitem.
  rewrite Ht, Hp.
  assert (Hs : py_set (default (JArr []) ((fun l => JArr (JStr <$> l)) <$> tys))
               = inr (list_to_set (AStr <$> default [] tys))).
  { destruct tys as [l |]; simpl; [apply py_set_strings | reflexivity]. }
  rewrite Hs. destruct pt as [x |]; simpl.
  - destruct (String.eqb x "") eqn:Hx; simpl.
    + apply String.eqb_eq in Hx. subst x. eexists. split; [reflexivity |].
      intros a. rewrite elem_of_atoms. split.
      * intros (s & -> & Hin). exists s. auto.
      * intros (s & -> & [Hin | [Heq Hne]]); [exists s; auto |].
        injection Heq as <-. exfalso. exact (Hne eq_refl).
    + apply String.eqb_neq in Hx. eexists. split; [reflexivity |].
      intros a. rewrite elem_of_union, elem_of_singleton, elem_of_atoms. split.
      * intros [-> | (s & -> & Hin)]; [exists x; auto | exists s; auto].
      * intros (s & -> & [Hin | [Heq Hne]]); [right; exists s; auto |].
        left. congruence.
  - eexists. split; [reflexivity |].
    intros a. rewrite elem_of_atoms. split.
    + intros (s & -> & Hin). exists s. auto.
    + intros (s & -> & [Hin | [Heq _]]); [exists s; auto | discriminate].
Qed.

Lemma promo_overlap_labels (s : gset atom) (tys : option (list string)) (pt : option string) :
  (∀ a, a ∈ s ↔ ∃ x, a = AStr x ∧ (x ∈ default [] tys ∨ (pt = Some x ∧ x ≠ ""))) →
  Filtered.promo_overlap s = ∅ ↔ type_labels tys pt ∩ Filtered.PROMO_TYPES = ∅.
Proof.
  intros Hs. unfold Filtered.promo_overlap, type_labels. split.
  - intros He. apply set_eq. intros x. split; [| set_solver].
    rewrite elem_of_intersection, elem_of_union, elem_of_list_to_set.
    intros [Hx Hp]. exfalso.
    assert (Hin : AStr x ∈ s ∩ (set_map AStr Filtered.PROMO_TYPES : gset atom)).
    { apply elem_of_intersection. split.
      - apply Hs. exists x. split; [reflexivity |].
        destruct Hx as [Hx | Hx]; [left; exact Hx | right].
        destruct pt as [y |]; [| set_solver].
        apply elem_of_singleton in Hx. subst y. split; [reflexivity |].
        intros ->. exact (empty_not_promo Hp).
      - apply elem_of_map. exists x. auto. }
    rewrite He in Hin. set_solver.
  - intros He. apply set_eq. intros a. split; [| set_solver].
    rewrite elem_of_intersection, elem_of_map.
    intros [Ha (x & -> & Hp)]. exfalso.
    apply Hs in Ha. destruct Ha as (y & Hy & Hin). injection Hy as <-.
    assert (Hx : x ∈ (list_to_set (default [] tys)
                        ∪ match pt with Some s0 => {[s0]} | None => ∅ end : gset string)
                 ∩ Filtered.PROMO_TYPES).
    { apply elem_of_intersection. split; [| exact Hp].
      apply elem_of_union. destruct Hin as [Hin | [-> _]].
      - left. apply elem_of_list_to_set. exact Hin.
      - right. apply elem_of_singleton. reflexivity. }
    rewrite He in Hx. set_solver.
Qed.

Lemma decide_place_labels (det : gmap string json) (tys : option (list string))
  (pt : option string) (r : PlaceRecord) :
  det !! "websiteUri" = None →
  Filtered.make_row det = inr r →
  det !! "types" = (fun l => JArr (JStr <$> l)) <$> tys →
  det !! "primaryType" = JStr <$> pt →
  Filtered.decide_place det
  = if decide (type_labels tys pt ∩ Filtered.PROMO_TYPES = ∅) then inr None else inr (Some r).
Proof.
  intros Hw Hr Ht Hp. unfold Filtered.decide_place.
  assert (Hin : py_in "websiteUri" det = false).
  { unfold py_in. apply bool_decide_eq_false. rewrite Hw. intros [? ?]. discriminate. }
  rewrite Hin. destruct (place_types_strings det tys pt Ht Hp) as (s & -> & Hs).
  rewrite Hr. pose proof (promo_overlap_labels s tys pt Hs) as Hov.
  destruct (decide (type_labels tys pt ∩ Filtered.PROMO_TYPES = ∅)) as [He | He].
  - rewrite bool_decide_eq_true_2 by (apply Hov; exact He). reflexivity.
  - rewrite bool_decide_eq_false_2; [reflexivity |]. intros H. apply He, Hov. exact H.
Qed.

(** C4: in the filtered crawler, for a candidate admitted by the
    Deduplicator whose detail response has no website key, has the name and
    address the row needs, and whose ["types"] (a list of strings) and
    ["primaryType"] (a string) may each be absent, a record is produced
    exactly when the union of the listed types and the primary type meets
    PROMO_TYPES: the decision is that record in this case and a skip
    otherwise, and visiting the candidate appends that record to the rows,
    or leaves them as they were. *)
Theorem category_filter {P} (pv : provider P) (pid : string) (w : world P) (p' : P)
  (det : gmap string json) (tys : option (list string)) (pt : option string)
  (r : PlaceRecord) :
  pid ∉ seen w →
  fetch pv (prov w) pid = (p', Some det) →
  det !! "websiteUri" = None →
  Filtered.make_row det = inr r →
  det !! "types" = (fun l => JArr (JStr <$> l)) <$> tys →
  det !! "primaryType" = JStr <$> pt →
  (Filtered.decide_place det = inr (Some r)
   ↔ type_labels tys pt ∩ Filtered.PROMO_TYPES ≠ ∅)
  ∧ (Filtered.decide_place det = inr None
     ↔ type_labels tys pt ∩ Filtered.PROMO_TYPES = ∅)
  ∧ ∃ w', Filtered.visit pv pid w = Done tt w'
          ∧ rows w' = rows w ++ (if decide (type_labels tys pt ∩ Filtered.PROMO_TYPES = ∅)
                                 then [] else [r]).
Proof.
  intros Hs Hf Hw Hr Ht Hp.
  pose proof (decide_place_labels det tys pt r Hw Hr Ht Hp) as Hd.
  split; [| split].
  - rewrite Hd. case_decide; split; intros Hx; congruence.
  - rewrite Hd. case_decide; split; intros Hx; congruence.
  - unfold Filtered.visit, Filtered.details, bind, admit_seen, get_details, admit_id.
    rewrite decide_False by exact Hs. simpl. rewrite Hf. simpl. rewrite Hd.
    case_decide; simpl; eexists; (split; [reflexivity |]); simpl.
    + rewrite app_nil_r. reflexivity.
    + reflexivity.
Qed.

Lemma category_filter_witness :
  let r := {| name := JStr "Cafe X"; address := JStr "123 St"; phone := JStr "555-1234" |} in
  let tys := Some ["bar"; "point_of_interest"] in
  let pt := Some "bar" in
  let w : world unit := init tt in
  (Filtered.decide_place bar_x = inr (Some r)
   ↔ type_labels tys pt ∩ Filtered.PROMO_TYPES ≠ ∅)
  ∧ (Filtered.decide_place bar_x = inr None
     ↔ type_labels tys pt ∩ Filtered.PROMO_TYPES = ∅)
  ∧ ∃ w', Filtered.visit (stub bar_x) "A" w = Done tt w'
          ∧ rows w' = rows w ++ (if decide (type_labels tys pt ∩ Filtered.PROMO_TYPES = ∅)
                                 then [] else [r]).
Proof.
  cbv zeta.
  apply (category_filter (stub bar_x) "A" (init tt) tt bar_x
           (Some ["bar"; "point_of_interest"]) (Some "bar")).
  - apply not_elem_of_empty.
  - reflexivity.
  - vm_compute. reflexivity.
  - vm_compute. reflexivity.
  - vm_compute. reflexivity.
  - vm_compute. reflexivity.
Defined.

(** ** The three paging loops are one loop *)

(** One round of either side: every intermediate outcome is the same, and
    the next round is the induction hypothesis. *)
Ltac same_round IH :=
  simpl; unfold bind;
  repeat match goal with
         | |- context [match ?m ?w with Done _ _ => _ | Raised _ _ => _ | OutOfFuel _ => _ end] =>
             lazymatch m with
             | page_loop _ _ _ _ _ => fail
             | _ => destruct (m w) as [? ? | ? ? | ?]; try reflexivity
             end
         | |- context [if negb ?b then _ else _] => destruct (negb b); try reflexivity
         end;
  try apply IH.

Lemma exhaustive_walk_loop {P} (pv : provider P) (fuel : nat) (lat lon : float)
  (token : option string) (page : nat) (w : world P) :
  Exhaustive.walk pv fuel lat lon token page w
  = page_loop (Exhaustive.nearby pv lat lon) (Exhaustive.visit pv) fuel token page w.
Proof.
  revert token page w. induction fuel as [| fuel IH]; intros token page w; [reflexivity |].
  same_round IH.
Qed.

Lemma filtered_walk_loop {P} (pv : provider P) (fuel : nat) (lat lon : float)
  (token : option string) (page : nat) (w : world P) :
  Filtered.walk pv fuel lat lon token page w
  = page_loop (Filtered.nearby pv lat lon) (Filtered.visit pv) fuel token page w.
Proof.
  revert token page w. induction fuel as [| fuel IH]; intros token page w; [reflexivity |].
  same_round IH.
Qed.

Lemma single_crawl_loop {P} (pv : provider P) (fuel : nat)
  (token : option string) (page : nat) (w : world P) :
  SingleCircle.crawl pv fuel token page w
  = page_loop (SingleCircle.nearby_page pv) (SingleCircle.visit pv) fuel token page w.
Proof.
  revert token page w. induction fuel as [| fuel IH]; intros token page w; [reflexivity |].
  same_round IH.
Qed.

(** The loop keeps what its request and its per-candidate step keep. *)
Lemma triple_page_loop {P} (nearby : option string → M P SearchResponse)
  (visit : string → M P unit) (Inv : world P → Prop) :
  (∀ m, triple Inv (print m) (fun _ => Inv) Inv) →
  triple Inv (sleep 2) (fun _ => Inv) Inv →
  (∀ token, triple Inv (nearby token) (fun _ => Inv) Inv) →
  (∀ pid, triple Inv (visit pid) (fun _ => Inv) Inv) →
  ∀ fuel token page, triple Inv (page_loop nearby visit fuel token page) (fun _ => Inv) Inv.
Proof.
  intros Hprint Hsleep Hnear Hvisit fuel.
  induction fuel as [| fuel IH]; intros token page; [intros w Hw; exact Hw |].
  simpl. eapply triple_bind; [apply Hnear |]. intros resp.
  eapply triple_bind; [apply Hprint |]. intros ?.
  eapply triple_bind; [apply triple_for_each; intros; apply Hvisit |]. intros ?.
  destruct (negb _); [intros w Hw; exact Hw |].
  eapply triple_bind; [apply Hsleep |]. intros ?. apply IH.
Qed.

(** ** At most one detail request per id *)

Lemma fetched_app (tr1 tr2 : list event) :
  fetched (tr1 ++ tr2) = fetched tr1 ++ fetched tr2.
Proof. unfold fetched. apply bind_app. Qed.

Lemma fetched_snoc_other (tr : list event) (ev : event) :
  (∀ pid mask, ev ≠ EvDetails pid mask) → fetched (tr ++ [ev]) = fetched tr.
Proof.
  intros Hev. rewrite fetched_app.
  destruct ev; try (apply app_nil_r). exfalso. eapply Hev. reflexivity.
Qed.

Lemma fetched_snoc_details (tr : list event) (pid mask : string) :
  fetched (tr ++ [EvDetails pid mask]) = fetched tr ++ [pid].
Proof. rewrite fetched_app. reflexivity. Qed.

Lemma filter_absent (pid : string) (l : list string) :
  pid ∉ l → filter (fun q => q = pid) l = [].
Proof.
  induction l as [| q l IH]; intros Hn; [reflexivity |].
  apply not_elem_of_cons in Hn as [Hne Hn].
  rewrite filter_cons, decide_False by (intros ->; exact (Hne eq_refl)).
  apply IH. exact Hn.
Qed.

Lemma fetch_count_NoDup (pid : string) (tr : list event) :
  NoDup (fetched tr) → (fetch_count pid tr ≤ 1)%nat.
Proof.
  unfold fetch_count. generalize (fetched tr). intros l Hl.
  induction Hl as [| q l Hq Hl IH]; [simpl; lia |].
  rewrite filter_cons. destruct (decide (q = pid)) as [-> | Hne]; [| exact IH].
  rewrite filter_absent by exact Hq. simpl. lia.
Qed.

Lemma fetched_once_init {P} (p : P) : fetched_once (init p).
Proof. split; [apply NoDup_nil_2 | intros pid Hin; inversion Hin]. Qed.

Lemma fetched_once_emit {P} (ev : event) :
  (∀ pid mask, ev ≠ EvDetails pid mask) →
  triple (@fetched_once P) (emit ev) (fun _ => fetched_once) fetched_once.
Proof.
  intros Hev w [Hnd Hin]. unfold emit, fetched_once. simpl.
  rewrite fetched_snoc_other by exact Hev. split; assumption.
Qed.

Lemma fetched_once_search {P} (pv : provider P) (b : body) (mask : string) :
  triple (@fetched_once P) (post_search pv b mask) (fun _ => fetched_once) fetched_once.
Proof.
  intros w [Hnd Hin]. unfold post_search, fetched_once.
  destruct (search pv (prov w) b) as [p' r]. simpl.
  rewrite fetched_snoc_other by discriminate. split; assumption.
Qed.

(** The step that matters: a fresh id is recorded in the set, and then its
    details are requested. *)
Lemma fetched_once_step {P} (w w' : world P) (pid mask : string) :
  fetched_once w →
  pid ∉ seen w →
  seen w' = {[pid]} ∪ seen w →
  trace w' = trace w ++ [EvDetails pid mask] →
  fetched_once w'.
Proof.
  intros [Hnd Hin] Hs Hseen Htr. unfold fetched_once.
  rewrite Htr, Hseen, fetched_snoc_details. split.
  - apply NoDup_app. split; [exact Hnd | split].
    + intros x Hx Hx'. apply list_elem_of_singleton in Hx'. subst x. exact (Hs (Hin _ Hx)).
    + apply NoDup_singleton.
  - intros q Hq. apply elem_of_app in Hq as [Hq | Hq].
    + apply elem_of_union. right. exact (Hin _ Hq).
    + apply list_elem_of_singleton in Hq. subst q. apply elem_of_union. left.
      apply elem_of_singleton. reflexivity.
Qed.

(** What visiting a candidate does to the seen set and the trace, however
    the visit ends: nothing for an id already seen; otherwise the id joins
    the set and one detail request for it joins the trace. *)
Lemma exhaustive_visit_effect {P} (pv : provider P) (pid : string) (w : world P) :
  (pid ∈ seen w ∧ Exhaustive.visit pv pid w = Done tt w)
  ∨ (pid ∉ seen w
     ∧ seen (final (Exhaustive.visit pv pid w)) = {[pid]} ∪ seen w
     ∧ ∃ mask, trace (final (Exhaustive.visit pv pid w)) = trace w ++ [EvDetails pid mask]).
Proof.
  unfold Exhaustive.visit, Exhaustive.details, bind, admit_seen, admit_id, get_details.
  destruct (decide (pid ∈ seen w)) as [Hs | Hs]; simpl.
  - left. split; [exact Hs |]. destruct w; reflexivity.
  - right. split; [exact Hs |].
    destruct (fetch pv (prov w) pid) as [p' [det |]]; simpl.
    + destruct (py_in "websiteUri" det); simpl; [split; [reflexivity | eexists; reflexivity] |].
      destruct (Exhaustive.make_row det); simpl; (split; [reflexivity | eexists; reflexivity]).
    + split; [reflexivity | eexists; reflexivity].
Qed.

Lemma filtered_visit_effect {P} (pv : provider P) (pid : string) (w : world P) :
  (pid ∈ seen w ∧ Filtered.visit pv pid w = Done tt w)
  ∨ (pid ∉ seen w
     ∧ seen (final (Filtered.visit pv pid w)) = {[pid]} ∪ seen w
     ∧ ∃ mask, trace (final (Filtered.visit pv pid w)) = trace w ++ [EvDetails pid mask]).
Proof.
  unfold Filtered.visit, Filtered.details, bind, admit_seen, admit_id, get_details.
  destruct (decide (pid ∈ seen w)) as [Hs | Hs]; simpl.
  - left. split; [exact Hs |]. destruct w; reflexivity.
  - right. split; [exact Hs |].
    destruct (fetch pv (prov w) pid) as [p' [det |]]; simpl.
    + destruct (Filtered.decide_place det) as [e | [r |]]; simpl;
        (split; [reflexivity | eexists; reflexivity]).
    + split; [reflexivity | eexists; reflexivity].
Qed.

Lemma fetched_once_visit_effect {P} (m : M P unit) (pid : string) :
  (∀ w, (pid ∈ seen w ∧ m w = Done tt w)
        ∨ (pid ∉ seen w
           ∧ seen (final (m w)) = {[pid]} ∪ seen w
           ∧ ∃ mask, trace (final (m w)) = trace w ++ [EvDetails pid mask])) →
  triple fetched_once m (fun _ => fetched_once) fetched_once.
Proof.
  intros Hm w Hw. destruct (Hm w) as [[_ ->] | (Hs & Hseen & mask & Htr)]; [exact Hw |].
  assert (Hf : fetched_once (final (m w))) by (eapply fetched_once_step; eassumption).
  destruct (m w); exact Hf.
Qed.

Lemma fetched_once_exhaustive_walk {P} (pv : provider P) (fuel : nat) (lat lon : float)
  (token : option string) (page : nat) :
  triple fetched_once (Exhaustive.walk pv fuel lat lon token page)
    (fun _ => fetched_once) fetched_once.
Proof.
  intros w Hw. rewrite exhaustive_walk_loop. revert w Hw.
  apply triple_page_loop.
  - intros m. apply fetched_once_emit. discriminate.
  - apply fetched_once_emit. discriminate.
  - intros tok. unfold Exhaustive.nearby.
    eapply triple_bind; [apply fetched_once_search | intros r; apply triple_json_or_raise].
  - intros q. apply (fetched_once_visit_effect _ q). apply exhaustive_visit_effect.
Qed.

Lemma fetched_once_filtered_walk {P} (pv : provider P) (fuel : nat) (lat lon : float)
  (token : option string) (page : nat) :
  triple fetched_once (Filtered.walk pv fuel lat lon token page)
    (fun _ => fetched_once) fetched_once.
Proof.
  intros w Hw. rewrite filtered_walk_loop. revert w Hw.
  apply triple_page_loop.
  - intros m. apply fetched_once_emit. discriminate.
  - apply fetched_once_emit. discriminate.
  - intros tok. unfold Filtered.nearby.
    eapply triple_bind; [apply fetched_once_search | intros r; apply triple_json_or_raise].
  - intros q. apply (fetched_once_visit_effect _ q). apply filtered_visit_effect.
Qed.

Lemma fetched_once_exhaustive_crawl {P} (pv : provider P) (fuel : nat)
  (grid : list (float * float)) :
  triple fetched_once (Exhaustive.crawl pv fuel grid) (fun _ => fetched_once) fetched_once.
Proof.
  unfold Exhaustive.crawl. apply triple_for_enumerate. intros idx [lat lon].
  eapply triple_bind; [apply fetched_once_emit; discriminate |].
  intros ?. apply fetched_once_exhaustive_walk.
Qed.

Lemma fetched_once_filtered_crawl {P} (pv : provider P) (fuel : nat)
  (grid : list (float * float)) :
  triple fetched_once (Filtered.crawl pv fuel grid) (fun _ => fetched_once) fetched_once.
Proof.
  unfold Filtered.crawl. apply triple_for_enumerate. intros idx [lat lon].
  eapply triple_bind; [apply fetched_once_emit; discriminate |].
  intros ?. apply fetched_once_filtered_walk.
Qed.

Lemma fetched_once_exhaustive_export {P} :
  triple (@fetched_once P) Exhaustive.export (fun _ => fetched_once) fetched_once.
Proof.
  intros w Hw. unfold Exhaustive.export. revert w Hw.
  intros w. generalize (rows w). intros rs. revert w.
  change (triple (@fetched_once P)
            (print (MsgCount (length rs)) ;;
             match rs with
             | _ :: _ =>
                 emit (EvWrite "tijuana_no_website.csv"
                         ([JStr "name"; JStr "address"; JStr "phone"]
                            :: ((fun r => [name r; address r; phone r]) <$> rs))) ;;
                 print (MsgSaved "tijuana_no_website.csv")
             | [] => print MsgNoMatches
             end)
            (fun _ => fetched_once) fetched_once).
  eapply triple_bind; [apply fetched_once_emit; discriminate |]. intros ?.
  destruct rs; [apply fetched_once_emit; discriminate |].
  eapply triple_bind; [apply fetched_once_emit; discriminate |]. intros ?.
  apply fetched_once_emit; discriminate.
Qed.

Lemma filtered_export_same {P} : @Filtered.export P = @Exhaustive.export P.
Proof. reflexivity. Qed.

Lemma single_export_same {P} : @SingleCircle.export P = @Exhaustive.export P.
Proof. reflexivity. Qed.

Lemma fetched_once_exhaustive_main {P} (pv : provider P) (grid_fuel fuel : nat) :
  triple fetched_once (Exhaustive.main pv grid_fuel fuel) (fun _ => fetched_once) fetched_once.
Proof.
  unfold Exhaustive.main. destruct (Exhaustive.grid_points grid_fuel) as [g |];
    [| intros w Hw; exact Hw].
  eapply triple_bind; [apply fetched_once_emit; discriminate |]. intros ?.
  eapply triple_bind; [apply fetched_once_exhaustive_crawl |]. intros ?.
  apply fetched_once_exhaustive_export.
Qed.

Lemma fetched_once_filtered_main {P} (pv : provider P) (grid_fuel fuel : nat) :
  triple fetched_once (Filtered.main pv grid_fuel fuel) (fun _ => fetched_once) fetched_once.
Proof.
  unfold Filtered.main. destruct (Filtered.grid grid_fuel) as [g |];
    [| intros w Hw; exact Hw].
  eapply triple_bind; [apply fetched_once_emit; discriminate |]. intros ?.
  eapply triple_bind; [apply fetched_once_filtered_crawl |]. intros ?.
  rewrite filtered_export_same. apply fetched_once_exhaustive_export.
Qed.

Lemma fetch_count_final {P A} (m : M P A) (p0 : P) (pid : string) :
  triple fetched_once m (fun _ => fetched_once) fetched_once →
  (fetch_count pid (trace (final (m (init p0)))) ≤ 1)%nat.
Proof.
  intros Hm. apply fetch_count_NoDup.
  apply (triple_final fetched_once m fetched_once (init p0) Hm (fetched_once_init p0)).
Qed.

(** C2 (as amended): in the two crawlers that keep a seen set, the grid
    crawler and the filtered crawler, the trace of a run holds at most one
    detail request for any id, whatever the provider answers, over any list
    of scan points, however often the id comes back, and however the run
    ends (normally, by an exception, or still running when the fuel is
    spent); this holds for the loop over any grid and for the whole
    program. *)
Theorem details_fetched_at_most_once {P} (pv : provider P) (p0 : P)
  (grid : list (float * float)) (grid_fuel fuel : nat) (pid : string) :
  (fetch_count pid (trace (final (Exhaustive.crawl pv fuel grid (init p0)))) ≤ 1)%nat
  ∧ (fetch_count pid (trace (final (Exhaustive.main pv grid_fuel fuel (init p0)))) ≤ 1)%nat
  ∧ (fetch_count pid (trace (final (Filtered.crawl pv fuel grid (init p0)))) ≤ 1)%nat
  ∧ (fetch_count pid (trace (final (Filtered.main pv grid_fuel fuel (init p0)))) ≤ 1)%nat.
Proof.
  repeat split; apply fetch_count_final.
  - apply fetched_once_exhaustive_crawl.
  - apply fetched_once_exhaustive_main.
  - apply fetched_once_filtered_crawl.
  - apply fetched_once_filtered_main.
Qed.

(** C2, the claim as stated, fails for the single-circle crawler, which has
    no seen set: an id that comes back on a second page is fetched again. *)
Lemma single_circle_fetches_twice :
  fetch_count "A" (trace (final (SingleCircle.main (two_pages cafe_x) 3 (init 0%nat)))) = 2%nat.
Proof. vm_compute. reflexivity. Qed.

(** ** The export *)

Lemma export_eq {P} (w : world P) :
  Exhaustive.export w
  = Done tt (World (prov w) (seen w) (rows w)
               (trace w ++
                  match rows w with
                  | [] => [EvPrint (MsgCount 0); EvPrint MsgNoMatches]
                  | _ :: _ =>
                      [EvPrint (MsgCount (length (rows w)));
                       EvWrite "tijuana_no_website.csv" (header :: (cells <$> rows w));
                       EvPrint (MsgSaved "tijuana_no_website.csv")]
                  end)).
Proof.
  destruct w as [p s rs tr]. unfold Exhaustive.export, bind, print, emit. simpl.
  destruct rs as [| r rs]; simpl; rewrite <- ?app_assoc; reflexivity.
Qed.

(** C9: when the export is reached with a non-empty accumulation, each of
    the three crawlers prints the count, writes one file and prints the
    closing message; the file is the header (name, address, phone) followed
    by the row of each accumulated record in the order of acceptance, so
    its number of data rows is the number of records. *)
Theorem export_file_rows {P} (w : world P) :
  rows w ≠ [] →
  let file := header :: (cells <$> rows w) in
  let w' := World (prov w) (seen w) (rows w)
              (trace w ++ [EvPrint (MsgCount (length (rows w)));
                           EvWrite "tijuana_no_website.csv" file;
                           EvPrint (MsgSaved "tijuana_no_website.csv")]) in
  Exhaustive.export w = Done tt w'
  ∧ Filtered.export w = Done tt w'
  ∧ SingleCircle.export w = Done tt w'
  ∧ file !! 0%nat = Some [JStr "name"; JStr "address"; JStr "phone"]
  ∧ (∀ i : nat, file !! S i = (fun r => [name r; address r; phone r]) <$> (rows w !! i))
  ∧ length file = S (length (rows w)).
Proof.
  intros Hne. cbv zeta.
  assert (He : Exhaustive.export w
               = Done tt (World (prov w) (seen w) (rows w)
                            (trace w ++ [EvPrint (MsgCount (length (rows w)));
                                         EvWrite "tijuana_no_website.csv"
                                           (header :: (cells <$> rows w));
                                         EvPrint (MsgSaved "tijuana_no_website.csv")]))).
  { rewrite export_eq. destruct (rows w); [contradiction | reflexivity]. }
  split; [exact He |]. split; [rewrite filtered_export_same; exact He |].
  split; [rewrite single_export_same; exact He |].
  split; [reflexivity |]. split.
  - intros i. simpl. apply list_lookup_fmap.
  - simpl. rewrite length_fmap. reflexivity.
Qed.

Lemma export_file_rows_witness :
  let w : world unit :=
    World tt ∅ [{| name := JStr "Cafe X"; address := JStr "123 St"; phone := JStr "555-1234" |}] [] in
  let file := header :: (cells <$> rows w) in
  let w' := World (prov w) (seen w) (rows w)
              (trace w ++ [EvPrint (MsgCount (length (rows w)));
                           EvWrite "tijuana_no_website.csv" file;
                           EvPrint (MsgSaved "tijuana_no_website.csv")]) in
  Exhaustive.export w = Done tt w'
  ∧ Filtered.export w = Done tt w'
  ∧ SingleCircle.export w = Done tt w'
  ∧ file !! 0%nat = Some [JStr "name"; JStr "address"; JStr "phone"]
  ∧ (∀ i : nat, file !! S i = (fun r => [name r; address r; phone r]) <$> (rows w !! i))
  ∧ length file = S (length (rows w)).
Proof.
  cbv zeta.
  apply (export_file_rows
           (World tt ∅ [{| name := JStr "Cafe X"; address := JStr "123 St";
                           phone := JStr "555-1234" |}] [])).
  simpl. discriminate.
Defined.

Lemma written_app (tr1 tr2 : list event) :
  written (tr1 ++ tr2) = written tr1 ++ written tr2.
Proof. unfold written. apply bind_app. Qed.

Lemma written_quiet (evs : list event) :
  Forall (fun ev => is_quiet ev = true) evs → written evs = [].
Proof.
  induction 1 as [| ev evs Hev _ IH]; [reflexivity |].
  change (written (ev :: evs)) with (written ([ev] ++ evs)).
  rewrite written_app, IH. destruct ev; try discriminate; reflexivity.
Qed.

(** Visiting a candidate adds quiet events only, however the visit ends. *)
Lemma exhaustive_visit_quiet {P} (pv : provider P) (pid : string) (w : world P) :
  quietly_after (trace w) (final (Exhaustive.visit pv pid w)).
Proof.
  destruct (exhaustive_visit_effect pv pid w) as [[_ ->] | (_ & _ & mask & Htr)].
  - exists []. split; [symmetry; apply app_nil_r | constructor].
  - exists [EvDetails pid mask]. split; [exact Htr |]. repeat constructor.
Qed.

Lemma filtered_visit_quiet {P} (pv : provider P) (pid : string) (w : world P) :
  quietly_after (trace w) (final (Filtered.visit pv pid w)).
Proof.
  destruct (filtered_visit_effect pv pid w) as [[_ ->] | (_ & _ & mask & Htr)].
  - exists []. split; [symmetry; apply app_nil_r | constructor].
  - exists [EvDetails pid mask]. split; [exact Htr |]. repeat constructor.
Qed.

Lemma single_visit_quiet {P} (pv : provider P) (pid : string) (w : world P) :
  quietly_after (trace w) (final (SingleCircle.visit pv pid w)).
Proof.
  unfold SingleCircle.visit, SingleCircle.details, bind, get_details, print, emit.
  destruct (fetch pv (prov w) pid) as [p' [det |]]; simpl.
  - destruct (py_in "websiteUri" det); simpl;
      [eexists; split; [reflexivity | repeat constructor] |].
    destruct (SingleCircle.make_row det); simpl;
      (eexists; split; [reflexivity | repeat constructor]).
  - eexists. split; [rewrite <- app_assoc; reflexivity | repeat constructor].
Qed.

Lemma no_write_quiet {P A} (m : M P A) :
  (∀ w, quietly_after (trace w) (final (m w))) →
  triple no_write m (fun _ => no_write) no_write.
Proof.
  intros Hm w Hw. destruct (Hm w) as (evs & Htr & Hq).
  assert (Hf : no_write (final (m w))).
  { unfold no_write. rewrite Htr, written_app, (written_quiet evs Hq).
    rewrite app_nil_r. exact Hw. }
  destruct (m w); exact Hf.
Qed.

Lemma no_write_emit {P} (ev : event) :
  (∀ out f, ev ≠ EvWrite out f) →
  triple (@no_write P) (emit ev) (fun _ => no_write) no_write.
Proof.
  intros Hev w Hw. unfold emit, no_write. simpl. rewrite written_app.
  unfold no_write in Hw. rewrite Hw. destruct ev; try reflexivity.
  exfalso. eapply Hev. reflexivity.
Qed.

Lemma no_write_search {P} (pv : provider P) (b : body) (mask : string) :
  triple (@no_write P) (post_search pv b mask) (fun _ => no_write) no_write.
Proof.
  intros w Hw. unfold post_search, no_write.
  destruct (search pv (prov w) b) as [p' r]. simpl.
  rewrite written_app. unfold no_write in Hw. rewrite Hw. reflexivity.
Qed.

Lemma no_write_page_loop {P} (nearby : option string → M P SearchResponse)
  (visit : string → M P unit) (fuel : nat) (token : option string) (page : nat) :
  (∀ token, triple no_write (nearby token) (fun _ => no_write) no_write) →
  (∀ pid w, quietly_after (trace w) (final (visit pid w))) →
  triple no_write (page_loop nearby visit fuel token page) (fun _ => no_write) no_write.
Proof.
  intros Hnear Hvisit. apply triple_page_loop.
  - intros m. apply no_write_emit. discriminate.
  - apply no_write_emit. discriminate.
  - exact Hnear.
  - intros pid. apply no_write_quiet. apply Hvisit.
Qed.

Lemma no_write_exhaustive_crawl {P} (pv : provider P) (fuel : nat)
  (grid : list (float * float)) :
  triple no_write (Exhaustive.crawl pv fuel grid) (fun _ => no_write) no_write.
Proof.
  unfold Exhaustive.crawl. apply triple_for_enumerate. intros idx [lat lon].
  eapply triple_bind; [apply no_write_emit; discriminate |]. intros ?.
  intros w Hw. rewrite exhaustive_walk_loop. revert w Hw. apply no_write_page_loop.
  - intros tok. unfold Exhaustive.nearby.
    eapply triple_bind; [apply no_write_search | intros r; apply triple_json_or_raise].
  - apply exhaustive_visit_quiet.
Qed.

Lemma no_write_filtered_crawl {P} (pv : provider P) (fuel : nat)
  (grid : list (float * float)) :
  triple no_write (Filtered.crawl pv fuel grid) (fun _ => no_write) no_write.
Proof.
  unfold Filtered.crawl. apply triple_for_enumerate. intros idx [lat lon].
  eapply triple_bind; [apply no_write_emit; discriminate |]. intros ?.
  intros w Hw. rewrite filtered_walk_loop. revert w Hw. apply no_write_page_loop.
  - intros tok. unfold Filtered.nearby.
    eapply triple_bind; [apply no_write_search | intros r; apply triple_json_or_raise].
  - apply filtered_visit_quiet.
Qed.

Lemma no_write_single_crawl {P} (pv : provider P) (fuel : nat)
  (token : option string) (page : nat) :
  triple no_write (SingleCircle.crawl pv fuel token page) (fun _ => no_write) no_write.
Proof.
  intros w Hw. rewrite single_crawl_loop. revert w Hw. apply no_write_page_loop.
  - intros tok. unfold SingleCircle.nearby_page.
    eapply triple_bind; [apply no_write_search |]. intros [resp |].
    + intros w Hw. exact Hw.
    + eapply triple_bind; [apply no_write_emit; discriminate |]. intros ?.
      intros w Hw. exact Hw.
  - apply single_visit_quiet.
Qed.

(** The export turns a trace without a file into the outcome of the run. *)
Lemma printed_app (tr1 tr2 : list event) :
  printed (tr1 ++ tr2) = printed tr1 ++ printed tr2.
Proof. unfold printed. apply bind_app. Qed.

(** The export from a world that has written nothing. *)
Lemma export_run_outcome {P} (w1 : world P) :
  written (trace w1) = [] →
  run_outcome (Done tt w1) (Exhaustive.export w1).
Proof.
  intros Hnw. rewrite export_eq. eexists. split; [reflexivity |].
  cbn [rows trace]. split; [reflexivity |].
  destruct (rows w1) as [| r rs]; rewrite written_app, printed_app, Hnw; split; reflexivity.
Qed.

(** A crawl that never writes, followed by the export. *)
Lemma crawl_then_export {P} (crawl : M P unit) (w0 : world P) :
  triple no_write crawl (fun _ => no_write) no_write →
  written (trace w0) = [] →
  run_outcome (crawl w0) ((crawl ;; Exhaustive.export) w0).
Proof.
  intros Hcrawl Hw0. specialize (Hcrawl w0 Hw0). unfold bind.
  destruct (crawl w0) as [[] w1 | e w1 | w1].
  - apply export_run_outcome. exact Hcrawl.
  - split; [reflexivity | exact Hcrawl].
  - split; [reflexivity | exact Hcrawl].
Qed.

(** C8 (as amended): in each of the three crawlers, a run whose crawl ends
    normally reaches the export and ends normally: if no record was
    accepted it writes no file and the export prints nothing but the count
    line and the no-match line; if at least one record was accepted it
    writes the output file, once, with the header and a row per record.  A
    run whose crawl is stopped by an exception (or is still crawling when
    the fuel is spent) stops there and writes no file, whatever it had
    accepted. *)
Theorem export_only_with_records {P} (pv : provider P) (p0 : P) (grid_fuel fuel : nat)
  (g g' : list (float * float)) :
  Exhaustive.grid_points grid_fuel = Some g →
  Filtered.grid grid_fuel = Some g' →
  run_outcome (Exhaustive.crawl pv fuel g (World p0 ∅ [] [EvPrint (MsgGrid (length g))]))
    (Exhaustive.main pv grid_fuel fuel (init p0))
  ∧ run_outcome (Filtered.crawl pv fuel g' (World p0 ∅ [] [EvPrint (MsgGrid (length g'))]))
      (Filtered.main pv grid_fuel fuel (init p0))
  ∧ run_outcome (SingleCircle.crawl pv fuel None 0 (init p0))
      (SingleCircle.main pv fuel (init p0)).
Proof.
  intros Hg Hg'. split; [| split].
  - unfold Exhaustive.main. rewrite Hg. unfold bind at 1. unfold print at 1. unfold emit at 1.
    cbn [init prov seen rows trace app].
    apply (crawl_then_export (Exhaustive.crawl pv fuel g));
      [apply no_write_exhaustive_crawl | reflexivity].
  - unfold Filtered.main. rewrite Hg'. unfold bind at 1. unfold print at 1. unfold emit at 1.
    cbn [init prov seen rows trace app]. rewrite filtered_export_same.
    apply (crawl_then_export (Filtered.crawl pv fuel g'));
      [apply no_write_filtered_crawl | reflexivity].
  - unfold SingleCircle.main. rewrite single_export_same.
    apply (crawl_then_export (SingleCircle.crawl pv fuel None 0));
      [apply no_write_single_crawl | reflexivity].
Qed.

Lemma export_only_with_records_witness :
  let site := <["websiteUri" := JStr "http://x.com"]> bar_x in
  (∃ w', Exhaustive.main (stub bar_x) 14 1 (init tt) = Done tt w'
         ∧ length (rows w') = 1%nat
         ∧ written (trace w') = [("tijuana_no_website.csv", header :: (cells <$> rows w'))])
  ∧ (∃ w', Filtered.main (stub bar_x) 14 1 (init tt) = Done tt w'
           ∧ length (rows w') = 1%nat
           ∧ written (trace w') = [("tijuana_no_website.csv", header :: (cells <$> rows w'))])
  ∧ (∃ w', SingleCircle.main (stub bar_x) 1 (init tt) = Done tt w'
           ∧ length (rows w') = 1%nat
           ∧ written (trace w') = [("tijuana_no_website.csv", header :: (cells <$> rows w'))])
  ∧ (∃ w', Exhaustive.main (stub site) 14 1 (init tt) = Done tt w'
           ∧ rows w' = []
           ∧ written (trace w') = []
           ∧ last (printed (trace w')) = Some MsgNoMatches).
Proof.
  cbv zeta.
  destruct (Exhaustive.grid_points 14) as [g |] eqn:Hg; [| vm_compute in Hg; discriminate].
  destruct (Filtered.grid 14) as [g' |] eqn:Hg'; [| vm_compute in Hg'; discriminate].
  destruct (export_only_with_records (stub bar_x) tt 14 1 g g' Hg Hg') as (He & Hf & Hs).
  destruct (export_only_with_records
              (stub (<["websiteUri" := JStr "http://x.com"]> bar_x)) tt 14 1 g g' Hg Hg')
    as (He0 & _ & _).
  assert (Eg : g = default [] (Exhaustive.grid_points 14)) by (rewrite Hg; reflexivity).
  assert (Eg' : g' = default [] (Filtered.grid 14)) by (rewrite Hg'; reflexivity).
  split; [| split; [| split]].
  - set (r := Exhaustive.crawl (stub bar_x) 1 g _) in He.
    assert (E : ∃ w1, r = Done tt w1 ∧ length (rows w1) = 1%nat)
      by (unfold r; rewrite Eg; vm_compute; eexists; split; reflexivity).
    destruct E as (w1 & E & Hr). rewrite E in He. unfold run_outcome in He.
    destruct He as (w' & Ew & Hrows & Hout). exists w'. split; [exact Ew |].
    rewrite Hrows. split; [exact Hr |].
    destruct (rows w1); [discriminate | exact (proj1 Hout)].
  - set (r := Filtered.crawl (stub bar_x) 1 g' _) in Hf.
    assert (E : ∃ w1, r = Done tt w1 ∧ length (rows w1) = 1%nat)
      by (unfold r; rewrite Eg'; vm_compute; eexists; split; reflexivity).
    destruct E as (w1 & E & Hr). rewrite E in Hf. unfold run_outcome in Hf.
    destruct Hf as (w' & Ew & Hrows & Hout). exists w'. split; [exact Ew |].
    rewrite Hrows. split; [exact Hr |].
    destruct (rows w1); [discriminate | exact (proj1 Hout)].
  - set (r := SingleCircle.crawl (stub bar_x) 1 None 0 (init tt)) in Hs.
    assert (E : ∃ w1, r = Done tt w1 ∧ length (rows w1) = 1%nat)
      by (unfold r; vm_compute; eexists; split; reflexivity).
    destruct E as (w1 & E & Hr). rewrite E in Hs. unfold run_outcome in Hs.
    destruct Hs as (w' & Ew & Hrows & Hout). exists w'. split; [exact Ew |].
    rewrite Hrows. split; [exact Hr |].
    destruct (rows w1); [discriminate | exact (proj1 Hout)].
  - set (r := Exhaustive.crawl _ 1 g _) in He0.
    assert (E : ∃ w1, r = Done tt w1 ∧ rows w1 = [])
      by (unfold r; rewrite Eg; vm_compute; eexists; split; reflexivity).
    destruct E as (w1 & E & Hr). rewrite E in He0. unfold run_outcome in He0.
    destruct He0 as (w' & Ew & Hrows & Hout). exists w'. split; [exact Ew |].
    rewrite Hr in Hrows, Hout. destruct Hout as [Hw Hp]. split; [exact Hrows |].
    split; [exact Hw |]. rewrite Hp.
    change [MsgCount 0; MsgNoMatches] with ([MsgCount 0] ++ [MsgNoMatches]).
    rewrite app_assoc. apply last_snoc.
Defined.

(** C8, the claim as stated, fails for a run that is stopped after it has
    accepted a record: place A is accepted, the detail request of place B
    is answered with an error status, and the run ends with the HTTP error,
    one record held and no file written. *)
Lemma record_accepted_no_file :
  (∃ w', Exhaustive.main (scripted a_only) 14 1 (init [ab_page]) = Raised HTTPError w'
         ∧ length (rows w') = 1%nat
         ∧ written (trace w') = [])
  ∧ (∃ w', Filtered.main (scripted a_only) 14 1 (init [ab_page]) = Raised HTTPError w'
           ∧ length (rows w') = 1%nat
           ∧ written (trace w') = [])
  ∧ (∃ w', SingleCircle.main (scripted a_only) 1 (init [ab_page]) = Raised HTTPError w'
           ∧ length (rows w') = 1%nat
           ∧ written (trace w') = []).
Proof.
  split; [| split]; (eexists; split; [vm_compute; reflexivity |]);
    split; vm_compute; reflexivity.
Qed.

(** ** The page walk *)

Lemma requests_app (tr1 tr2 : list event) :
  requests (tr1 ++ tr2) = requests tr1 ++ requests tr2.
Proof. unfold requests. apply List.filter_app. Qed.

Lemma requests_quiet (evs : list event) :
  Forall (fun ev => is_quiet ev = true) evs → requests evs = [].
Proof.
  induction 1 as [| ev evs Hev _ IH]; [reflexivity |].
  unfold requests in *. simpl. rewrite IH. destruct ev; try discriminate; reflexivity.
Qed.

Lemma search_count_app (tr1 tr2 : list event) :
  search_count (tr1 ++ tr2) = (search_count tr1 + search_count tr2)%nat.
Proof. unfold search_count. rewrite List.filter_app, length_app. reflexivity. Qed.

Lemma search_count_quiet (evs : list event) :
  Forall (fun ev => is_quiet ev = true) evs → search_count evs = 0%nat.
Proof.
  induction 1 as [| ev evs Hev _ IH]; [reflexivity |].
  unfold search_count in *. simpl. destruct ev; try discriminate; exact IH.
Qed.

Lemma carries_token_truthy (r : SearchResponse) :
  carries_token r ↔ truthy_str (nextPageToken r) = true.
Proof.
  unfold carries_token, truthy_str. destruct (nextPageToken r) as [t |].
  - rewrite negb_true_iff, String.eqb_neq. split.
    + intros (t' & Ht & Hne). injection Ht as <-. exact Hne.
    + intros Hne. exists t. split; [reflexivity | exact Hne].
  - split; [intros (t & Ht & _); discriminate | discriminate].
Qed.

(** A loop of calm steps is calm: it ends normally, leaves the script as
    it was and adds quiet events only. *)
Lemma for_each_script {P S} (visit : string → M P unit) (script_of : world P → S)
  (pids : list string) (w : world P) :
  (∀ pid w, pid ∈ pids →
            ∃ w', visit pid w = Done tt w' ∧ script_of w' = script_of w
                  ∧ quietly_after (trace w) w') →
  ∃ w', for_each pids visit w = Done tt w' ∧ script_of w' = script_of w
        ∧ quietly_after (trace w) w'.
Proof.
  revert w. induction pids as [| pid pids IH]; intros w Hv.
  - exists w. split; [reflexivity | split; [reflexivity |]].
    exists []. split; [symmetry; apply app_nil_r | constructor].
  - destruct (Hv pid w ltac:(left)) as (w1 & E1 & Hp1 & evs1 & Ht1 & Hq1).
    destruct (IH w1 (fun q w Hq => Hv q w ltac:(right; exact Hq)))
      as (w2 & E2 & Hp2 & evs2 & Ht2 & Hq2).
    exists w2. simpl. unfold bind. rewrite E1. split; [exact E2 |].
    split; [congruence |]. exists (evs1 ++ evs2).
    split; [rewrite Ht2, Ht1, app_assoc; reflexivity | apply Forall_app; split; assumption].
Qed.

(** The walk over a script, for any request and per-candidate step that
    behave as those of the crawlers do against a scripted provider. *)
Lemma page_loop_script {P} (nearby : option string → M P SearchResponse)
  (visit : string → M P unit) (script_of : world P → list SearchResponse)
  (body_of : option string → body) (mask : string)
  (pages : list SearchResponse) (last : SearchResponse) (rest : list SearchResponse) :
  (∀ token w r s, script_of w = r :: s →
     ∃ w1, nearby token w = Done r w1 ∧ script_of w1 = s
           ∧ trace w1 = trace w ++ [EvSearch (body_of token) mask]) →
  (∀ ev w, script_of (final (emit ev w)) = script_of w) →
  (∀ pid w, pid ∈ page_ids (pages ++ [last]) →
     ∃ w', visit pid w = Done tt w' ∧ script_of w' = script_of w
           ∧ quietly_after (trace w) w') →
  (∀ t, t ≠ "" → body_of (Some t) = BodyToken t) →
  Forall carries_token pages →
  ¬ carries_token last →
  ∀ fuel token page w,
    script_of w = pages ++ last :: rest →
    (length pages < fuel)%nat →
    ∃ w', page_loop nearby visit fuel token page w = Done tt w'
          ∧ script_of w' = rest
          ∧ requests (trace w')
            = requests (trace w) ++ EvSearch (body_of token) mask :: follow_ups mask pages
          ∧ search_count (trace w') = (search_count (trace w) + S (length pages))%nat.
Proof.
  intros Hnear Hemit Hvisit Hbody Hpages Hlast.
  induction pages as [| r pages IH]; intros fuel token page w Hscript Hfuel.
  - destruct fuel as [| fuel]; [lia |]. simpl in Hscript.
    destruct (Hnear token w last rest Hscript) as (w1 & E1 & Hs1 & Ht1).
    simpl. unfold bind. rewrite E1.
    set (w2 := final (print (MsgPage (S page) (length (default [] (places last)))) w1)).
    change (print (MsgPage (S page) (length (default [] (places last)))) w1)
      with (Done tt w2).
    assert (Hs2 : script_of w2 = rest) by (unfold w2, print; rewrite Hemit; exact Hs1).
    destruct (for_each_script visit script_of (default [] (places last)) w2)
      as (w3 & E3 & Hs3 & evs & Ht3 & Hq).
    { intros pid w' Hin. apply Hvisit. unfold page_ids. simpl.
      rewrite app_nil_r. exact Hin. }
    rewrite E3.
    assert (Hno : truthy_str (nextPageToken last) = false).
    { destruct (truthy_str (nextPageToken last)) eqn:E; [| reflexivity].
      exfalso. apply Hlast, carries_token_truthy. exact E. }
    rewrite Hno. simpl. exists w3. split; [reflexivity |]. split; [congruence |].
    assert (Htr : trace w3
                  = trace w ++ [EvSearch (body_of token) mask]
                      ++ EvPrint (MsgPage (S page) (length (default [] (places last)))) :: evs).
    { rewrite Ht3. unfold w2, print, emit. simpl. rewrite Ht1, <- !app_assoc. reflexivity. }
    rewrite Htr. split.
    + rewrite !requests_app. f_equal. simpl.
      change (requests (EvPrint ?m :: evs)) with (requests evs).
      rewrite (requests_quiet evs Hq). reflexivity.
    + rewrite !search_count_app. f_equal.
      change (search_count (EvPrint ?m :: evs)) with (search_count evs).
      rewrite (search_count_quiet evs Hq). reflexivity.
  - destruct fuel as [| fuel]; [simpl in Hfuel; lia |]. simpl in Hscript.
    apply Forall_cons in Hpages as [Hr Hpages].
    destruct (Hnear token w r (pages ++ last :: rest) Hscript) as (w1 & E1 & Hs1 & Ht1).
    simpl. unfold bind. rewrite E1.
    set (w2 := final (print (MsgPage (S page) (length (default [] (places r)))) w1)).
    change (print (MsgPage (S page) (length (default [] (places r)))) w1)
      with (Done tt w2).
    assert (Hs2 : script_of w2 = pages ++ last :: rest)
      by (unfold w2, print; rewrite Hemit; exact Hs1).
    destruct (for_each_script visit script_of (default [] (places r)) w2)
      as (w3 & E3 & Hs3 & evs & Ht3 & Hq).
    { intros pid w' Hin. apply Hvisit. unfold page_ids. simpl.
      apply elem_of_app. left. exact Hin. }
    rewrite E3.
    pose proof (proj1 (carries_token_truthy r) Hr) as Hyes. rewrite Hyes. simpl.
    set (w4 := final (sleep 2 w3)).
    change (sleep 2 w3) with (Done tt w4).
    assert (Hs4 : script_of w4 = pages ++ last :: rest)
      by (unfold w4, sleep; rewrite Hemit; congruence).
    assert (Hvisit' : ∀ pid w', pid ∈ page_ids (pages ++ [last]) →
              ∃ w'', visit pid w' = Done tt w'' ∧ script_of w'' = script_of w'
                     ∧ quietly_after (trace w') w'').
    { intros pid w' Hin. apply Hvisit. unfold page_ids in *. simpl.
      apply elem_of_app. right. exact Hin. }
    assert (Hfuel' : (length pages < fuel)%nat) by (simpl in Hfuel; lia).
    destruct (IH Hvisit' Hpages fuel (nextPageToken r) (S page) w4 Hs4 Hfuel')
      as (w5 & E5 & Hs5 & Hreq & Hcount).
    exists w5. split; [exact E5 |]. split; [exact Hs5 |].
    assert (Htr : trace w4
                  = trace w ++ [EvSearch (body_of token) mask]
                      ++ (EvPrint (MsgPage (S page) (length (default [] (places r)))) :: evs)
                      ++ [EvSleep 2]).
    { unfold w4, sleep, emit. simpl. rewrite Ht3. unfold w2, print, emit. simpl.
      rewrite Ht1, <- !app_assoc. reflexivity. }
    destruct Hr as (t & Htok & Hne).
    split.
    + rewrite Hreq, Htr, !requests_app.
      change (requests (EvPrint ?m :: evs)) with (requests evs).
      rewrite (requests_quiet evs Hq). unfold follow_ups. simpl.
      rewrite Htok, (Hbody t Hne). simpl. rewrite <- !app_assoc. reflexivity.
    + rewrite Hcount, Htr, !search_count_app.
      change (search_count (EvPrint ?m :: evs)) with (search_count evs).
      rewrite (search_count_quiet evs Hq). simpl. unfold search_count. simpl. lia.
Qed.

(** A loop of steps that end, leave the script alone and add quiet events
    only does the same, also when a step raises. *)
Lemma for_each_script_any {P S} (visit : string → M P unit) (script_of : world P → S)
  (pids : list string) (w : world P) :
  (∀ pid w, ended (visit pid w)
            ∧ script_of (final (visit pid w)) = script_of w
            ∧ quietly_after (trace w) (final (visit pid w))) →
  ended (for_each pids visit w)
  ∧ script_of (final (for_each pids visit w)) = script_of w
  ∧ quietly_after (trace w) (final (for_each pids visit w)).
Proof.
  intros Hv. revert w. induction pids as [| pid pids IH]; intros w.
  - simpl. split; [exact I | split; [reflexivity |]].
    exists []. split; [symmetry; apply app_nil_r | constructor].
  - simpl. unfold bind. destruct (Hv pid w) as (He & Hs & evs1 & Ht1 & Hq1).
    destruct (visit pid w) as [[] w1 | e w1 | w1]; simpl in *.
    + destruct (IH w1) as (He2 & Hs2 & evs2 & Ht2 & Hq2).
      split; [exact He2 | split; [congruence |]]. exists (evs1 ++ evs2).
      split; [rewrite Ht2, Ht1, app_assoc; reflexivity | apply Forall_app; split; assumption].
    + split; [exact I | split; [exact Hs |]]. exists evs1. split; assumption.
    + contradiction.
Qed.

(** The walk over a script never runs out of fuel and never sends a request
    beyond those the script calls for, whatever the visits do. *)
Lemma page_loop_script_any {P} (nearby : option string → M P SearchResponse)
  (visit : string → M P unit) (script_of : world P → list SearchResponse)
  (body_of : option string → body) (mask : string)
  (pages : list SearchResponse) (last : SearchResponse) (rest : list SearchResponse) :
  (∀ token w r s, script_of w = r :: s →
     ∃ w1, nearby token w = Done r w1 ∧ script_of w1 = s
           ∧ trace w1 = trace w ++ [EvSearch (body_of token) mask]) →
  (∀ ev w, script_of (final (emit ev w)) = script_of w) →
  (∀ pid w, ended (visit pid w)
            ∧ script_of (final (visit pid w)) = script_of w
            ∧ quietly_after (trace w) (final (visit pid w))) →
  (∀ t, t ≠ "" → body_of (Some t) = BodyToken t) →
  Forall carries_token pages →
  ¬ carries_token last →
  ∀ fuel token page w,
    script_of w = pages ++ last :: rest →
    (length pages < fuel)%nat →
    ended (page_loop nearby visit fuel token page w)
    ∧ requests (trace (final (page_loop nearby visit fuel token page w)))
      `prefix_of` requests (trace w) ++ EvSearch (body_of token) mask :: follow_ups mask pages.
Proof.
  intros Hnear Hemit Hvisit Hbody Hpages Hlast.
  induction pages as [| r pages IH]; intros fuel token page w Hscript Hfuel.
  - destruct fuel as [| fuel]; [lia |]. simpl in Hscript.
    destruct (Hnear token w last rest Hscript) as (w1 & E1 & Hs1 & Ht1).
    simpl. unfold bind. rewrite E1.
    set (w2 := final (print (MsgPage (S page) (length (default [] (places last)))) w1)).
    change (print (MsgPage (S page) (length (default [] (places last)))) w1)
      with (Done tt w2).
    destruct (for_each_script_any visit script_of (default [] (places last)) w2 Hvisit)
      as (He & _ & evs & Ht3 & Hq).
    assert (Hreq : requests (trace (final (for_each (default [] (places last)) visit w2)))
                   = requests (trace w) ++ [EvSearch (body_of token) mask]).
    { rewrite Ht3. unfold w2, print, emit. simpl. rewrite Ht1, !requests_app.
      rewrite (requests_quiet evs Hq). simpl. rewrite !app_nil_r. reflexivity. }
    assert (Hno : truthy_str (nextPageToken last) = false).
    { destruct (truthy_str (nextPageToken last)) eqn:E; [| reflexivity].
      exfalso. apply Hlast, carries_token_truthy. exact E. }
    destruct (for_each (default [] (places last)) visit w2) as [[] w3 | e w3 | w3];
      cbn [final ended] in He, Hreq; [rewrite Hno; cbn [negb] | | contradiction];
      (split; [exact I | cbn [final ret]; rewrite Hreq; reflexivity]).
  - destruct fuel as [| fuel]; [simpl in Hfuel; lia |]. simpl in Hscript.
    apply Forall_cons in Hpages as [Hr Hpages].
    destruct (Hnear token w r (pages ++ last :: rest) Hscript) as (w1 & E1 & Hs1 & Ht1).
    simpl. unfold bind. rewrite E1.
    set (w2 := final (print (MsgPage (S page) (length (default [] (places r)))) w1)).
    change (print (MsgPage (S page) (length (default [] (places r)))) w1)
      with (Done tt w2).
    assert (Hs2 : script_of w2 = pages ++ last :: rest)
      by (unfold w2, print; rewrite Hemit; exact Hs1).
    destruct (for_each_script_any visit script_of (default [] (places r)) w2 Hvisit)
      as (He & Hs3 & evs & Ht3 & Hq).
    assert (Hreq : requests (trace (final (for_each (default [] (places r)) visit w2)))
                   = requests (trace w) ++ [EvSearch (body_of token) mask]).
    { rewrite Ht3. unfold w2, print, emit. simpl. rewrite Ht1, !requests_app.
      rewrite (requests_quiet evs Hq). simpl. rewrite !app_nil_r. reflexivity. }
    pose proof (proj1 (carries_token_truthy r) Hr) as Hyes.
    destruct Hr as (t & Htok & Hne).
    destruct (for_each (default [] (places r)) visit w2) as [[] w3 | e w3 | w3];
      cbn [final ended] in He, Hs3, Hreq; [| | contradiction].
    + rewrite Hyes. cbn [negb]. unfold bind.
      set (w4 := final (sleep 2 w3)).
      change (sleep 2 w3) with (Done tt w4).
      assert (Hs4 : script_of w4 = pages ++ last :: rest)
        by (unfold w4, sleep; rewrite Hemit; congruence).
      assert (Hfuel' : (length pages < fuel)%nat) by (simpl in Hfuel; lia).
      destruct (IH Hpages fuel (nextPageToken r) (S page) w4 Hs4 Hfuel') as [He5 Hpre].
      cbn iota. split; [exact He5 |].
      assert (Hr4 : requests (trace w4)
                    = requests (trace w) ++ [EvSearch (body_of token) mask; EvSleep 2]).
      { unfold w4, sleep, emit. simpl. rewrite requests_app, Hreq, <- app_assoc.
        reflexivity. }
      rewrite Hr4, Htok, (Hbody t Hne), <- app_assoc in Hpre.
      change (follow_ups mask (r :: pages))
        with ([EvSleep 2; EvSearch (BodyToken (default "" (nextPageToken r))) mask]
                ++ follow_ups mask pages).
      rewrite Htok. exact Hpre.
    + split; [exact I |]. cbn [final]. rewrite Hreq.
      apply prefix_app, prefix_cons, prefix_nil.
Qed.

Lemma exhaustive_nearby_script (dets : string → option (gmap string json))
  (lat lon : float) (token : option string) (w : world (list SearchResponse))
  (r : SearchResponse) (s : list SearchResponse) :
  prov w = r :: s →
  ∃ w1, Exhaustive.nearby (scripted dets) lat lon token w = Done r w1
        ∧ prov w1 = s
        ∧ trace w1 = trace w ++ [EvSearch (Exhaustive.nearby_body lat lon token) "places.id"].
Proof.
  intros Hs. unfold Exhaustive.nearby, bind, post_search. simpl. rewrite Hs. simpl.
  eexists. split; [reflexivity |]. split; reflexivity.
Qed.

Lemma exhaustive_visit_script (dets : string → option (gmap string json))
  (pid : string) (w : world (list SearchResponse)) (det : gmap string json) :
  dets pid = Some det →
  is_Some (det !! "websiteUri") ∨ (∃ r, Exhaustive.make_row det = inr r) →
  ∃ w', Exhaustive.visit (scripted dets) pid w = Done tt w'
        ∧ prov w' = prov w
        ∧ quietly_after (trace w) w'.
Proof.
  intros Hd Hok.
  pose proof (exhaustive_visit_quiet (scripted dets) pid w) as Hq.
  assert (Hrun : ∃ w', Exhaustive.visit (scripted dets) pid w = Done tt w' ∧ prov w' = prov w).
  { unfold Exhaustive.visit, Exhaustive.details, bind, admit_seen, get_details.
    destruct (admit_id pid (seen w)) as [[|] s']; simpl.
    - rewrite Hd. simpl. destruct (py_in "websiteUri" det) eqn:Hw; simpl.
      + eexists. split; reflexivity.
      + destruct Hok as [Hsite | [r Hr]].
        * apply py_in_true in Hsite. congruence.
        * rewrite Hr. simpl. eexists. split; reflexivity.
    - eexists. split; reflexivity. }
  destruct Hrun as (w' & E & Hp). exists w'. rewrite E in Hq. auto.
Qed.

Lemma exhaustive_body_token (lat lon : float) (t : string) :
  t ≠ "" → Exhaustive.nearby_body lat lon (Some t) = BodyToken t.
Proof.
  intros Hne. unfold Exhaustive.nearby_body, truthy_str.
  apply String.eqb_neq in Hne. rewrite Hne. reflexivity.
Qed.

Lemma exhaustive_visit_script_any (dets : string → option (gmap string json))
  (pid : string) (w : world (list SearchResponse)) :
  ended (Exhaustive.visit (scripted dets) pid w)
  ∧ prov (final (Exhaustive.visit (scripted dets) pid w)) = prov w
  ∧ quietly_after (trace w) (final (Exhaustive.visit (scripted dets) pid w)).
Proof.
  split; [| split; [| apply exhaustive_visit_quiet]];
    unfold Exhaustive.visit, Exhaustive.details, bind, admit_seen, get_details;
    destruct (admit_id pid (seen w)) as [[|] s']; simpl; try exact I; try reflexivity;
    destruct (dets pid) as [det |]; simpl; try exact I; try reflexivity;
    destruct (py_in "websiteUri" det); simpl; try exact I; try reflexivity;
    destruct (Exhaustive.make_row det); simpl; try exact I; reflexivity.
Qed.

(** C7: against a provider that answers the searches of one scan point with
    a script of pages, each carrying a continuation token (a non-empty
    ["nextPageToken"]), followed by a page that carries none, the walk of
    [exhaustive.py] ends within one round per page, normally or by the
    exception of a detail step, and never sends a request beyond these: a
    first request holding the circle (center, radius, maxResultCount 20) and
    no token, then for each page with a token a pause of 2 seconds and a
    request holding that token and nothing else.  When the details let every
    candidate be visited without an exception, it ends normally having sent
    exactly these requests: nothing follows the page without a token (the
    rest of the script is left unread), and there is one search request per
    page. *)
Theorem page_walk_follows_tokens (dets : string → option (gmap string json))
  (pages : list SearchResponse) (last : SearchResponse) (rest : list SearchResponse)
  (lat lon : float) (fuel : nat) (w : world (list SearchResponse)) :
  prov w = pages ++ last :: rest →
  Forall carries_token pages →
  ¬ carries_token last →
  (length pages < fuel)%nat →
  let run := Exhaustive.walk (scripted dets) fuel lat lon None 0 w in
  let expected :=
    EvSearch (BodyCircle 20 lat lon Exhaustive.RADIUS_M) "places.id"
      :: follow_ups "places.id" pages in
  ended run
  ∧ requests (trace (final run)) `prefix_of` requests (trace w) ++ expected
  ∧ ((∀ pid, pid ∈ page_ids (pages ++ [last]) →
        ∃ det, dets pid = Some det
               ∧ (is_Some (det !! "websiteUri") ∨ ∃ r, Exhaustive.make_row det = inr r)) →
     ∃ w', run = Done tt w'
           ∧ prov w' = rest
           ∧ requests (trace w') = requests (trace w) ++ expected
           ∧ search_count (trace w') = (search_count (trace w) + S (length pages))%nat).
Proof.
  intros Hscript Hpages Hlast Hfuel. cbv zeta.
  assert (Hnear : ∀ token (w0 : world (list SearchResponse)) r s,
            prov w0 = r :: s →
            ∃ w1, Exhaustive.nearby (scripted dets) lat lon token w0 = Done r w1
                  ∧ prov w1 = s
                  ∧ trace w1
                    = trace w0 ++ [EvSearch (Exhaustive.nearby_body lat lon token) "places.id"])
    by (intros; apply exhaustive_nearby_script; assumption).
  assert (Hemit : ∀ ev (w0 : world (list SearchResponse)),
            prov (final (emit ev w0)) = prov w0) by reflexivity.
  assert (Hbody : ∀ t, t ≠ "" → Exhaustive.nearby_body lat lon (Some t) = BodyToken t)
    by (intros; apply exhaustive_body_token; assumption).
  destruct (page_loop_script_any
              (Exhaustive.nearby (scripted dets) lat lon)
              (Exhaustive.visit (scripted dets)) prov
              (Exhaustive.nearby_body lat lon) "places.id" pages last rest
              Hnear Hemit (exhaustive_visit_script_any dets) Hbody Hpages Hlast
              fuel None 0%nat w Hscript Hfuel) as [Hend Hpre].
  rewrite exhaustive_walk_loop. split; [exact Hend |]. split; [exact Hpre |].
  intros Hdets.
  apply (page_loop_script
           (Exhaustive.nearby (scripted dets) lat lon)
           (Exhaustive.visit (scripted dets)) prov
           (Exhaustive.nearby_body lat lon) "places.id" pages last rest);
    try assumption.
  intros pid w0 Hin. destruct (Hdets pid Hin) as (det & Hd & Hok).
  eapply exhaustive_visit_script; eassumption.
Qed.

Lemma page_walk_follows_tokens_witness :
  let w := init [page_one; page_two] in
  let run := Exhaustive.walk (scripted (fun _ => Some cafe_x)) 2 32.42 (-117.13)%float
               None 0 w in
  let expected :=
    EvSearch (BodyCircle 20 32.42 (-117.13)%float Exhaustive.RADIUS_M) "places.id"
      :: follow_ups "places.id" [page_one] in
  ended run
  ∧ requests (trace (final run)) `prefix_of` requests (trace w) ++ expected
  ∧ ∃ w', run = Done tt w'
          ∧ prov w' = []
          ∧ requests (trace w') = requests (trace w) ++ expected
          ∧ search_count (trace w') = (search_count (trace w) + S (length [page_one]))%nat.
Proof.
  cbv zeta.
  destruct (page_walk_follows_tokens (fun _ => Some cafe_x) [page_one] page_two []
              32.42 (-117.13)%float 2 (init [page_one; page_two]))
    as (Hend & Hpre & Hdone).
  - reflexivity.
  - constructor; [| constructor]. exists "t1". split; [reflexivity | discriminate].
  - intros (t & Ht & _). discriminate.
  - simpl. lia.
  - split; [exact Hend |]. split; [exact Hpre |]. apply Hdone.
    intros pid _. exists cafe_x. split; [reflexivity |]. right.
    eexists. vm_compute. reflexivity.
Defined.

(** The filtered crawler walks the pages in the same way. *)
Lemma filtered_page_walk (dets : string → option (gmap string json))
  (pages : list SearchResponse) (last : SearchResponse) (rest : list SearchResponse)
  (lat lon : float) (fuel : nat) (w : world (list SearchResponse)) :
  prov w = pages ++ last :: rest →
  Forall carries_token pages →
  ¬ carries_token last →
  (∀ pid, pid ∈ page_ids (pages ++ [last]) →
     ∃ det v, dets pid = Some det ∧ Filtered.decide_place det = inr v) →
  (length pages < fuel)%nat →
  ∃ w', Filtered.walk (scripted dets) fuel lat lon None 0 w = Done tt w'
        ∧ prov w' = rest
        ∧ requests (trace w')
          = requests (trace w)
              ++ EvSearch (BodyCircle 20 lat lon Filtered.RADIUS_M) "places.id"
              :: follow_ups "places.id" pages
        ∧ search_count (trace w') = (search_count (trace w) + S (length pages))%nat.
Proof.
  intros Hscript Hpages Hlast Hdets Hfuel.
  destruct (page_loop_script
              (Filtered.nearby (scripted dets) lat lon)
              (Filtered.visit (scripted dets)) prov
              (Filtered.nearby_body lat lon) "places.id" pages last rest)
    with (fuel := fuel) (token := @None string) (page := 0%nat) (w := w)
    as (w' & E & Hrest & Hreq & Hcount); try assumption.
  - intros token w0 r s Hs. unfold Filtered.nearby, bind, post_search. simpl.
    rewrite Hs. simpl. eexists. split; [reflexivity |]. split; reflexivity.
  - intros ev w0. reflexivity.
  - intros pid w0 Hin. destruct (Hdets pid Hin) as (det & v & Hd & Hv).
    pose proof (filtered_visit_quiet (scripted dets) pid w0) as Hq.
    assert (Hrun : ∃ w1, Filtered.visit (scripted dets) pid w0 = Done tt w1
                         ∧ prov w1 = prov w0).
    { unfold Filtered.visit, Filtered.details, bind, admit_seen, get_details.
      destruct (admit_id pid (seen w0)) as [[|] s']; simpl.
      - rewrite Hd. simpl. rewrite Hv. simpl.
        destruct v; eexists; split; reflexivity.
      - eexists. split; reflexivity. }
    destruct Hrun as (w1 & E & Hp). exists w1. rewrite E in Hq. auto.
  - intros t Hne. unfold Filtered.nearby_body, truthy_str.
    apply String.eqb_neq in Hne. rewrite Hne. reflexivity.
  - exists w'. rewrite filtered_walk_loop. auto.
Qed.

(** The test is by truth value here too: a token that is the empty string
    counts as none, and the walk stops. *)
Lemma page_walk_empty_token :
  let last := {| places := Some ["A"]; nextPageToken := Some "" |} in
  ∃ w', Exhaustive.walk (scripted (fun _ => Some cafe_x)) 5 32.42 (-117.13)%float None 0
          (init [last; page_two]) = Done tt w'
        ∧ prov w' = [page_two]
        ∧ search_count (trace w') = 1%nat.
Proof. cbv zeta. eexists. split; [vm_compute; reflexivity |]. split; reflexivity. Qed.

(** ** The grid *)

Lemma Qltb_lt (a b : Q) : Qltb a b = true ↔ (a < b)%Q.
Proof.
  unfold Qltb. rewrite Qlt_alt. destruct (a ?= b)%Q; split; congruence.
Qed.

(** For an integer [k] and a positive step: [lo + k * step < hi] exactly
    when [k] is below ceil((hi - lo) / step). *)
Lemma below_ceiling (lo hi step : Q) (k : Z) :
  (0 < step)%Q →
  (lo + inject_Z k * step < hi)%Q ↔ (k < Qceiling ((hi - lo) / step))%Z.
Proof.
  intros Hstep.
  assert (E : ((hi - lo) / step * step == hi - lo)%Q) by (field; lra).
  assert (Hq : (inject_Z k < (hi - lo) / step)%Q ↔ (lo + inject_Z k * step < hi)%Q).
  { split.
    - intros H. apply (Qmult_lt_compat_r _ _ step) in H; [| exact Hstep].
      rewrite E in H. lra.
    - intros H. apply Qlt_shift_div_l; [exact Hstep | lra]. }
  clear E. set (q := ((hi - lo) / step)%Q) in *.
  rewrite <- Hq. split.
  - intros H. apply Z.lt_nge. intros Hle.
    pose proof (Qle_ceiling q) as Hc. 
    assert (Hk : (inject_Z (Qceiling q) <= inject_Z k)%Q) by (rewrite <- Zle_Qle; exact Hle).
    lra.
  - intros H. pose proof (Qceiling_lt q) as Hc.
    assert (Hk : (inject_Z k <= inject_Z (Qceiling q - 1))%Q) by (rewrite <- Zle_Qle; lia).
    lra.
Qed.

(** The loop yields the running values for as long as the test holds. *)
Lemma frange_run (hi step : float) (n : nat) (x : float) (fuel : nat) :
  (n < fuel)%nat →
  (∀ k, (k < n)%nat → PrimFloat.ltb (frange_nth x step k) hi = true) →
  PrimFloat.ltb (frange_nth x step n) hi = false →
  Exhaustive.frange fuel x hi step = Some (frange_nth x step <$> seq 0 n).
Proof.
  revert x fuel. induction n as [| n IH]; intros x fuel Hfuel Hlt Hge.
  - destruct fuel as [| fuel]; [lia |]. simpl in *. rewrite Hge. reflexivity.
  - destruct fuel as [| fuel]; [lia |]. simpl.
    pose proof (Hlt 0%nat ltac:(lia)) as H0. simpl in H0. rewrite H0.
    rewrite (IH (PrimFloat.add x step) fuel ltac:(lia)).
    + simpl. do 2 f_equal. rewrite <- fmap_S_seq, <- list_fmap_compose. reflexivity.
    + intros k Hk. apply (Hlt (S k)). lia.
    + exact Hge.
Qed.

Lemma axis_count_ceiling (lo hi step : float) :
  (float_val lo < float_val hi)%Q →
  (0 < float_val step)%Q →
  Z.of_nat (axis_count lo hi step)
  = Qceiling ((float_val hi - float_val lo) / float_val step)
  ∧ (0 < axis_count lo hi step)%nat.
Proof.
  intros Hlt Hstep. unfold axis_count.
  assert (H0 : 0 < Qceiling ((float_val hi - float_val lo) / float_val step)).
  { apply (below_ceiling (float_val lo) (float_val hi) (float_val step) 0 Hstep).
    change (inject_Z 0) with 0%Q. lra. }
  split; lia.
Qed.

(** What a finished range has yielded: the running values, each below the
    stop, the next one not. *)
Lemma frange_values (fuel : nat) (start stop step : float) (l : list float) :
  Exhaustive.frange fuel start stop step = Some l →
  l = frange_nth start step <$> seq 0 (length l)
  ∧ Forall (fun x => PrimFloat.ltb x stop = true) l
  ∧ PrimFloat.ltb (frange_nth start step (length l)) stop = false.
Proof.
  revert start l. induction fuel as [| fuel IH]; intros start l H; [discriminate |].
  simpl in H. destruct (PrimFloat.ltb start stop) eqn:E.
  - destruct (Exhaustive.frange fuel (PrimFloat.add start step) stop step) as [l' |] eqn:E';
      [| discriminate].
    injection H as <-. destruct (IH _ _ E') as (Hl & Hall & Hend).
    simpl. split; [| split; [constructor; assumption | exact Hend]].
    f_equal. rewrite <- fmap_S_seq, <- list_fmap_compose. exact Hl.
  - injection H as <-. simpl. split; [reflexivity | split; [constructor | exact E]].
Qed.

Lemma faithful_axis_test (lo hi step : float) (k : nat) :
  faithful_axis lo hi step = true →
  (k ≤ axis_count lo hi step)%nat →
  PrimFloat.ltb (frange_nth lo step k) hi = true
  ↔ (float_val lo + inject_Z (Z.of_nat k) * float_val step < float_val hi)%Q.
Proof.
  intros Hf Hk. unfold faithful_axis in Hf. rewrite forallb_forall in Hf.
  specialize (Hf k ltac:(apply in_seq; lia)). unfold faithful_test in Hf.
  apply Bool.eqb_prop in Hf. rewrite Hf, Qltb_lt. reflexivity.
Qed.

(** When the tests are faithful an axis has ceil((max - min) / step)
    points. *)
Lemma frange_faithful (lo hi step : float) (fuel : nat) :
  (float_val lo < float_val hi)%Q →
  (0 < float_val step)%Q →
  faithful_axis lo hi step = true →
  (axis_count lo hi step < fuel)%nat →
  Exhaustive.frange fuel lo hi step
  = Some (frange_nth lo step <$> seq 0 (axis_count lo hi step)).
Proof.
  intros Hlt Hstep Hf Hfuel.
  destruct (axis_count_ceiling lo hi step Hlt Hstep) as [Hn _].
  apply frange_run; [exact Hfuel | |].
  - intros k Hk. apply (faithful_axis_test lo hi step k Hf); [lia |].
    apply below_ceiling; [exact Hstep | lia].
  - destruct (PrimFloat.ltb (frange_nth lo step (axis_count lo hi step)) hi) eqn:E;
      [| reflexivity].
    exfalso. apply (faithful_axis_test lo hi step _ Hf) in E; [| lia].
    apply below_ceiling in E; [lia | exact Hstep].
Qed.

(** And only then: a range of ceil((max - min) / step) points has met no
    test that exact arithmetic would have answered otherwise. *)
Lemma frange_counted_faithful (lo hi step : float) (fuel : nat) (l : list float) :
  (float_val lo < float_val hi)%Q →
  (0 < float_val step)%Q →
  Exhaustive.frange fuel lo hi step = Some l →
  length l = axis_count lo hi step →
  faithful_axis lo hi step = true.
Proof.
  intros Hlt Hstep Hl Hlen.
  destruct (axis_count_ceiling lo hi step Hlt Hstep) as [Hn _].
  destruct (frange_values fuel lo hi step l Hl) as (Hvals & Hall & Hend).
  unfold faithful_axis. apply forallb_forall. intros k Hk. apply in_seq in Hk.
  unfold faithful_test. apply Bool.eqb_true_iff.
  destruct (decide (k < axis_count lo hi step)%nat) as [Hlow | Hhigh].
  - assert (Hq : (float_val lo + inject_Z (Z.of_nat k) * float_val step < float_val hi)%Q)
      by (apply below_ceiling; [exact Hstep | lia]).
    rewrite (proj2 (Qltb_lt _ _) Hq).
    rewrite Forall_forall in Hall. apply Hall.
    rewrite Hvals. apply list_elem_of_fmap. exists k. split; [reflexivity |].
    apply elem_of_seq. lia.
  - assert (Hk' : k = axis_count lo hi step) by lia. subst k.
    rewrite <- Hlen at 1. rewrite Hend. symmetry.
    destruct (Qltb _ _) eqn:E; [| reflexivity].
    apply Qltb_lt, below_ceiling in E; [lia | exact Hstep].
Qed.

(** A step that covers the whole range leaves one point. *)
Lemma axis_count_degenerate (lo hi step : float) :
  (float_val lo < float_val hi)%Q →
  (float_val hi - float_val lo <= float_val step)%Q →
  axis_count lo hi step = 1%nat.
Proof.
  intros Hlt Hbig. assert (Hstep : (0 < float_val step)%Q) by lra.
  destruct (axis_count_ceiling lo hi step Hlt Hstep) as [Hn Hpos].
  assert (H1 : ¬ (1 < Qceiling ((float_val hi - float_val lo) / float_val step))).
  { intros H. apply below_ceiling in H; [| exact Hstep].
    change (inject_Z 1) with 1%Q in H. lra. }
  lia.
Qed.

Lemma product_length {A B} (xs : list A) (ys : list B) :
  length (product xs ys) = (length xs * length ys)%nat.
Proof.
  unfold product. induction xs as [| x xs IH]; [reflexivity |].
  rewrite bind_cons, length_app, length_fmap, IH. reflexivity.
Qed.

(** The filtered crawler's range has the same points, rounded. *)
Lemma filtered_frange_rounds (fuel : nat) (start stop step : float) :
  Filtered.frange fuel start stop step
  = (fun l : list float => round6 <$> l) <$> Exhaustive.frange fuel start stop step.
Proof.
  revert start. induction fuel as [| fuel IH]; intros start; [reflexivity |].
  simpl. destruct (PrimFloat.ltb start stop); [| reflexivity].
  rewrite IH. destruct (Exhaustive.frange fuel (PrimFloat.add start step) stop step);
    reflexivity.
Qed.

(** C6 (as amended): the number of grid points is the product of the two
    per-axis counts, for every box and steps for which both ranges end.
    For an axis with min < max and a positive step, [frange] yields exactly
    ceil((max - min) / step) points (on the exact values of the three
    binary64 numbers) if and only if every test [x < max] of the loop up to
    that count gives the answer exact arithmetic gives, whatever rounding
    the additions commit.  An axis whose first addition already reaches the
    stop has exactly one point, for all floats; so has, when the tests are
    faithful, every axis whose step is at least its range. *)
Theorem grid_count_exact (lat_min lat_max lat_step lon_min lon_max lon_step : float)
  (fuel : nat) :
  (∀ lats lons,
     Exhaustive.frange fuel lat_min lat_max lat_step = Some lats →
     Exhaustive.frange fuel lon_min lon_max lon_step = Some lons →
     ∃ g, Exhaustive.grid fuel lat_min lat_max lat_step lon_min lon_max lon_step = Some g
          ∧ length g = (length lats * length lons)%nat)
  ∧ (∀ lo hi step,
       (float_val lo < float_val hi)%Q →
       (0 < float_val step)%Q →
       (axis_count lo hi step < fuel)%nat →
       (∃ l, Exhaustive.frange fuel lo hi step = Some l
             ∧ length l = axis_count lo hi step)
       ↔ faithful_axis lo hi step = true)
  ∧ (∀ lo hi step,
       PrimFloat.ltb lo hi = true →
       PrimFloat.ltb (PrimFloat.add lo step) hi = false →
       (2 ≤ fuel)%nat →
       Exhaustive.frange fuel lo hi step = Some [lo])
  ∧ (∀ lo hi step,
       (float_val lo < float_val hi)%Q →
       (float_val hi - float_val lo <= float_val step)%Q →
       faithful_axis lo hi step = true →
       (2 ≤ fuel)%nat →
       Exhaustive.frange fuel lo hi step = Some [lo]).
Proof.
  split; [| split; [| split]].
  - intros lats lons Elat Elon. exists (product lats lons).
    split; [unfold Exhaustive.grid; rewrite Elat, Elon; reflexivity | apply product_length].
  - intros lo hi step Hlt Hstep Hfuel. split.
    + intros (l & Hl & Hlen). exact (frange_counted_faithful lo hi step fuel l Hlt Hstep Hl Hlen).
    + intros Hf. eexists. split; [apply frange_faithful; assumption |].
      rewrite length_fmap, length_seq. reflexivity.
  - intros lo hi step H1 H2 Hfuel.
    destruct fuel as [| [| fuel]]; [lia | lia |]. simpl. rewrite H1, H2. reflexivity.
  - intros lo hi step Hlt Hbig Hf Hfuel.
    assert (Hstep : (0 < float_val step)%Q) by lra.
    pose proof (axis_count_degenerate lo hi step Hlt Hbig) as Hone.
    rewrite (frange_faithful lo hi step fuel Hlt Hstep Hf) by lia.
    rewrite Hone. reflexivity.
Qed.

Lemma grid_count_exact_witness :
  faithful_axis Exhaustive.LAT_MIN Exhaustive.LAT_MAX Exhaustive.LAT_STEP = true
  ∧ faithful_axis Exhaustive.LON_MIN Exhaustive.LON_MAX Exhaustive.LON_STEP = true
  ∧ (∃ lats lons g,
       Exhaustive.frange 14 Exhaustive.LAT_MIN Exhaustive.LAT_MAX Exhaustive.LAT_STEP
       = Some lats
       ∧ length lats = axis_count Exhaustive.LAT_MIN Exhaustive.LAT_MAX Exhaustive.LAT_STEP
       ∧ length lats = 9%nat
       ∧ Exhaustive.frange 14 Exhaustive.LON_MIN Exhaustive.LON_MAX Exhaustive.LON_STEP
         = Some lons
       ∧ length lons = axis_count Exhaustive.LON_MIN Exhaustive.LON_MAX Exhaustive.LON_STEP
       ∧ length lons = 13%nat
       ∧ Exhaustive.grid_points 14 = Some g
       ∧ length g = (length lats * length lons)%nat)
  ∧ Exhaustive.frange 14 0.1 0.25 0.2 = Some [0.1%float]
  ∧ Exhaustive.frange 14 0 0.25 0.5 = Some [0%float]
  ∧ faithful_axis 0 1 0.1 = false.
Proof.
  destruct (grid_count_exact Exhaustive.LAT_MIN Exhaustive.LAT_MAX Exhaustive.LAT_STEP
              Exhaustive.LON_MIN Exhaustive.LON_MAX Exhaustive.LON_STEP 14)
    as (Hprod & Hcount & Hfirst & Hbig).
  assert (Hlat : faithful_axis Exhaustive.LAT_MIN Exhaustive.LAT_MAX Exhaustive.LAT_STEP = true)
    by (vm_compute; reflexivity).
  assert (Hlon : faithful_axis Exhaustive.LON_MIN Exhaustive.LON_MAX Exhaustive.LON_STEP = true)
    by (vm_compute; reflexivity).
  split; [exact Hlat |]. split; [exact Hlon |]. split.
  - destruct (proj2 (Hcount Exhaustive.LAT_MIN Exhaustive.LAT_MAX Exhaustive.LAT_STEP
                       ltac:(vm_compute; reflexivity) ltac:(vm_compute; reflexivity)
                       ltac:(vm_compute; lia)) Hlat) as (lats & Elat & Hnlat).
    destruct (proj2 (Hcount Exhaustive.LON_MIN Exhaustive.LON_MAX Exhaustive.LON_STEP
                       ltac:(vm_compute; reflexivity) ltac:(vm_compute; reflexivity)
                       ltac:(vm_compute; lia)) Hlon) as (lons & Elon & Hnlon).
    destruct (Hprod lats lons Elat Elon) as (g & Eg & Hg).
    exists lats, lons, g. split; [exact Elat |]. split; [exact Hnlat |].
    split; [rewrite Hnlat; vm_compute; reflexivity |]. split; [exact Elon |].
    split; [exact Hnlon |]. split; [rewrite Hnlon; vm_compute; reflexivity |].
    split; [exact Eg | exact Hg].
  - split; [apply Hfirst; [vm_compute; reflexivity | vm_compute; reflexivity | lia] |].
    split; [| vm_compute; reflexivity].
    apply Hbig; [vm_compute; reflexivity | vm_compute; discriminate | vm_compute; reflexivity | lia].
Defined.

(** C6, the claim as stated, fails in floating point: from 0 to 1 by steps
    of 0.1 the range has 11 points (the running sum reaches
    0.99999999999999989 before it passes 1), where ceil((1 - 0) / 0.1)
    is 10. *)
Lemma frange_tenths_eleven_points :
  (float_val 0 < float_val 1)%Q
  ∧ (0 < float_val 0.1)%Q
  ∧ axis_count 0 1 0.1 = 10%nat
  ∧ ∃ l, Exhaustive.frange 20 0 1 0.1 = Some l ∧ length l = 11%nat.
Proof.
  split; [vm_compute; reflexivity |]. split; [vm_compute; reflexivity |].
  split; [vm_compute; reflexivity |]. eexists. split; [vm_compute; reflexivity | reflexivity].
Qed.

(** The configured box: 9 by 13 points, as many as the exact count. *)
Lemma grid_points_configured :
  axis_count Exhaustive.LAT_MIN Exhaustive.LAT_MAX Exhaustive.LAT_STEP = 9%nat
  ∧ axis_count Exhaustive.LON_MIN Exhaustive.LON_MAX Exhaustive.LON_STEP = 13%nat
  ∧ (length <$> Exhaustive.grid_points 14) = Some 117%nat
  ∧ (length <$> Filtered.grid 14) = Some 117%nat.
Proof. repeat split; vm_compute; reflexivity. Qed.

(** ** only_phone.py *)

Lemma py_dict_keeps {V} (ks : list string) (vs : list V) (d : gmap string V) (k : string) :
  k ∉ ks →
  foldl (fun d kv => <[kv.1 := kv.2]> d) d (zip ks vs) !! k = d !! k.
Proof.
  revert vs d. induction ks as [| k0 ks IH]; intros vs d Hk; [reflexivity |].
  apply not_elem_of_cons in Hk as [Hne Hk].
  destruct vs as [| v0 vs]; [reflexivity |]. simpl.
  rewrite IH by exact Hk. apply lookup_insert_ne. congruence.
Qed.

Lemma py_dict_lookup {V} (ks : list string) (vs : list V) (d : gmap string V)
  (i : nat) (k : string) (v : V) :
  NoDup ks →
  ks !! i = Some k →
  vs !! i = Some v →
  foldl (fun d kv => <[kv.1 := kv.2]> d) d (zip ks vs) !! k = Some v.
Proof.
  revert vs d i. induction ks as [| k0 ks IH]; intros vs d i Hnd Hk Hv; [destruct i; discriminate |].
  apply NoDup_cons in Hnd as [Hk0 Hnd].
  destruct vs as [| v0 vs]; [destruct i; discriminate |].
  destruct i as [| i]; simpl in *.
  - injection Hk as <-. injection Hv as <-.
    rewrite py_dict_keeps by exact Hk0. apply lookup_insert_eq.
  - eapply IH; eassumption.
Qed.

(** Reading a full record and writing it back gives the record. *)
Lemma write_read_row (fieldnames record : list string) :
  NoDup fieldnames →
  length record = length fieldnames →
  OnlyPhone.write_row fieldnames (OnlyPhone.read_row fieldnames record) = inr record.
Proof.
  intros Hnd Hlen. unfold OnlyPhone.read_row.
  rewrite (proj2 (Nat.ltb_ge _ _)) by lia.
  rewrite Hlen, drop_all. simpl. unfold OnlyPhone.write_row. simpl. f_equal.
  apply list_eq. intros i. rewrite list_lookup_fmap.
  destruct (fieldnames !! i) as [k |] eqn:Hk; simpl.
  - destruct (record !! i) as [v |] eqn:Hv.
    + unfold OnlyPhone.row_get, OnlyPhone.py_dict. simpl.
      rewrite (py_dict_lookup fieldnames (Some <$> record) ∅ i k (Some v) Hnd Hk);
        [reflexivity |].
      rewrite list_lookup_fmap, Hv. reflexivity.
    + apply lookup_lt_Some in Hk. apply lookup_ge_None in Hv. lia.
  - apply lookup_ge_None in Hk. symmetry. apply lookup_ge_None. lia.
Qed.

Lemma filter_rows_fits (fieldnames : list string) (records : list (list string))
  (out : list (list string)) :
  NoDup fieldnames →
  Forall (fun record => length record = length fieldnames) records →
  OnlyPhone.filter_rows fieldnames (OnlyPhone.read_row fieldnames <$> records) out
  = (out ++ filter (fun record => OnlyPhone.keeps (OnlyPhone.read_row fieldnames record) = true)
              records, None).
Proof.
  intros Hnd Hfit. revert out. induction Hfit as [| record records Hlen _ IH]; intros out.
  - simpl. rewrite app_nil_r. reflexivity.
  - rewrite fmap_cons. cbn [OnlyPhone.filter_rows]. rewrite filter_cons.
    destruct (OnlyPhone.keeps (OnlyPhone.read_row fieldnames record)) eqn:Hk.
    + rewrite write_read_row by assumption. rewrite IH.
      rewrite decide_True by reflexivity. rewrite <- app_assoc. reflexivity.
    + rewrite IH. rewrite decide_False by discriminate. reflexivity.
Qed.

(** The test of line 14 looks at the first non-empty value only. *)
Lemma keeps_first_nonempty (r : OnlyPhone.row) :
  OnlyPhone.keeps r = true
  ↔ ∃ v, first_nonempty (phone_values r) = Some v ∧ OnlyPhone.strip v ≠ "".
Proof.
  unfold OnlyPhone.keeps, OnlyPhone.phone_of, OnlyPhone.opt_or, phone_values.
  cbn [first_nonempty].
  assert (Hstrip : ∀ o : option string,
            truthy_str o = true →
            (truthy_str (OnlyPhone.strip <$> o) = true
             ↔ ∃ v, o = Some v ∧ OnlyPhone.strip v ≠ "")).
  { intros [v |] Ht; [| discriminate]. simpl.
    rewrite negb_true_iff, String.eqb_neq. split.
    - intros H. exists v. auto.
    - intros (v' & Hv & H). injection Hv as <-. exact H. }
  generalize (OnlyPhone.row_get r "phone") (OnlyPhone.row_get r "Phone")
    (OnlyPhone.row_get r "telefono") (OnlyPhone.row_get r "Telefono").
  intros a b c d.
  destruct (truthy_str a) eqn:E1; rewrite ?E1; simpl; [apply Hstrip; exact E1 |].
  destruct (truthy_str b) eqn:E2; rewrite ?E2; simpl; [apply Hstrip; exact E2 |].
  destruct (truthy_str c) eqn:E3; rewrite ?E3; simpl; [apply Hstrip; exact E3 |].
  destruct (truthy_str d) eqn:E4; rewrite ?E4; simpl; [apply Hstrip; exact E4 |].
  simpl. split; [discriminate | intros (v & Hv & _); discriminate].
Qed.

(** C10 (as amended): on an input that has a header record with distinct
    field names, and whose records are blank or have one cell per field
    name, the script ends normally and writes the header row followed by
    exactly the non-blank input records, in input order, whose first
    non-empty value among the keys phone, Phone, telefono, Telefono (in
    this order) is non-empty after stripping whitespace; when no record
    qualifies the output holds the header row alone. *)
Theorem only_phone_filters (fieldnames : list string) (records : list (list string)) :
  NoDup fieldnames →
  Forall (fits fieldnames) records →
  let qualifies record :=
    ∃ v, first_nonempty (phone_values (OnlyPhone.read_row fieldnames record)) = Some v
         ∧ OnlyPhone.strip v ≠ "" in
  ∃ kept,
    OnlyPhone.main (fieldnames :: records) = (fieldnames :: kept, None)
    ∧ kept = filter (fun record =>
                       OnlyPhone.keeps (OnlyPhone.read_row fieldnames record) = true)
               (filter (fun record => record ≠ []) records)
    ∧ (∀ record, record ∈ kept ↔ record ∈ records ∧ record ≠ [] ∧ qualifies record)
    ∧ ((∀ record, record ∈ records → ¬ qualifies record) → kept = []).
Proof.
  intros Hnd Hfit. cbv zeta.
  set (kept := filter (fun record =>
                         OnlyPhone.keeps (OnlyPhone.read_row fieldnames record) = true)
                 (filter (fun record => record ≠ []) records)).
  assert (Hkept : ∀ record,
            record ∈ kept
            ↔ record ∈ records ∧ record ≠ []
              ∧ ∃ v, first_nonempty (phone_values (OnlyPhone.read_row fieldnames record))
                     = Some v ∧ OnlyPhone.strip v ≠ "").
  { intros record. unfold kept. rewrite !list_elem_of_filter, keeps_first_nonempty. tauto. }
  exists kept. split; [| split; [reflexivity | split; [exact Hkept |]]].
  - unfold OnlyPhone.main, OnlyPhone.read_rows.
    rewrite filter_rows_fits; [reflexivity | exact Hnd |].
    apply Forall_forall. intros record Hin. apply list_elem_of_filter in Hin as [Hne Hin].
    rewrite Forall_forall in Hfit. destruct (Hfit record Hin) as [-> | Hlen];
      [contradiction | exact Hlen].
  - intros Hnone. destruct kept as [| record l]; [reflexivity |].
    exfalso. destruct (proj1 (Hkept record) ltac:(left)) as (Hin & _ & Hq).
    exact (Hnone record Hin Hq).
Qed.

Lemma only_phone_filters_witness :
  let fieldnames := ["name"; "address"; "phone"] in
  let records := [["Cafe X"; "123 St"; "555-1234"]; []; ["Bar Y"; "9 Av"; "  "];
                  ["Z"; "1 Rd"; ""]] in
  let qualifies record :=
    ∃ v, first_nonempty (phone_values (OnlyPhone.read_row fieldnames record)) = Some v
         ∧ OnlyPhone.strip v ≠ "" in
  ∃ kept,
    OnlyPhone.main (fieldnames :: records) = (fieldnames :: kept, None)
    ∧ kept = filter (fun record =>
                       OnlyPhone.keeps (OnlyPhone.read_row fieldnames record) = true)
               (filter (fun record => record ≠ []) records)
    ∧ (∀ record, record ∈ kept ↔ record ∈ records ∧ record ≠ [] ∧ qualifies record)
    ∧ ((∀ record, record ∈ records → ¬ qualifies record) → kept = []).
Proof.
  cbv zeta.
  apply (only_phone_filters ["name"; "address"; "phone"]
           [["Cafe X"; "123 St"; "555-1234"]; []; ["Bar Y"; "9 Av"; "  "]; ["Z"; "1 Rd"; ""]]).
  - apply (bool_decide_unpack _). vm_compute. exact I.
  - repeat constructor; (right; reflexivity) || (left; reflexivity).
Defined.

(** C10, the claim as stated, fails: a record whose "phone" cell is blank
    and whose "Phone" cell holds a number has a value that is non-empty
    after stripping under one of the keys, and is not written. *)
Lemma only_phone_blank_first_key :
  let fieldnames := ["name"; "phone"; "Phone"] in
  let record := ["Cafe X"; "  "; "555-1234"] in
  OnlyPhone.row_get (OnlyPhone.read_row fieldnames record) "Phone" = Some "555-1234"
  ∧ OnlyPhone.strip "555-1234" = "555-1234"
  ∧ OnlyPhone.main [fieldnames; record] = ([fieldnames], None).
Proof. cbv zeta. repeat split; vm_compute; reflexivity. Qed.

(** Two more inputs the claim does not cover: with no record at all there
    are no field names and [writeheader] fails, no header written; and a
    record longer than the header that passes the test stops the run, the
    records after it unwritten. *)
Lemma only_phone_empty_input : OnlyPhone.main [] = ([], Some TypeError).
Proof. reflexivity. Qed.

Lemma only_phone_long_record :
  OnlyPhone.main [["name"; "phone"]; ["a"; "1"; "extra"]; ["b"; "2"]]
  = ([["name"; "phone"]], Some ValueError).
Proof. vm_compute. reflexivity. Qed.

(** ** A whole run *)

(** The scenario of a 2 by 2 grid whose every point returns the candidate
    ["A"], a cafe with a national phone number and no website: four
    searches, one detail request, one record, and a file of the header and
    one row. *)
Lemma four_points_one_row :
  ∃ g w,
    Exhaustive.grid 3 0 0.04 0.02 0 0.04 0.02 = Some g
    ∧ length g = 4%nat
    ∧ (Exhaustive.crawl (stub cafe_x) 1 g ;; Exhaustive.export) (init tt) = Done tt w
    ∧ search_count (trace w) = 4%nat
    ∧ fetch_count "A" (trace w) = 1%nat
    ∧ written (trace w)
      = [("tijuana_no_website.csv",
          [[JStr "name"; JStr "address"; JStr "phone"];
           [JStr "Cafe X"; JStr "123 St"; JStr "555-1234"]])].
Proof.
  eexists. eexists. split; [vm_compute; reflexivity |].
  split; [reflexivity |]. split; [vm_compute; reflexivity |].
  repeat split; vm_compute; reflexivity.
Qed.

(** The whole program of [exhaustive.py] against a provider whose only place
    has a website: 117 scan points, no record, no file, and the closing
    message last. *)
Lemma all_with_website_no_file :
  ∃ w,
    Exhaustive.main (stub (<["websiteUri" := JStr "http://x.com"]> cafe_x)) 14 1 (init tt)
    = Done tt w
    ∧ rows w = []
    ∧ search_count (trace w) = 117%nat
    ∧ fetch_count "A" (trace w) = 1%nat
    ∧ written (trace w) = []
    ∧ last (trace w) = Some (EvPrint MsgNoMatches).
Proof.
  eexists. split; [vm_compute; reflexivity |].
  repeat split; vm_compute; reflexivity.
Qed.

(** * Further properties of the code *)

(** ** The ranges *)

(** X1: when [frange] of [exhaustive.py] ends, what it has yielded is the
    running values start, start + step, (start + step) + step, ... in
    order; every one of them is below [stop] (the stop is excluded), and the
    next running value is not: the start is the first point when it is
    below the stop, and a start that is not below the stop (or is NaN) gives
    no point at all. *)
Theorem frange_inclusive_exclusive (fuel : nat) (start stop step : float)
  (l : list float) :
  Exhaustive.frange fuel start stop step = Some l →
  (∀ k : nat, l !! k = if decide (k < length l)%nat
                       then Some (frange_nth start step k) else None)
  ∧ Forall (fun x => PrimFloat.ltb x stop = true) l
  ∧ PrimFloat.ltb (frange_nth start step (length l)) stop = false
  ∧ (PrimFloat.ltb start stop = true → head l = Some start)
  ∧ (PrimFloat.ltb start stop = false → l = []).
Proof.
  intros H. destruct (frange_values fuel start stop step l H) as (Hl & Hall & Hend).
  split; [| split; [exact Hall | split; [exact Hend | split]]].
  - intros k. case_decide as Hk.
    + rewrite Hl at 1. rewrite list_lookup_fmap, lookup_seq_lt by exact Hk. reflexivity.
    + apply lookup_ge_None. lia.
  - intros Hlt. destruct l as [| x l]; [simpl in Hend; congruence |].
    simpl. f_equal. injection Hl as Hx _. exact Hx.
  - intros Hge. destruct l as [| x l]; [reflexivity |]. exfalso.
    apply Forall_cons in Hall as [Hx _]. injection Hl as Hx' _.
    simpl in Hx'. subst x. congruence.
Qed.

Lemma frange_inclusive_exclusive_witness :
  ∃ l, Exhaustive.frange 3 0 0.04 0.02 = Some l
       ∧ (∀ k : nat, l !! k = if decide (k < length l)%nat
                            then Some (frange_nth 0 0.02 k) else None)
       ∧ Forall (fun x => PrimFloat.ltb x 0.04 = true) l
       ∧ PrimFloat.ltb (frange_nth 0 0.02 (length l)) 0.04 = false
       ∧ (PrimFloat.ltb 0 0.04 = true → head l = Some 0%float)
       ∧ (PrimFloat.ltb 0 0.04 = false → l = []).
Proof.
  exists [0%float; 0.02%float]. split; [vm_compute; reflexivity |].
  apply (frange_inclusive_exclusive 3 0 0.04 0.02). vm_compute. reflexivity.
Defined.

(** X2: a step that the running value absorbs (adding it gives the same
    float back: a zero step, or a step below half the spacing of the floats
    around the start) makes [frange] loop for ever in both grid crawlers:
    no amount of fuel lets it end. *)
Theorem frange_absorbed_step_hangs (fuel : nat) (x stop step : float) :
  PrimFloat.ltb x stop = true →
  PrimFloat.add x step = x →
  Exhaustive.frange fuel x stop step = None
  ∧ Filtered.frange fuel x stop step = None.
Proof.
  intros Hlt Habs.
  assert (H : Exhaustive.frange fuel x stop step = None).
  { induction fuel as [| fuel IH]; [reflexivity |].
    simpl. rewrite Hlt, Habs, IH. reflexivity. }
  split; [exact H |]. rewrite filtered_frange_rounds, H. reflexivity.
Qed.

Lemma frange_absorbed_step_hangs_witness :
  Exhaustive.frange 1000 10000000000000000 10000000000000004 0.5 = None
  ∧ Filtered.frange 1000 10000000000000000 10000000000000004 0.5 = None.
Proof.
  apply (frange_absorbed_step_hangs 1000 10000000000000000 10000000000000004 0.5).
  - vm_compute. reflexivity.
  - vm_compute. reflexivity.
Defined.

(** X3: the rounding of [frange] in [places.py] touches the yielded values
    only, not the running one: its range is the range of [exhaustive.py]
    with each point rounded to six places, so both have the same number of
    points and end (or fail to end) on the same fuel, and the two configured
    grids have the same size. *)
Theorem filtered_frange_same_points (fuel : nat) (start stop step : float) :
  Filtered.frange fuel start stop step
  = (fun l : list float => round6 <$> l) <$> Exhaustive.frange fuel start stop step
  ∧ (length <$> Filtered.frange fuel start stop step)
    = (length <$> Exhaustive.frange fuel start stop step)
  ∧ (length <$> Filtered.grid fuel) = (length <$> Exhaustive.grid_points fuel).
Proof.
  assert (Hlen : ∀ a b c,
            (length <$> Filtered.frange fuel a b c)
            = (length <$> Exhaustive.frange fuel a b c)).
  { intros a b c. rewrite filtered_frange_rounds.
    destruct (Exhaustive.frange fuel a b c) as [l |]; simpl; [| reflexivity].
    rewrite length_fmap. reflexivity. }
  split; [apply filtered_frange_rounds | split; [apply Hlen |]].
  unfold Filtered.grid, Exhaustive.grid_points, Exhaustive.grid.
  pose proof (Hlen Filtered.LAT_MIN Filtered.LAT_MAX Filtered.LAT_STEP) as H1.
  pose proof (Hlen Filtered.LON_MIN Filtered.LON_MAX Filtered.LON_STEP) as H2.
  change Exhaustive.LAT_MIN with Filtered.LAT_MIN.
  change Exhaustive.LAT_MAX with Filtered.LAT_MAX.
  change Exhaustive.LAT_STEP with Filtered.LAT_STEP.
  change Exhaustive.LON_MIN with Filtered.LON_MIN.
  change Exhaustive.LON_MAX with Filtered.LON_MAX.
  change Exhaustive.LON_STEP with Filtered.LON_STEP.
  destruct (Filtered.frange fuel Filtered.LAT_MIN Filtered.LAT_MAX Filtered.LAT_STEP) as [a |],
    (Exhaustive.frange fuel Filtered.LAT_MIN Filtered.LAT_MAX Filtered.LAT_STEP) as [a' |];
    try discriminate; try reflexivity;
    destruct (Filtered.frange fuel Filtered.LON_MIN Filtered.LON_MAX Filtered.LON_STEP) as [b |],
      (Exhaustive.frange fuel Filtered.LON_MIN Filtered.LON_MAX Filtered.LON_STEP) as [b' |];
    try discriminate; try reflexivity.
  simpl in *. rewrite !product_length. congruence.
Qed.

(** ** The grid *)

Lemma product_cons {A B} (x : A) (xs : list A) (ys : list B) :
  product (x :: xs) ys = ((fun y => (x, y)) <$> ys) ++ product xs ys.
Proof. reflexivity. Qed.

Lemma product_elem {A B} (xs : list A) (ys : list B) (x : A) (y : B) :
  (x, y) ∈ product xs ys ↔ x ∈ xs ∧ y ∈ ys.
Proof.
  induction xs as [| x0 xs IH].
  - split; [intros H; inversion H | intros [H _]; inversion H].
  - rewrite product_cons, elem_of_app, list_elem_of_fmap, IH, elem_of_cons. split.
    + intros [(y' & Heq & Hy) | [Hx Hy]].
      * injection Heq as -> ->. auto.
      * auto.
    + intros [[-> | Hx] Hy]; [left; exists y; auto | right; auto].
Qed.

Lemma product_lookup {A B} (xs : list A) (ys : list B) (i j : nat) :
  (j < length ys)%nat →
  product xs ys !! (i * length ys + j)%nat
  = match xs !! i, ys !! j with
    | Some x, Some y => Some (x, y)
    | _, _ => None
    end.
Proof.
  intros Hj. revert i. induction xs as [| x0 xs IH]; intros i.
  - destruct i; reflexivity.
  - rewrite product_cons. destruct i as [| i].
    + simpl. rewrite lookup_app_l by (rewrite length_fmap; exact Hj).
      rewrite list_lookup_fmap. destruct (ys !! j); reflexivity.
    + rewrite lookup_app_r by (rewrite length_fmap; simpl; lia).
      rewrite length_fmap.
      replace (S i * length ys + j - length ys)%nat with (i * length ys + j)%nat
        by (simpl; lia).
      rewrite IH. reflexivity.
Qed.

(** X4: when both ranges end, the grid of [exhaustive.py] holds exactly the
    pairs of a latitude of the first range and a longitude of the second,
    latitude-major: with [m] longitudes, the point at position [i * m + j]
    (for [j < m]) is the [i]-th latitude with the [j]-th longitude; and the
    grid is not built at all when either range does not end. *)
Theorem grid_latitude_major (fuel : nat)
  (lat_min lat_max lat_step lon_min lon_max lon_step : float) :
  match Exhaustive.frange fuel lat_min lat_max lat_step,
        Exhaustive.frange fuel lon_min lon_max lon_step with
  | Some lats, Some lons =>
      ∃ g, Exhaustive.grid fuel lat_min lat_max lat_step lon_min lon_max lon_step = Some g
           ∧ length g = (length lats * length lons)%nat
           ∧ (∀ lat lon, (lat, lon) ∈ g ↔ lat ∈ lats ∧ lon ∈ lons)
           ∧ (∀ i j : nat, (j < length lons)%nat →
                g !! (i * length lons + j)%nat
                = match lats !! i, lons !! j with
                  | Some lat, Some lon => Some (lat, lon)
                  | _, _ => None
                  end)
  | _, _ =>
      Exhaustive.grid fuel lat_min lat_max lat_step lon_min lon_max lon_step = None
  end.
Proof.
  unfold Exhaustive.grid.
  destruct (Exhaustive.frange fuel lat_min lat_max lat_step) as [lats |];
    [| reflexivity].
  destruct (Exhaustive.frange fuel lon_min lon_max lon_step) as [lons |];
    [| reflexivity].
  exists (product lats lons). split; [reflexivity |].
  split; [apply product_length |]. split.
  - intros lat lon. apply product_elem.
  - intros i j Hj. apply product_lookup. exact Hj.
Qed.

(** ** The seen set *)

Lemma admit_all_snd (ids : list string) (s : gset string) :
  (admit_all ids s).2 = s ∪ list_to_set ids.
Proof.
  revert s. induction ids as [| pid ids IH]; intros s.
  - simpl. set_solver.
  - rewrite admit_all_cons. cbn [snd]. rewrite IH, admit_snd. set_solver.
Qed.

(** X5: the seen set only grows, by exactly the ids presented: after any
    sequence of ids it is the initial set together with those ids; an id
    that was in the set beforehand is refused at every position; and
    presenting the same sequence a second time admits nothing. *)
Theorem seen_set_records_ids (ids : list string) (s : gset string) :
  (admit_all ids s).2 = s ∪ list_to_set ids
  ∧ (∀ (i : nat) (pid : string),
       ids !! i = Some pid → pid ∈ s → (admit_all ids s).1 !! i = Some false)
  ∧ (admit_all ids (admit_all ids s).2).1 = replicate (length ids) false.
Proof.
  split; [apply admit_all_snd | split].
  - intros i pid Hi Hs. rewrite admit_all_lookup, Hi. simpl. f_equal.
    apply bool_decide_eq_false. intros [Hn _]. exact (Hn Hs).
  - apply list_eq. intros i. rewrite admit_all_lookup.
    destruct (ids !! i) as [pid |] eqn:Hi; simpl.
    + rewrite lookup_replicate_2 by (apply lookup_lt_Some in Hi; exact Hi).
      f_equal. apply bool_decide_eq_false. intros [Hn _]. apply Hn.
      rewrite admit_all_snd. apply elem_of_union. right.
      apply elem_of_list_to_set. eapply list_elem_of_lookup_2. exact Hi.
    + symmetry. apply lookup_replicate_None. apply lookup_ge_None in Hi. lia.
Qed.

(** ** What a visit does, as one equation *)

Lemma exhaustive_visit_eq {P} (pv : provider P) (pid : string) (w : world P) :
  Exhaustive.visit pv pid w
  = if decide (pid ∈ seen w) then Done tt w
    else
      let w1 := World (fetch pv (prov w) pid).1 ({[pid]} ∪ seen w) (rows w)
                  (trace w ++ [EvDetails pid
                     "displayName,formattedAddress,internationalPhoneNumber,nationalPhoneNumber,websiteUri"]) in
      match (fetch pv (prov w) pid).2 with
      | None => Raised HTTPError w1
      | Some det =>
          if py_in "websiteUri" det then Done tt w1
          else match Exhaustive.make_row det with
               | inl e => Raised e w1
               | inr row => Done tt (World (prov w1) (seen w1) (rows w1 ++ [row]) (trace w1))
               end
      end.
Proof.
  destruct w as [p s rs tr].
  unfold Exhaustive.visit, Exhaustive.details, bind, admit_seen, admit_id, get_details.
  simpl. destruct (decide (pid ∈ s)); simpl; [reflexivity |].
  destruct (fetch pv p pid) as [p' [det |]]; simpl; [| reflexivity].
  destruct (py_in "websiteUri" det); simpl; [reflexivity |].
  destruct (Exhaustive.make_row det); reflexivity.
Qed.

Lemma filtered_visit_eq {P} (pv : provider P) (pid : string) (w : world P) :
  Filtered.visit pv pid w
  = if decide (pid ∈ seen w) then Done tt w
    else
      let w1 := World (fetch pv (prov w) pid).1 ({[pid]} ∪ seen w) (rows w)
                  (trace w ++ [EvDetails pid
                     "displayName,formattedAddress,internationalPhoneNumber,nationalPhoneNumber,websiteUri,types,primaryType"]) in
      match (fetch pv (prov w) pid).2 with
      | None => Raised HTTPError w1
      | Some det =>
          match Filtered.decide_place det with
          | inl e => Raised e w1
          | inr None => Done tt w1
          | inr (Some row) =>
              Done tt (World (prov w1) (seen w1) (rows w1 ++ [row]) (trace w1))
          end
      end.
Proof.
  destruct w as [p s rs tr].
  unfold Filtered.visit, Filtered.details, bind, admit_seen, admit_id, get_details.
  simpl. destruct (decide (pid ∈ s)); simpl; [reflexivity |].
  destruct (fetch pv p pid) as [p' [det |]]; simpl; [| reflexivity].
  destruct (Filtered.decide_place det) as [e | [row |]]; reflexivity.
Qed.

Lemma single_visit_eq {P} (pv : provider P) (pid : string) (w : world P) :
  SingleCircle.visit pv pid w
  = let w1 := World (fetch pv (prov w) pid).1 (seen w) (rows w)
                (trace w ++ [EvDetails pid
                   "displayName,formattedAddress,internationalPhoneNumber,nationalPhoneNumber,websiteUri"]) in
    match (fetch pv (prov w) pid).2 with
    | None =>
        Raised HTTPError
          (World (prov w1) (seen w1) (rows w1) (trace w1 ++ [EvPrint (MsgDetailsError pid)]))
    | Some det =>
        if py_in "websiteUri" det then Done tt w1
        else match SingleCircle.make_row det with
             | inl e => Raised e w1
             | inr row => Done tt (World (prov w1) (seen w1) (rows w1 ++ [row]) (trace w1))
             end
    end.
Proof.
  destruct w as [p s rs tr].
  unfold SingleCircle.visit, SingleCircle.details, bind, get_details, print, emit.
  simpl. destruct (fetch pv p pid) as [p' [det |]]; simpl; [| reflexivity].
  destruct (py_in "websiteUri" det); simpl; [reflexivity |].
  destruct (SingleCircle.make_row det); reflexivity.
Qed.

(** ** Invariants of whole runs *)

Lemma stable_emit {P} (Inv : world P → Prop) (ev : event) :
  stable Inv →
  (∀ pid mask, ev ≠ EvDetails pid mask) →
  triple Inv (emit ev) (fun _ => Inv) Inv.
Proof. intros Hst Hev w Hw. apply (Hst w (prov w) ev Hev Hw). Qed.

Lemma stable_search {P} (Inv : world P → Prop) (pv : provider P) (b : body) (mask : string) :
  stable Inv →
  triple Inv (post_search pv b mask) (fun _ => Inv) Inv.
Proof.
  intros Hst w Hw. unfold post_search. destruct (search pv (prov w) b) as [p' r].
  apply (Hst w p' (EvSearch b mask)); [discriminate | exact Hw].
Qed.

Lemma stable_export {P} (Inv : world P → Prop) :
  stable Inv → triple Inv (@Exhaustive.export P) (fun _ => Inv) Inv.
Proof.
  intros Hst w Hw. rewrite export_eq. destruct (rows w) as [| r rs] eqn:Hr.
  - pose proof (Hst w (prov w) (EvPrint (MsgCount 0)) ltac:(discriminate) Hw) as H1.
    pose proof (Hst _ (prov w) (EvPrint MsgNoMatches) ltac:(discriminate) H1) as H2.
    simpl in H2. rewrite <- app_assoc in H2. simpl in H2. rewrite Hr in H2. exact H2.
  - pose proof (Hst w (prov w) (EvPrint (MsgCount (length (r :: rs))))
                  ltac:(discriminate) Hw) as H1.
    pose proof (Hst _ (prov w)
                  (EvWrite "tijuana_no_website.csv" (header :: (cells <$> r :: rs)))
                  ltac:(discriminate) H1) as H2.
    pose proof (Hst _ (prov w) (EvPrint (MsgSaved "tijuana_no_website.csv"))
                  ltac:(discriminate) H2) as H3.
    simpl in H3. rewrite <- !app_assoc in H3. simpl in H3. rewrite Hr in H3. exact H3.
Qed.

Lemma stable_exhaustive_crawl {P} (Inv : world P → Prop) (pv : provider P) (fuel : nat)
  (grid : list (float * float)) :
  stable Inv →
  (∀ pid, triple Inv (Exhaustive.visit pv pid) (fun _ => Inv) Inv) →
  triple Inv (Exhaustive.crawl pv fuel grid) (fun _ => Inv) Inv.
Proof.
  intros Hst Hv. unfold Exhaustive.crawl. apply triple_for_enumerate. intros idx [lat lon].
  eapply triple_bind; [apply stable_emit; [exact Hst | discriminate] |]. intros ?.
  intros w Hw. rewrite exhaustive_walk_loop. revert w Hw. apply triple_page_loop.
  - intros m. apply stable_emit; [exact Hst | discriminate].
  - apply stable_emit; [exact Hst | discriminate].
  - intros tok. unfold Exhaustive.nearby.
    eapply triple_bind; [apply stable_search; exact Hst | intros r; apply triple_json_or_raise].
  - exact Hv.
Qed.

Lemma stable_exhaustive_main {P} (Inv : world P → Prop) (pv : provider P)
  (grid_fuel fuel : nat) :
  stable Inv →
  (∀ pid, triple Inv (Exhaustive.visit pv pid) (fun _ => Inv) Inv) →
  triple Inv (Exhaustive.main pv grid_fuel fuel) (fun _ => Inv) Inv.
Proof.
  intros Hst Hv. unfold Exhaustive.main.
  destruct (Exhaustive.grid_points grid_fuel) as [g |]; [| intros w Hw; exact Hw].
  eapply triple_bind; [apply stable_emit; [exact Hst | discriminate] |]. intros ?.
  eapply triple_bind; [apply stable_exhaustive_crawl; assumption |]. intros ?.
  apply stable_export. exact Hst.
Qed.

Lemma stable_filtered_crawl {P} (Inv : world P → Prop) (pv : provider P) (fuel : nat)
  (grid : list (float * float)) :
  stable Inv →
  (∀ pid, triple Inv (Filtered.visit pv pid) (fun _ => Inv) Inv) →
  triple Inv (Filtered.crawl pv fuel grid) (fun _ => Inv) Inv.
Proof.
  intros Hst Hv. unfold Filtered.crawl. apply triple_for_enumerate. intros idx [lat lon].
  eapply triple_bind; [apply stable_emit; [exact Hst | discriminate] |]. intros ?.
  intros w Hw. rewrite filtered_walk_loop. revert w Hw. apply triple_page_loop.
  - intros m. apply stable_emit; [exact Hst | discriminate].
  - apply stable_emit; [exact Hst | discriminate].
  - intros tok. unfold Filtered.nearby.
    eapply triple_bind; [apply stable_search; exact Hst | intros r; apply triple_json_or_raise].
  - exact Hv.
Qed.

Lemma stable_filtered_main {P} (Inv : world P → Prop) (pv : provider P)
  (grid_fuel fuel : nat) :
  stable Inv →
  (∀ pid, triple Inv (Filtered.visit pv pid) (fun _ => Inv) Inv) →
  triple Inv (Filtered.main pv grid_fuel fuel) (fun _ => Inv) Inv.
Proof.
  intros Hst Hv. unfold Filtered.main.
  destruct (Filtered.grid grid_fuel) as [g |]; [| intros w Hw; exact Hw].
  eapply triple_bind; [apply stable_emit; [exact Hst | discriminate] |]. intros ?.
  eapply triple_bind; [apply stable_filtered_crawl; assumption |]. intros ?.
  rewrite filtered_export_same. apply stable_export. exact Hst.
Qed.

Lemma stable_single_main {P} (Inv : world P → Prop) (pv : provider P) (fuel : nat) :
  stable Inv →
  (∀ pid, triple Inv (SingleCircle.visit pv pid) (fun _ => Inv) Inv) →
  triple Inv (SingleCircle.main pv fuel) (fun _ => Inv) Inv.
Proof.
  intros Hst Hv. unfold SingleCircle.main.
  eapply triple_bind; [| intros ?; rewrite single_export_same; apply stable_export; exact Hst].
  intros w Hw. rewrite single_crawl_loop. revert w Hw. apply triple_page_loop.
  - intros m. apply stable_emit; [exact Hst | discriminate].
  - apply stable_emit; [exact Hst | discriminate].
  - intros tok. unfold SingleCircle.nearby_page.
    eapply triple_bind; [apply stable_search; exact Hst |]. intros [resp |].
    + intros w Hw. exact Hw.
    + eapply triple_bind; [apply stable_emit; [exact Hst | discriminate] |].
      intros ? w Hw. exact Hw.
  - exact Hv.
Qed.

Lemma seen_is_fetched_stable {P} :
  stable (fun w : world P => seen w = list_to_set (fetched (trace w))).
Proof.
  intros w p' ev Hev Hw. simpl. rewrite fetched_snoc_other by exact Hev. exact Hw.
Qed.

Lemma seen_is_fetched_visit {P} (m : M P unit) (pid : string) :
  (∀ w, (pid ∈ seen w ∧ m w = Done tt w)
        ∨ (pid ∉ seen w
           ∧ seen (final (m w)) = {[pid]} ∪ seen w
           ∧ ∃ mask, trace (final (m w)) = trace w ++ [EvDetails pid mask])) →
  triple (fun w => seen w = list_to_set (fetched (trace w))) m
    (fun _ w => seen w = list_to_set (fetched (trace w)))
    (fun w => seen w = list_to_set (fetched (trace w))).
Proof.
  intros Hm w Hw. destruct (Hm w) as [[_ ->] | (Hs & Hseen & mask & Htr)]; [exact Hw |].
  assert (Hf : seen (final (m w)) = list_to_set (fetched (trace (final (m w))))).
  { rewrite Hseen, Htr, fetched_snoc_details, list_to_set_app_L, Hw. simpl. set_solver. }
  destruct (m w); exact Hf.
Qed.

(** X6: at every point of a run of the two grid crawlers, over any
    provider, the seen set is exactly the set of the ids whose details have
    been requested: an id enters the set when, and only when, its details
    are about to be fetched.  The single-circle crawler never records an
    id. *)
Theorem seen_set_is_fetched_ids {P} (pv : provider P) (p0 : P)
  (grid : list (float * float)) (grid_fuel fuel : nat) :
  (let w := final (Exhaustive.crawl pv fuel grid (init p0)) in
   seen w = list_to_set (fetched (trace w)))
  ∧ (let w := final (Exhaustive.main pv grid_fuel fuel (init p0)) in
     seen w = list_to_set (fetched (trace w)))
  ∧ (let w := final (Filtered.crawl pv fuel grid (init p0)) in
     seen w = list_to_set (fetched (trace w)))
  ∧ (let w := final (Filtered.main pv grid_fuel fuel (init p0)) in
     seen w = list_to_set (fetched (trace w)))
  ∧ seen (final (SingleCircle.main pv fuel (init p0))) = ∅.
Proof.
  cbv zeta.
  assert (H0 : seen (init p0) = list_to_set (fetched (trace (init p0)))) by reflexivity.
  repeat split.
  - apply (triple_final _ _ _ (init p0)
             (stable_exhaustive_crawl _ pv fuel grid seen_is_fetched_stable
                (fun pid => seen_is_fetched_visit _ pid (exhaustive_visit_effect pv pid))) H0).
  - apply (triple_final _ _ _ (init p0)
             (stable_exhaustive_main _ pv grid_fuel fuel seen_is_fetched_stable
                (fun pid => seen_is_fetched_visit _ pid (exhaustive_visit_effect pv pid))) H0).
  - apply (triple_final _ _ _ (init p0)
             (stable_filtered_crawl _ pv fuel grid seen_is_fetched_stable
                (fun pid => seen_is_fetched_visit _ pid (filtered_visit_effect pv pid))) H0).
  - apply (triple_final _ _ _ (init p0)
             (stable_filtered_main _ pv grid_fuel fuel seen_is_fetched_stable
                (fun pid => seen_is_fetched_visit _ pid (filtered_visit_effect pv pid))) H0).
  - apply (triple_final (fun w => seen w = ∅) _ (fun w => seen w = ∅) (init p0)).
    + apply stable_single_main.
      * intros w p' ev _ Hw. exact Hw.
      * intros pid w Hw. rewrite single_visit_eq. cbv zeta.
        destruct ((fetch pv (prov w) pid).2) as [det |]; simpl; [| exact Hw].
        destruct (py_in "websiteUri" det); simpl; [exact Hw |].
        destruct (SingleCircle.make_row det); exact Hw.
    + reflexivity.
Qed.

Lemma rows_bound_stable {P} :
  stable (fun w : world P => (length (rows w) ≤ length (fetched (trace w)))%nat).
Proof.
  intros w p' ev Hev Hw. simpl. rewrite fetched_snoc_other by exact Hev. exact Hw.
Qed.

Lemma rows_bound_exhaustive_visit {P} (pv : provider P) (pid : string) :
  triple (fun w => (length (rows w) ≤ length (fetched (trace w)))%nat)
    (Exhaustive.visit pv pid)
    (fun _ w => (length (rows w) ≤ length (fetched (trace w)))%nat)
    (fun w => (length (rows w) ≤ length (fetched (trace w)))%nat).
Proof.
  intros w Hw. rewrite exhaustive_visit_eq. cbv zeta.
  destruct (decide (pid ∈ seen w)); [exact Hw |].
  destruct ((fetch pv (prov w) pid).2) as [det |]; simpl;
    [| rewrite fetched_snoc_details, length_app; simpl; lia].
  destruct (py_in "websiteUri" det); simpl;
    [rewrite fetched_snoc_details, length_app; simpl; lia |].
  destruct (Exhaustive.make_row det); simpl;
    rewrite fetched_snoc_details, ?length_app; simpl; lia.
Qed.

Lemma rows_bound_filtered_visit {P} (pv : provider P) (pid : string) :
  triple (fun w => (length (rows w) ≤ length (fetched (trace w)))%nat)
    (Filtered.visit pv pid)
    (fun _ w => (length (rows w) ≤ length (fetched (trace w)))%nat)
    (fun w => (length (rows w) ≤ length (fetched (trace w)))%nat).
Proof.
  intros w Hw. rewrite filtered_visit_eq. cbv zeta.
  destruct (decide (pid ∈ seen w)); [exact Hw |].
  destruct ((fetch pv (prov w) pid).2) as [det |]; simpl;
    [| rewrite fetched_snoc_details, length_app; simpl; lia].
  destruct (Filtered.decide_place det) as [e | [row |]]; simpl;
    rewrite fetched_snoc_details, ?length_app; simpl; lia.
Qed.

Lemma rows_bound_single_visit {P} (pv : provider P) (pid : string) :
  triple (fun w => (length (rows w) ≤ length (fetched (trace w)))%nat)
    (SingleCircle.visit pv pid)
    (fun _ w => (length (rows w) ≤ length (fetched (trace w)))%nat)
    (fun w => (length (rows w) ≤ length (fetched (trace w)))%nat).
Proof.
  intros w Hw. rewrite single_visit_eq. cbv zeta.
  destruct ((fetch pv (prov w) pid).2) as [det |]; simpl.
  - destruct (py_in "websiteUri" det); simpl;
      [rewrite fetched_snoc_details, length_app; simpl; lia |].
    destruct (SingleCircle.make_row det); simpl;
      rewrite fetched_snoc_details, ?length_app; simpl; lia.
  - rewrite fetched_snoc_other by discriminate.
    rewrite fetched_snoc_details, length_app. simpl. lia.
Qed.

(** X7: in every run of the three crawlers, over any provider and however
    the run ends, there are never more accumulated records than detail
    requests made; in the two grid crawlers, where no id is fetched twice,
    there are never more records than distinct ids seen. *)
Theorem rows_bounded_by_fetches {P} (pv : provider P) (p0 : P) (grid_fuel fuel : nat) :
  (let w := final (Exhaustive.main pv grid_fuel fuel (init p0)) in
   (length (rows w) ≤ length (fetched (trace w)))%nat
   ∧ (length (rows w) ≤ size (seen w))%nat)
  ∧ (let w := final (Filtered.main pv grid_fuel fuel (init p0)) in
     (length (rows w) ≤ length (fetched (trace w)))%nat
     ∧ (length (rows w) ≤ size (seen w))%nat)
  ∧ (let w := final (SingleCircle.main pv fuel (init p0)) in
     (length (rows w) ≤ length (fetched (trace w)))%nat).
Proof.
  cbv zeta.
  assert (H0 : (length (rows (init p0)) ≤ length (fetched (trace (init p0))))%nat)
    by (simpl; lia).
  assert (Hsize : ∀ w : world P,
            fetched_once w → seen w = list_to_set (fetched (trace w)) →
            size (seen w) = length (fetched (trace w))).
  { intros w [Hnd _] ->. apply size_list_to_set. exact Hnd. }
  split; [| split].
  - pose proof (triple_final _ _ _ (init p0)
                  (stable_exhaustive_main _ pv grid_fuel fuel rows_bound_stable
                     (rows_bound_exhaustive_visit pv)) H0) as Hb.
    split; [exact Hb |]. rewrite Hsize; [exact Hb | |].
    + apply (triple_final _ _ _ (init p0)
               (fetched_once_exhaustive_main pv grid_fuel fuel) (fetched_once_init p0)).
    + apply (triple_final _ _ _ (init p0)
               (stable_exhaustive_main _ pv grid_fuel fuel seen_is_fetched_stable
                  (fun pid => seen_is_fetched_visit _ pid (exhaustive_visit_effect pv pid)))
               eq_refl).
  - pose proof (triple_final _ _ _ (init p0)
                  (stable_filtered_main _ pv grid_fuel fuel rows_bound_stable
                     (rows_bound_filtered_visit pv)) H0) as Hb.
    split; [exact Hb |]. rewrite Hsize; [exact Hb | |].
    + apply (triple_final _ _ _ (init p0)
               (fetched_once_filtered_main pv grid_fuel fuel) (fetched_once_init p0)).
    + apply (triple_final _ _ _ (init p0)
               (stable_filtered_main _ pv grid_fuel fuel seen_is_fetched_stable
                  (fun pid => seen_is_fetched_visit _ pid (filtered_visit_effect pv pid)))
               eq_refl).
  - apply (triple_final _ _ _ (init p0)
             (stable_single_main _ pv fuel rows_bound_stable (rows_bound_single_visit pv)) H0).
Qed.

(** ** Requests of a walk, over any provider *)

Lemma for_each_quiet {P} (visit : string → M P unit) (pids : list string) (w : world P) :
  (∀ pid w, quietly_after (trace w) (final (visit pid w))) →
  quietly_after (trace w) (final (for_each pids visit w)).
Proof.
  intros Hv. revert w. induction pids as [| pid pids IH]; intros w.
  - exists []. split; [symmetry; apply app_nil_r | constructor].
  - simpl. unfold bind. destruct (Hv pid w) as (evs1 & Ht1 & Hq1).
    destruct (visit pid w) as [[] w1 | e w1 | w1]; simpl in *.
    + destruct (IH w1) as (evs2 & Ht2 & Hq2). exists (evs1 ++ evs2).
      split; [rewrite Ht2, Ht1, app_assoc; reflexivity | apply Forall_app; split; assumption].
    + exists evs1. split; assumption.
    + exists evs1. split; assumption.
Qed.

(** The trace after one round of the loop, up to the test of the token:
    the search, then quiet events. *)
Lemma page_round_trace {P} (nearby : option string → M P SearchResponse)
  (visit : string → M P unit) (body_of : option string → body) (mask : string)
  (token : option string) (page : nat) (w : world P) :
  (∀ token w, ∃ evs, trace (final (nearby token w))
                     = trace w ++ EvSearch (body_of token) mask :: evs
                     ∧ Forall (fun ev => is_quiet ev = true) evs) →
  (∀ pid w, quietly_after (trace w) (final (visit pid w))) →
  ∃ evs,
    trace (final ((resp <- nearby token ;;
                   print (MsgPage (S page) (length (default [] (places resp)))) ;;
                   for_each (default [] (places resp)) visit ;;
                   ret resp) w))
    = trace w ++ EvSearch (body_of token) mask :: evs
    ∧ Forall (fun ev => is_quiet ev = true) evs.
Proof.
  intros Hnear Hvisit. unfold bind. destruct (Hnear token w) as (evs1 & Ht1 & Hq1).
  destruct (nearby token w) as [resp w1 | e w1 | w1]; simpl in Ht1;
    [| exists evs1; split; assumption | exists evs1; split; assumption].
  simpl.
  destruct (for_each_quiet visit (default [] (places resp))
              (World (prov w1) (seen w1) (rows w1)
                 (trace w1 ++ [EvPrint (MsgPage (S page) (length (default [] (places resp))))]))
              Hvisit) as (evs2 & Ht2 & Hq2).
  simpl in Ht2.
  exists (evs1 ++ EvPrint (MsgPage (S page) (length (default [] (places resp)))) :: evs2).
  split.
  - destruct (for_each _ visit _) as [[] w3 | e w3 | w3]; simpl in *;
      rewrite Ht2, Ht1, <- !app_assoc; reflexivity.
  - apply Forall_app. split; [exact Hq1 |]. constructor; [reflexivity | exact Hq2].
Qed.

Lemma page_loop_round {P} (nearby : option string → M P SearchResponse)
  (visit : string → M P unit) (fuel : nat) (token : option string) (page : nat)
  (w : world P) :
  page_loop nearby visit (S fuel) token page w
  = match (resp <- nearby token ;;
           print (MsgPage (S page) (length (default [] (places resp)))) ;;
           for_each (default [] (places resp)) visit ;;
           ret resp) w with
    | Done resp w3 =>
        if truthy_str (nextPageToken resp)
        then page_loop nearby visit fuel (nextPageToken resp) (S page)
               (World (prov w3) (seen w3) (rows w3) (trace w3 ++ [EvSleep 2]))
        else Done tt w3
    | Raised e w' => Raised e w'
    | OutOfFuel w' => OutOfFuel w'
    end.
Proof.
  simpl. unfold bind. destruct (nearby token w) as [resp w1 | e w1 | w1]; try reflexivity.
  destruct (print _ w1) as [u w2 | e w2 | w2]; try reflexivity.
  destruct (for_each _ visit w2) as [u' w3 | e w3 | w3]; try reflexivity.
  simpl. destruct (truthy_str (nextPageToken resp)); reflexivity.
Qed.

Lemma requests_round (tr : list event) (b : body) (mask : string) (evs : list event) :
  Forall (fun ev => is_quiet ev = true) evs →
  requests (tr ++ EvSearch b mask :: evs) = requests tr ++ [EvSearch b mask].
Proof.
  intros Hq. rewrite requests_app.
  change (requests (EvSearch b mask :: evs)) with (EvSearch b mask :: requests evs).
  rewrite (requests_quiet evs Hq). reflexivity.
Qed.

(** The requests of the loop, whatever the provider answers. *)
Lemma page_loop_paced {P} (nearby : option string → M P SearchResponse)
  (visit : string → M P unit) (body_of : option string → body) (mask : string) :
  (∀ token w, ∃ evs, trace (final (nearby token w))
                     = trace w ++ EvSearch (body_of token) mask :: evs
                     ∧ Forall (fun ev => is_quiet ev = true) evs) →
  (∀ pid w, quietly_after (trace w) (final (visit pid w))) →
  (∀ t, t ≠ "" → body_of (Some t) = BodyToken t) →
  ∀ fuel token page w,
    ∃ evs,
      requests (trace (final (page_loop nearby visit fuel token page w)))
      = requests (trace w) ++ evs
      ∧ paced evs
      ∧ match fuel with
        | O => evs = []
        | S _ => head evs = Some (EvSearch (body_of token) mask)
        end.
Proof.
  intros Hnear Hvisit Hbody fuel.
  induction fuel as [| fuel IH]; intros token page w.
  - exists []. simpl. rewrite app_nil_r. split; [reflexivity | split; [constructor | reflexivity]].
  - rewrite page_loop_round.
    destruct (page_round_trace nearby visit body_of mask token page w Hnear Hvisit)
      as (evs1 & Ht1 & Hq1).
    destruct ((resp <- nearby token ;;
               print (MsgPage (S page) (length (default [] (places resp)))) ;;
               for_each (default [] (places resp)) visit ;;
               ret resp) w) as [resp w3 | e w3 | w3]; simpl in Ht1.
    + destruct (truthy_str (nextPageToken resp)) eqn:Htok.
      * destruct (IH (nextPageToken resp) (S page)
                    (World (prov w3) (seen w3) (rows w3) (trace w3 ++ [EvSleep 2])))
          as (evs2 & Hr2 & Hp2 & Hh2).
        exists (EvSearch (body_of token) mask :: EvSleep 2 :: evs2).
        split; [| split; [| reflexivity]].
        -- rewrite Hr2. simpl. rewrite requests_app, Ht1, (requests_round _ _ _ _ Hq1).
           simpl. rewrite <- !app_assoc. reflexivity.
        -- destruct fuel as [| fuel].
           ++ subst evs2. constructor.
           ++ apply carries_token_truthy in Htok as (t & Ht & Hne).
              rewrite Ht, (Hbody t Hne) in Hh2.
              destruct evs2 as [| ev evs2]; [discriminate |].
              injection Hh2 as ->. apply paced_next; assumption.
      * exists [EvSearch (body_of token) mask]. simpl.
        rewrite Ht1, (requests_round _ _ _ _ Hq1).
        split; [reflexivity | split; [constructor | reflexivity]].
    + exists [EvSearch (body_of token) mask]. simpl.
      rewrite Ht1, (requests_round _ _ _ _ Hq1).
      split; [reflexivity | split; [constructor | reflexivity]].
    + exists [EvSearch (body_of token) mask]. simpl.
      rewrite Ht1, (requests_round _ _ _ _ Hq1).
      split; [reflexivity | split; [constructor | reflexivity]].
Qed.

Lemma exhaustive_nearby_trace {P} (pv : provider P) (lat lon : float)
  (token : option string) (w : world P) :
  ∃ evs, trace (final (Exhaustive.nearby pv lat lon token w))
         = trace w ++ EvSearch (Exhaustive.nearby_body lat lon token) "places.id" :: evs
         ∧ Forall (fun ev => is_quiet ev = true) evs.
Proof.
  exists []. split; [| constructor].
  unfold Exhaustive.nearby, bind, post_search.
  destruct (search pv (prov w) _) as [p' [r |]]; reflexivity.
Qed.

Lemma filtered_nearby_trace {P} (pv : provider P) (lat lon : float)
  (token : option string) (w : world P) :
  ∃ evs, trace (final (Filtered.nearby pv lat lon token w))
         = trace w ++ EvSearch (Filtered.nearby_body lat lon token) "places.id" :: evs
         ∧ Forall (fun ev => is_quiet ev = true) evs.
Proof.
  exists []. split; [| constructor].
  unfold Filtered.nearby, bind, post_search.
  destruct (search pv (prov w) _) as [p' [r |]]; reflexivity.
Qed.

Lemma single_nearby_trace {P} (pv : provider P) (token : option string) (w : world P) :
  ∃ evs, trace (final (SingleCircle.nearby_page pv token w))
         = trace w ++ EvSearch (SingleCircle.nearby_body token)
                        "places.id,places.displayName,places.formattedAddress" :: evs
         ∧ Forall (fun ev => is_quiet ev = true) evs.
Proof.
  unfold SingleCircle.nearby_page, bind, post_search, print, emit, raise.
  destruct (search pv (prov w) _) as [p' [r |]]; simpl.
  - exists []. split; [reflexivity | constructor].
  - exists [EvPrint MsgSearchError]. split; [rewrite <- app_assoc; reflexivity | repeat constructor].
Qed.

Lemma nearby_body_token (t : string) (lat lon : float) :
  t ≠ "" →
  Exhaustive.nearby_body lat lon (Some t) = BodyToken t
  ∧ Filtered.nearby_body lat lon (Some t) = BodyToken t
  ∧ SingleCircle.nearby_body (Some t) = BodyToken t.
Proof.
  intros Hne. unfold Exhaustive.nearby_body, Filtered.nearby_body, SingleCircle.nearby_body.
  assert (Ht : truthy_str (Some t) = true).
  { apply (carries_token_truthy {| places := None; nextPageToken := Some t |}).
    exists t. split; [reflexivity | exact Hne]. }
  rewrite Ht. repeat split.
Qed.

(** X8: whatever the provider answers, and however the walk ends (normally,
    by an exception of a request or of a record, or cut short), the
    searches and pauses of a page walk follow one pattern: the first search
    carries the circle of the scan point, a pause of two seconds stands
    between two searches and nowhere else but possibly at the very end of a
    cut walk, and every later search carries a non-empty token and nothing
    else.  This holds for the walk of the two grid crawlers and for the
    loop of the single-circle crawler. *)
Theorem walk_requests_paced {P} (pv : provider P) (fuel : nat) (lat lon : float)
  (w : world P) :
  (∃ evs,
     requests (trace (final (Exhaustive.walk pv fuel lat lon None 0 w)))
     = requests (trace w) ++ evs
     ∧ paced evs
     ∧ (fuel ≠ 0%nat →
        head evs = Some (EvSearch (BodyCircle 20 lat lon Exhaustive.RADIUS_M) "places.id")))
  ∧ (∃ evs,
       requests (trace (final (Filtered.walk pv fuel lat lon None 0 w)))
       = requests (trace w) ++ evs
       ∧ paced evs
       ∧ (fuel ≠ 0%nat →
          head evs = Some (EvSearch (BodyCircle 20 lat lon Filtered.RADIUS_M) "places.id")))
  ∧ (∃ evs,
       requests (trace (final (SingleCircle.crawl pv fuel None 0 w)))
       = requests (trace w) ++ evs
       ∧ paced evs
       ∧ (fuel ≠ 0%nat →
          head evs = Some (EvSearch (BodyCircle 20 32.529014 (-117.033050)%float 20000)
                             "places.id,places.displayName,places.formattedAddress"))).
Proof.
  split; [| split].
  - rewrite exhaustive_walk_loop.
    destruct (page_loop_paced (Exhaustive.nearby pv lat lon) (Exhaustive.visit pv)
                (Exhaustive.nearby_body lat lon) "places.id"
                (exhaustive_nearby_trace pv lat lon) (exhaustive_visit_quiet pv)
                (fun t Hne => proj1 (nearby_body_token t lat lon Hne)) fuel None 0%nat w)
      as (evs & Hr & Hp & Hh).
    exists evs. split; [exact Hr | split; [exact Hp |]].
    intros Hf. destruct fuel; [contradiction | exact Hh].
  - rewrite filtered_walk_loop.
    destruct (page_loop_paced (Filtered.nearby pv lat lon) (Filtered.visit pv)
                (Filtered.nearby_body lat lon) "places.id"
                (filtered_nearby_trace pv lat lon) (filtered_visit_quiet pv)
                (fun t Hne => proj1 (proj2 (nearby_body_token t lat lon Hne))) fuel None 0%nat w)
      as (evs & Hr & Hp & Hh).
    exists evs. split; [exact Hr | split; [exact Hp |]].
    intros Hf. destruct fuel; [contradiction | exact Hh].
  - rewrite single_crawl_loop.
    destruct (page_loop_paced (SingleCircle.nearby_page pv) (SingleCircle.visit pv)
                SingleCircle.nearby_body "places.id,places.displayName,places.formattedAddress"
                (single_nearby_trace pv) (single_visit_quiet pv)
                (fun t Hne => proj2 (proj2 (nearby_body_token t lat lon Hne))) fuel None 0%nat w)
      as (evs & Hr & Hp & Hh).
    exists evs. split; [exact Hr | split; [exact Hp |]].
    intros Hf. destruct fuel; [contradiction | exact Hh].
Qed.

(** ** The circles searched by a scan *)

Lemma scanned_app (tr1 tr2 : list event) :
  scanned (tr1 ++ tr2) = scanned tr1 ++ scanned tr2.
Proof. unfold scanned. apply bind_app. Qed.

Lemma scanned_requests (tr : list event) : scanned (requests tr) = scanned tr.
Proof.
  induction tr as [| ev tr IH]; [reflexivity |].
  change (ev :: tr) with ([ev] ++ tr).
  rewrite requests_app, !scanned_app, IH. f_equal. destruct ev; reflexivity.
Qed.

Lemma paced_scanned (evs : list event) :
  paced evs →
  scanned evs = match evs with
                | EvSearch b _ :: _ => center_of b
                | _ => []
                end.
Proof.
  induction 1 as [| b mask | b mask | b mask t mask' evs Hne Hp IH].
  - reflexivity.
  - destruct b; reflexivity.
  - destruct b; reflexivity.
  - change (EvSearch b mask :: EvSleep 2 :: EvSearch (BodyToken t) mask' :: evs)
      with ([EvSearch b mask; EvSleep 2] ++ EvSearch (BodyToken t) mask' :: evs).
    rewrite scanned_app, IH. destruct b; reflexivity.
Qed.

Lemma page_loop_scanned {P} (nearby : option string → M P SearchResponse)
  (visit : string → M P unit) (body_of : option string → body) (mask : string) :
  (∀ token w, ∃ evs, trace (final (nearby token w))
                     = trace w ++ EvSearch (body_of token) mask :: evs
                     ∧ Forall (fun ev => is_quiet ev = true) evs) →
  (∀ pid w, quietly_after (trace w) (final (visit pid w))) →
  (∀ t, t ≠ "" → body_of (Some t) = BodyToken t) →
  ∀ fuel token page w,
    scanned (trace (final (page_loop nearby visit fuel token page w)))
    = scanned (trace w) ++ match fuel with
                           | O => []
                           | S _ => center_of (body_of token)
                           end.
Proof.
  intros Hnear Hvisit Hbody fuel token page w.
  destruct (page_loop_paced nearby visit body_of mask Hnear Hvisit Hbody fuel token page w)
    as (evs & Hr & Hp & Hh).
  rewrite <- scanned_requests, Hr, scanned_app, scanned_requests, (paced_scanned evs Hp).
  f_equal. destruct fuel as [| fuel].
  - subst evs. reflexivity.
  - destruct evs as [| ev evs]; [discriminate |]. injection Hh as ->. reflexivity.
Qed.

(** A scan whose step searches the circle of its point once. *)
Lemma for_enumerate_scan {P} (f : nat → float * float → M P unit) :
  (∀ idx pt w, scanned (trace (final (f idx pt w))) = scanned (trace w) ++ [pt]) →
  ∀ pts i0 w, scan_outcome pts (trace w) (for_enumerate i0 pts f w).
Proof.
  intros Hf pts. induction pts as [| pt pts IH]; intros i0 w.
  - simpl. symmetry. apply app_nil_r.
  - simpl. unfold bind. specialize (Hf i0 pt w).
    destruct (f i0 pt w) as [[] w1 | e w1 | w1]; simpl in Hf.
    + specialize (IH (S i0) w1).
      destruct (for_enumerate (S i0) pts f w1) as [[] w2 | e w2 | w2]; simpl in IH |- *.
      * rewrite IH, Hf, <- app_assoc. reflexivity.
      * destruct IH as (k & Hk & IH). exists (S k). split; [simpl; lia |].
        rewrite IH, Hf, <- app_assoc. reflexivity.
      * destruct IH as (k & Hk & IH). exists (S k). split; [simpl; lia |].
        rewrite IH, Hf, <- app_assoc. reflexivity.
    + exists 0%nat. split; [simpl; lia |]. rewrite Hf. reflexivity.
    + exists 0%nat. split; [simpl; lia |]. rewrite Hf. reflexivity.
Qed.

Lemma exhaustive_point_scanned {P} (pv : provider P) (fuel idx n : nat) (lat lon : float)
  (w : world P) :
  scanned (trace (final ((print (MsgPoint idx n lat lon) ;;
                          Exhaustive.walk pv (S fuel) lat lon None 0) w)))
  = scanned (trace w) ++ [(lat, lon)].
Proof.
  unfold bind, print, emit. rewrite exhaustive_walk_loop.
  rewrite (page_loop_scanned (Exhaustive.nearby pv lat lon) (Exhaustive.visit pv)
             (Exhaustive.nearby_body lat lon) "places.id"
             (exhaustive_nearby_trace pv lat lon) (exhaustive_visit_quiet pv)
             (fun t Hne => proj1 (nearby_body_token t lat lon Hne))).
  simpl. rewrite scanned_app. simpl. rewrite app_nil_r. reflexivity.
Qed.

Lemma filtered_point_scanned {P} (pv : provider P) (fuel idx n : nat) (lat lon : float)
  (w : world P) :
  scanned (trace (final ((print (MsgPoint idx n lat lon) ;;
                          Filtered.walk pv (S fuel) lat lon None 0) w)))
  = scanned (trace w) ++ [(lat, lon)].
Proof.
  unfold bind, print, emit. rewrite filtered_walk_loop.
  rewrite (page_loop_scanned (Filtered.nearby pv lat lon) (Filtered.visit pv)
             (Filtered.nearby_body lat lon) "places.id"
             (filtered_nearby_trace pv lat lon) (filtered_visit_quiet pv)
             (fun t Hne => proj1 (proj2 (nearby_body_token t lat lon Hne)))).
  simpl. rewrite scanned_app. simpl. rewrite app_nil_r. reflexivity.
Qed.

(** X9: with any provider, a grid crawl searches the circle of each scan
    point exactly once and in the order of the list: when the crawl ends,
    the circles searched are the points given; when an exception stops it
    (or the walk of a point is cut short), they are the points up to the
    one being walked.  No circle is searched twice, none is skipped, and
    the follow-up requests of a point carry no circle. *)
Theorem crawl_scans_points_in_order {P} (pv : provider P) (fuel : nat)
  (pts : list (float * float)) (w : world P) :
  fuel ≠ 0%nat →
  scan_outcome pts (trace w) (Exhaustive.crawl pv fuel pts w)
  ∧ scan_outcome pts (trace w) (Filtered.crawl pv fuel pts w).
Proof.
  intros Hf. destruct fuel as [| fuel]; [contradiction |]. split.
  - unfold Exhaustive.crawl. apply for_enumerate_scan. intros idx [lat lon] w'.
    apply exhaustive_point_scanned.
  - unfold Filtered.crawl. apply for_enumerate_scan. intros idx [lat lon] w'.
    apply filtered_point_scanned.
Qed.

Lemma crawl_scans_points_in_order_witness :
  let pts := [(32.42, -117.13); (32.42, -117.11)]%float in
  3%nat ≠ 0%nat
  ∧ scan_outcome pts [] (Exhaustive.crawl (two_pages cafe_x) 3 pts (init 0%nat))
  ∧ scan_outcome pts [] (Filtered.crawl (two_pages cafe_x) 3 pts (init 0%nat)).
Proof.
  split; [discriminate |].
  apply (crawl_scans_points_in_order (two_pages cafe_x) 3
           [(32.42, -117.13); (32.42, -117.11)]%float (init 0%nat)).
  discriminate.
Defined.

Lemma export_scanned {P} (w : world P) :
  ∃ w', Exhaustive.export w = Done tt w' ∧ scanned (trace w') = scanned (trace w).
Proof.
  rewrite export_eq. eexists. split; [reflexivity |]. simpl.
  rewrite scanned_app. destruct (rows w); simpl; apply app_nil_r.
Qed.

Lemma scan_outcome_then_export {P} (pts : list (float * float)) (tr0 : list event)
  (m : M P unit) (w : world P) :
  scan_outcome pts tr0 (m w) →
  scan_outcome pts tr0 ((m ;; Exhaustive.export) w).
Proof.
  unfold bind. destruct (m w) as [[] w1 | e w1 | w1]; simpl; intros H; try exact H.
  destruct (export_scanned w1) as (w2 & -> & Hs). simpl. rewrite Hs. exact H.
Qed.

(** X10: the circles searched by a whole run.  With any provider, a run of
    either grid crawler searches the circles of its grid (latitude by
    latitude, as [product] lists them), each once, and the export adds no
    search: all of the grid when the run ends, the points up to the one
    being walked when it is stopped.  A run of the single-circle crawler
    searches its one circle once, however it ends. *)
Theorem main_scans_grid {P} (pv : provider P) (grid_fuel fuel : nat)
  (g g' : list (float * float)) (p : P) :
  fuel ≠ 0%nat →
  Exhaustive.grid_points grid_fuel = Some g →
  Filtered.grid grid_fuel = Some g' →
  scan_outcome g [] (Exhaustive.main pv grid_fuel fuel (init p))
  ∧ scan_outcome g' [] (Filtered.main pv grid_fuel fuel (init p))
  ∧ scanned (trace (final (SingleCircle.main pv fuel (init p))))
    = [(32.529014, -117.033050)%float].
Proof.
  intros Hf Hg Hg'. split; [| split].
  - unfold Exhaustive.main. rewrite Hg. unfold bind at 1. unfold print at 1. unfold emit at 1.
    cbn [prov seen rows trace init app].
    apply scan_outcome_then_export. destruct fuel as [| fuel]; [contradiction |].
    refine (for_enumerate_scan _ _ g 1%nat (World p ∅ [] [EvPrint (MsgGrid (length g))])).
    intros idx [lat lon] w'. apply exhaustive_point_scanned.
  - unfold Filtered.main. rewrite Hg'. unfold bind at 1. unfold print at 1. unfold emit at 1.
    cbn [prov seen rows trace init app].
    rewrite filtered_export_same. apply scan_outcome_then_export.
    destruct fuel as [| fuel]; [contradiction |].
    refine (for_enumerate_scan _ _ g' 1%nat (World p ∅ [] [EvPrint (MsgGrid (length g'))])).
    intros idx [lat lon] w'. apply filtered_point_scanned.
  - destruct fuel as [| fuel]; [contradiction |].
    unfold SingleCircle.main, bind. rewrite single_crawl_loop.
    pose proof (page_loop_scanned (SingleCircle.nearby_page pv) (SingleCircle.visit pv)
                  SingleCircle.nearby_body
                  "places.id,places.displayName,places.formattedAddress"
                  (single_nearby_trace pv) (single_visit_quiet pv)
                  (fun t Hne => proj2 (proj2 (nearby_body_token t 0 0 Hne)))
                  (S fuel) None 0%nat (init p)) as Hs.
    destruct (page_loop _ _ (S fuel) None 0%nat (init p)) as [[] w1 | e w1 | w1];
      simpl in Hs; try exact Hs.
    rewrite single_export_same. destruct (export_scanned w1) as (w2 & -> & Hs2).
    simpl. rewrite Hs2. exact Hs.
Qed.

Lemma main_scans_grid_witness :
  ∃ g g',
    3%nat ≠ 0%nat
    ∧ Exhaustive.grid_points 14 = Some g
    ∧ Filtered.grid 14 = Some g'
    ∧ length g = 117%nat
    ∧ scan_outcome g [] (Exhaustive.main (stub cafe_x) 14 3 (init tt))
    ∧ scan_outcome g' [] (Filtered.main (stub cafe_x) 14 3 (init tt))
    ∧ scanned (trace (final (SingleCircle.main (stub cafe_x) 3 (init tt))))
      = [(32.529014, -117.033050)%float].
Proof.
  destruct (Exhaustive.grid_points 14) as [g |] eqn:Hg; [| vm_compute in Hg; discriminate].
  destruct (Filtered.grid 14) as [g' |] eqn:Hg'; [| vm_compute in Hg'; discriminate].
  exists g, g'. split; [discriminate |]. split; [reflexivity |]. split; [reflexivity |].
  split; [vm_compute in Hg; injection Hg as <-; reflexivity |].
  apply (main_scans_grid (stub cafe_x) 14 3 g g' tt); [discriminate | exact Hg | exact Hg'].
Defined.

(** ** The rows are the records of the ids fetched *)

Lemma records_stable {P} (acc : gmap string json → option PlaceRecord)
  (dets : string → option (gmap string json)) :
  stable (fun w : world P => rows w = records_of acc dets (fetched (trace w))).
Proof.
  intros w p' ev Hev Hw. simpl. rewrite fetched_snoc_other by exact Hev. exact Hw.
Qed.

Lemma records_of_snoc (acc : gmap string json → option PlaceRecord)
  (dets : string → option (gmap string json)) (ids : list string) (pid : string) :
  records_of acc dets (ids ++ [pid])
  = records_of acc dets ids ++ match dets pid ≫= acc with
                               | Some r => [r]
                               | None => []
                               end.
Proof.
  unfold records_of. rewrite omap_app. simpl. destruct (dets pid ≫= acc); reflexivity.
Qed.

Lemma records_exhaustive_visit {P} (pv : provider P)
  (dets : string → option (gmap string json)) (pid : string) :
  (∀ p q, (fetch pv p q).2 = dets q) →
  triple (fun w => rows w = records_of accepted dets (fetched (trace w)))
    (Exhaustive.visit pv pid)
    (fun _ w => rows w = records_of accepted dets (fetched (trace w)))
    (fun w => rows w = records_of accepted dets (fetched (trace w))).
Proof.
  intros Hd w Hw. rewrite exhaustive_visit_eq. cbv zeta.
  destruct (decide (pid ∈ seen w)); [exact Hw |].
  rewrite Hd.
  destruct (dets pid) as [det |] eqn:Hdet; simpl.
  - destruct (py_in "websiteUri" det) eqn:Hsite; simpl.
    + rewrite fetched_snoc_details, records_of_snoc, Hdet, <- Hw. simpl.
      unfold accepted. rewrite Hsite. symmetry. apply app_nil_r.
    + destruct (Exhaustive.make_row det) as [e | r] eqn:Hrow; simpl;
        rewrite fetched_snoc_details, records_of_snoc, Hdet, <- Hw; simpl;
        unfold accepted; rewrite Hsite, Hrow; [symmetry; apply app_nil_r | reflexivity].
  - rewrite fetched_snoc_details, records_of_snoc, Hdet, <- Hw. simpl.
    symmetry. apply app_nil_r.
Qed.

Lemma records_filtered_visit {P} (pv : provider P)
  (dets : string → option (gmap string json)) (pid : string) :
  (∀ p q, (fetch pv p q).2 = dets q) →
  triple (fun w => rows w = records_of accepted_promo dets (fetched (trace w)))
    (Filtered.visit pv pid)
    (fun _ w => rows w = records_of accepted_promo dets (fetched (trace w)))
    (fun w => rows w = records_of accepted_promo dets (fetched (trace w))).
Proof.
  intros Hd w Hw. rewrite filtered_visit_eq. cbv zeta.
  destruct (decide (pid ∈ seen w)); [exact Hw |].
  rewrite Hd.
  destruct (dets pid) as [det |] eqn:Hdet; simpl.
  - destruct (Filtered.decide_place det) as [e | [r |]] eqn:Hdec; simpl;
      rewrite fetched_snoc_details, records_of_snoc, Hdet, <- Hw; simpl;
      unfold accepted_promo; rewrite Hdec; try (symmetry; apply app_nil_r); reflexivity.
  - rewrite fetched_snoc_details, records_of_snoc, Hdet, <- Hw. simpl.
    symmetry. apply app_nil_r.
Qed.

Lemma records_single_visit {P} (pv : provider P)
  (dets : string → option (gmap string json)) (pid : string) :
  (∀ p q, (fetch pv p q).2 = dets q) →
  triple (fun w => rows w = records_of accepted dets (fetched (trace w)))
    (SingleCircle.visit pv pid)
    (fun _ w => rows w = records_of accepted dets (fetched (trace w)))
    (fun w => rows w = records_of accepted dets (fetched (trace w))).
Proof.
  intros Hd w Hw. rewrite single_visit_eq. cbv zeta.
  rewrite Hd.
  destruct (dets pid) as [det |] eqn:Hdet; simpl.
  - destruct (py_in "websiteUri" det) eqn:Hsite; simpl.
    + rewrite fetched_snoc_details, records_of_snoc, Hdet, <- Hw. simpl.
      unfold accepted. rewrite Hsite. symmetry. apply app_nil_r.
    + change (SingleCircle.make_row det) with (Exhaustive.make_row det).
      destruct (Exhaustive.make_row det) as [e | r] eqn:Hrow; simpl;
        rewrite fetched_snoc_details, records_of_snoc, Hdet, <- Hw; simpl;
        unfold accepted; rewrite Hsite, Hrow; [symmetry; apply app_nil_r | reflexivity].
  - rewrite fetched_app, fetched_snoc_details. simpl. rewrite app_nil_r.
    rewrite records_of_snoc, Hdet, <- Hw. simpl. symmetry. apply app_nil_r.
Qed.

(** X11: for a provider whose detail response depends on the id alone, the
    rows of a run are, at its end and however it ends, the records of the
    ids whose details were fetched, in the order of the fetches: one record
    for each fetched place that has no website (and, in the filtered
    crawler, a promoted type), none for the others, and none for the place
    whose request or record raised.  Nothing else is ever appended, no
    record is dropped or reordered. *)
Theorem rows_are_records_of_fetched {P} (pv : provider P)
  (dets : string → option (gmap string json)) (p0 : P) (grid_fuel fuel : nat) :
  (∀ p pid, (fetch pv p pid).2 = dets pid) →
  (let w := final (Exhaustive.main pv grid_fuel fuel (init p0)) in
   rows w = records_of accepted dets (fetched (trace w)))
  ∧ (let w := final (Filtered.main pv grid_fuel fuel (init p0)) in
     rows w = records_of accepted_promo dets (fetched (trace w)))
  ∧ (let w := final (SingleCircle.main pv fuel (init p0)) in
     rows w = records_of accepted dets (fetched (trace w))).
Proof.
  intros Hd. cbv zeta. repeat split.
  - apply (triple_final _ _ _ (init p0)
             (stable_exhaustive_main _ pv grid_fuel fuel (records_stable accepted dets)
                (fun pid => records_exhaustive_visit pv dets pid Hd))).
    reflexivity.
  - apply (triple_final _ _ _ (init p0)
             (stable_filtered_main _ pv grid_fuel fuel (records_stable accepted_promo dets)
                (fun pid => records_filtered_visit pv dets pid Hd))).
    reflexivity.
  - apply (triple_final _ _ _ (init p0)
             (stable_single_main _ pv fuel (records_stable accepted dets)
                (fun pid => records_single_visit pv dets pid Hd))).
    reflexivity.
Qed.

Lemma rows_are_records_of_fetched_witness :
  let dets := fun _ : string => Some bar_x in
  (∀ (p : nat) (pid : string), (fetch (two_pages bar_x) p pid).2 = dets pid)
  ∧ (let w := final (Exhaustive.main (two_pages bar_x) 14 3 (init 0%nat)) in
     rows w = records_of accepted dets (fetched (trace w)))
  ∧ (let w := final (Filtered.main (two_pages bar_x) 14 3 (init 0%nat)) in
     rows w = records_of accepted_promo dets (fetched (trace w)))
  ∧ (let w := final (SingleCircle.main (two_pages bar_x) 3 (init 0%nat)) in
     rows w = records_of accepted dets (fetched (trace w))).
Proof.
  split; [reflexivity |].
  apply (rows_are_records_of_fetched (two_pages bar_x) (fun _ => Some bar_x) 0%nat 14 3).
  reflexivity.
Defined.

(** ** A walk has no page cap *)

Lemma for_each_done {P} (visit : string → M P unit) (pids : list string) (w : world P) :
  (∀ pid w, ∃ w', visit pid w = Done tt w' ∧ quietly_after (trace w) w') →
  ∃ w', for_each pids visit w = Done tt w' ∧ quietly_after (trace w) w'.
Proof.
  intros Hv.
  destruct (for_each_script visit (fun _ => tt) pids w) as (w' & E & _ & Hq).
  - intros pid w0 _. destruct (Hv pid w0) as (w1 & E1 & Hq1). exists w1. auto.
  - exists w'. auto.
Qed.

Lemma page_loop_endless {P} (nearby : option string → M P SearchResponse)
  (visit : string → M P unit) :
  (∀ token w, ∃ r w1, nearby token w = Done r w1 ∧ carries_token r
                      ∧ search_count (trace w1) = S (search_count (trace w))) →
  (∀ pid w, ∃ w', visit pid w = Done tt w' ∧ quietly_after (trace w) w') →
  ∀ fuel token page w,
    ∃ w', page_loop nearby visit fuel token page w = OutOfFuel w'
          ∧ search_count (trace w') = (search_count (trace w) + fuel)%nat.
Proof.
  intros Hnear Hvisit fuel. induction fuel as [| fuel IH]; intros token page w.
  - exists w. split; [reflexivity | simpl; lia].
  - destruct (Hnear token w) as (r & w1 & E1 & Hr & Hc1).
    simpl. unfold bind. rewrite E1.
    set (w2 := final (print (MsgPage (S page) (length (default [] (places r)))) w1)).
    change (print (MsgPage (S page) (length (default [] (places r)))) w1) with (Done tt w2).
    destruct (for_each_done visit (default [] (places r)) w2 Hvisit)
      as (w3 & E3 & evs & Ht3 & Hq).
    rewrite E3. rewrite (proj1 (carries_token_truthy r) Hr). simpl.
    set (w4 := final (sleep 2 w3)).
    change (sleep 2 w3) with (Done tt w4).
    destruct (IH (nextPageToken r) (S page) w4) as (w5 & E5 & Hc5).
    exists w5. split; [exact E5 |]. rewrite Hc5.
    unfold w4, sleep, emit. simpl. rewrite search_count_app, Ht3, search_count_app.
    rewrite (search_count_quiet evs Hq). unfold w2, print, emit. simpl.
    rewrite search_count_app, Hc1. unfold search_count. simpl. lia.
Qed.

Lemma search_answer {P} (pv : provider P) (b : body) (mask : string) (w : world P)
  (r : SearchResponse) :
  (search pv (prov w) b).2 = Some r →
  ∃ w1, (x <- post_search pv b mask ;; json_or_raise x) w = Done r w1
        ∧ search_count (trace w1) = S (search_count (trace w)).
Proof.
  intros Hs. unfold bind, post_search.
  destruct (search pv (prov w) b) as [p' x]. simpl in Hs. subst x. simpl.
  eexists. split; [reflexivity |]. simpl. rewrite search_count_app.
  unfold search_count. simpl. lia.
Qed.

(** X12: the page loop has no cap on the number of pages.  Against a
    provider that answers every search with a non-empty token (and whose
    places all have a website, so that no visit raises), the walk of either
    grid crawler and the loop of the single-circle crawler never end:
    whatever the number [fuel] of rounds allowed, the loop is still running
    after them, having sent one search per round. *)
Theorem walk_has_no_page_cap {P} (pv : provider P) (fuel : nat) (lat lon : float)
  (w : world P) :
  (∀ p b, ∃ r, (search pv p b).2 = Some r ∧ carries_token r) →
  (∀ p pid, ∃ det, (fetch pv p pid).2 = Some det ∧ is_Some (det !! "websiteUri")) →
  (∃ w', Exhaustive.walk pv fuel lat lon None 0 w = OutOfFuel w'
         ∧ search_count (trace w') = (search_count (trace w) + fuel)%nat)
  ∧ (∃ w', Filtered.walk pv fuel lat lon None 0 w = OutOfFuel w'
           ∧ search_count (trace w') = (search_count (trace w) + fuel)%nat)
  ∧ (∃ w', SingleCircle.crawl pv fuel None 0 w = OutOfFuel w'
           ∧ search_count (trace w') = (search_count (trace w) + fuel)%nat).
Proof.
  intros Hs Hf. split; [| split].
  - rewrite exhaustive_walk_loop. apply page_loop_endless.
    + intros token w0.
      destruct (Hs (prov w0) (Exhaustive.nearby_body lat lon token)) as (r & Hr & Htok).
      destruct (search_answer pv _ "places.id" w0 r Hr) as (w1 & E1 & Hc).
      exists r, w1. auto.
    + intros pid w0. destruct (Hf (prov w0) pid) as (det & Hd & Hsite).
      destruct (website_rejects_exhaustive pv pid w0 (fetch pv (prov w0) pid).1 det)
        as (w' & E & _); [rewrite <- Hd; apply surjective_pairing | exact Hsite |].
      exists w'. split; [exact E |].
      pose proof (exhaustive_visit_quiet pv pid w0) as Hq. rewrite E in Hq. exact Hq.
  - rewrite filtered_walk_loop. apply page_loop_endless.
    + intros token w0.
      destruct (Hs (prov w0) (Filtered.nearby_body lat lon token)) as (r & Hr & Htok).
      destruct (search_answer pv _ "places.id" w0 r Hr) as (w1 & E1 & Hc).
      exists r, w1. auto.
    + intros pid w0. destruct (Hf (prov w0) pid) as (det & Hd & Hsite).
      destruct (website_rejects_filtered pv pid w0 (fetch pv (prov w0) pid).1 det)
        as (w' & E & _); [rewrite <- Hd; apply surjective_pairing | exact Hsite |].
      exists w'. split; [exact E |].
      pose proof (filtered_visit_quiet pv pid w0) as Hq. rewrite E in Hq. exact Hq.
  - rewrite single_crawl_loop. apply page_loop_endless.
    + intros token w0.
      destruct (Hs (prov w0) (SingleCircle.nearby_body token)) as (r & Hr & Htok).
      exists r. unfold SingleCircle.nearby_page, bind, post_search.
      destruct (search pv (prov w0) (SingleCircle.nearby_body token)) as [p' x].
      simpl in Hr. subst x. simpl. eexists. split; [reflexivity |].
      split; [exact Htok |]. simpl. rewrite search_count_app.
      unfold search_count. simpl. lia.
    + intros pid w0. destruct (Hf (prov w0) pid) as (det & Hd & Hsite).
      destruct (website_rejects_single pv pid w0 (fetch pv (prov w0) pid).1 det)
        as (w' & E & _); [rewrite <- Hd; apply surjective_pairing | exact Hsite |].
      exists w'. split; [exact E |].
      pose proof (single_visit_quiet pv pid w0) as Hq. rewrite E in Hq. exact Hq.
Qed.

Lemma walk_has_no_page_cap_witness :
  (∃ w', Exhaustive.walk endless 50 32.42 (-117.13) None 0 (init 0%nat) = OutOfFuel w'
         ∧ search_count (trace w') = (search_count (trace (init 0%nat)) + 50)%nat)
  ∧ (∃ w', Filtered.walk endless 50 32.42 (-117.13) None 0 (init 0%nat) = OutOfFuel w'
           ∧ search_count (trace w') = (search_count (trace (init 0%nat)) + 50)%nat)
  ∧ (∃ w', SingleCircle.crawl endless 50 None 0 (init 0%nat) = OutOfFuel w'
           ∧ search_count (trace w') = (search_count (trace (init 0%nat)) + 50)%nat).
Proof.
  apply (walk_has_no_page_cap endless 50 32.42 (-117.13) (init 0%nat)).
  - intros p b. eexists. split; [reflexivity |]. exists "more". split; [reflexivity | discriminate].
  - intros p pid. eexists. split; [reflexivity |]. vm_compute. eexists. reflexivity.
Defined.

(** ** only_phone.py: whitespace, short and long records, missing columns *)

Lemma py_lstrip_nil (s : text) :
  py_lstrip s = [] ↔ Forall (fun c => py_isspace c = true) s.
Proof.
  induction s as [| c s IH]; simpl.
  - split; [constructor | reflexivity].
  - destruct (py_isspace c) eqn:Hc.
    + rewrite IH. split; [intros H; constructor; assumption |].
      intros H. apply Forall_cons in H as [_ H]. exact H.
    + split; [discriminate |]. intros H. apply Forall_cons in H as [H _]. congruence.
Qed.

Lemma py_lstrip_spaces (s : text) :
  Forall (fun c => py_isspace c = true) (py_lstrip s)
  ↔ Forall (fun c => py_isspace c = true) s.
Proof.
  induction s as [| c s IH]; simpl; [reflexivity |].
  destruct (py_isspace c) eqn:Hc; [| reflexivity].
  rewrite IH. split; [intros H; constructor; assumption |].
  intros H. apply Forall_cons in H as [_ H]. exact H.
Qed.

Lemma py_strip_empty (s : text) :
  py_strip s = [] ↔ Forall (fun c => py_isspace c = true) s.
Proof.
  unfold py_strip.
  transitivity (py_lstrip (rev (py_lstrip s)) = []).
  - split; [intros H; apply (f_equal (@rev N)) in H; rewrite rev_involutive in H; exact H
           | intros ->; reflexivity].
  - rewrite py_lstrip_nil, <- (py_lstrip_spaces s).
    split; intros H.
    + apply Forall_rev in H. rewrite rev_involutive in H. exact H.
    + apply Forall_rev. exact H.
Qed.

Lemma phone_test_first (a b c d : option text) :
  phone_test a b c d
  = let v := first_text [a; b; c; d] in truthy_text v && truthy_text (py_strip <$> v).
Proof.
  unfold phone_test, or_text. cbn [first_text].
  destruct (truthy_text a) eqn:Ea; [rewrite ?Ea; reflexivity |].
  destruct (truthy_text b) eqn:Eb; [rewrite ?Eb; reflexivity |].
  destruct (truthy_text c) eqn:Ec; [rewrite ?Ec; reflexivity |].
  destruct (truthy_text d) eqn:Ed; rewrite ?Ed; reflexivity.
Qed.

(** The row model on 8-bit characters is the restriction of the test to
    the code points below 256. *)
Lemma is_space_codes (c : ascii) : OnlyPhone.is_space c = py_isspace (N_of_ascii c).
Proof. destruct c as [[] [] [] [] [] [] [] []]; vm_compute; reflexivity. Qed.

Lemma lstrip_codes (l : list ascii) :
  N_of_ascii <$> OnlyPhone.lstrip_chars l = py_lstrip (N_of_ascii <$> l).
Proof.
  induction l as [| c l IH]; [reflexivity |].
  simpl. rewrite <- is_space_codes. destruct (OnlyPhone.is_space c); [exact IH | reflexivity].
Qed.

Lemma fmap_rev {A B} (f : A → B) (l : list A) : f <$> rev l = rev (f <$> l).
Proof.
  induction l as [| x l IH]; [reflexivity |].
  simpl. rewrite fmap_app, IH. reflexivity.
Qed.

Lemma strip_codes (s : string) : codes (OnlyPhone.strip s) = py_strip (codes s).
Proof.
  unfold codes, OnlyPhone.strip, py_strip.
  rewrite list_ascii_of_string_of_list_ascii.
  rewrite fmap_rev, lstrip_codes, fmap_rev, lstrip_codes. reflexivity.
Qed.

Lemma truthy_codes (o : option string) : truthy_str o = truthy_text (codes <$> o).
Proof. destruct o as [[| c s] |]; reflexivity. Qed.

Lemma opt_or_codes (a b : option string) :
  codes <$> OnlyPhone.opt_or a b = or_text (codes <$> a) (codes <$> b).
Proof.
  unfold OnlyPhone.opt_or, or_text. rewrite <- truthy_codes.
  destruct (truthy_str a); reflexivity.
Qed.

Lemma keeps_codes (r : OnlyPhone.row) :
  OnlyPhone.keeps r
  = phone_test (codes <$> OnlyPhone.row_get r "phone")
               (codes <$> OnlyPhone.row_get r "Phone")
               (codes <$> OnlyPhone.row_get r "telefono")
               (codes <$> OnlyPhone.row_get r "Telefono").
Proof.
  unfold OnlyPhone.keeps, OnlyPhone.phone_of, phone_test. cbv zeta.
  rewrite <- !opt_or_codes.
  generalize (OnlyPhone.opt_or
                (OnlyPhone.opt_or
                   (OnlyPhone.opt_or (OnlyPhone.row_get r "phone") (OnlyPhone.row_get r "Phone"))
                   (OnlyPhone.row_get r "telefono"))
                (OnlyPhone.row_get r "Telefono")).
  intros o. rewrite (truthy_codes o). f_equal.
  rewrite truthy_codes. destruct o as [v |]; simpl; [| reflexivity].
  rewrite strip_codes. reflexivity.
Qed.

(** X13: what [strip] decides in the test of line 14.  On the four values
    of a row as Python strings: the row is kept if and only if the first
    of them that is a non-empty string holds at least one character that
    is not whitespace, whitespace being the 29 code points [str.strip]
    removes (among them U+00A0, U+2003 and U+3000); a value made of such
    characters alone does not count as a phone number, and no later key is
    consulted in its place.  The row model, whose cells are strings of code
    points below 256, computes this very test on the code points of its
    cells. *)
Theorem keeps_iff_visible_character (a b c d : option text) (r : OnlyPhone.row) :
  (phone_test a b c d = true
   ↔ ∃ v, first_text [a; b; c; d] = Some v
          ∧ ∃ x, x ∈ v ∧ py_isspace x = false)
  ∧ OnlyPhone.keeps r
    = phone_test (codes <$> OnlyPhone.row_get r "phone")
                 (codes <$> OnlyPhone.row_get r "Phone")
                 (codes <$> OnlyPhone.row_get r "telefono")
                 (codes <$> OnlyPhone.row_get r "Telefono")
  ∧ (∀ ch : ascii, OnlyPhone.is_space ch = py_isspace (N_of_ascii ch))
  ∧ phone_test (Some [12288%N]) (Some [54%N; 54%N; 52%N]) None None = false
  ∧ phone_test (Some []) (Some [32%N; 54%N; 54%N; 52%N; 8195%N]) None None = true.
Proof.
  split; [| split; [apply keeps_codes | split; [apply is_space_codes |]]].
  - rewrite phone_test_first. cbv zeta.
    destruct (first_text [a; b; c; d]) as [v |]; simpl.
    + split.
      * intros H. apply andb_true_iff in H as [_ H]. exists v. split; [reflexivity |].
        destruct (py_strip v) as [| y s] eqn:Hs; [discriminate |].
        assert (Hn : ¬ Forall (fun c => py_isspace c = true) v).
        { intros Hall. apply py_strip_empty in Hall. congruence. }
        apply not_Forall_Exists in Hn; [| intros x; apply _].
        apply Exists_exists in Hn as (x & Hin & Hx). exists x. split; [exact Hin |].
        apply not_true_is_false. exact Hx.
      * intros (v' & Hv & x & Hin & Hx). injection Hv as <-.
        assert (Hs : py_strip v ≠ []).
        { intros Hs. apply py_strip_empty in Hs. rewrite Forall_forall in Hs.
          specialize (Hs x Hin). congruence. }
        destruct v as [| y v]; [apply elem_of_nil in Hin; contradiction |].
        destruct (py_strip (y :: v)); [contradiction | reflexivity].
    + split; [discriminate | intros (v & Hv & _); discriminate].
  - split; vm_compute; reflexivity.
Qed.

Lemma fill_none_lookup (ks : list string) (d : gmap string (option string)) (k : string) :
  foldl (fun d key => <[key := None]> d) d ks !! k
  = if decide (k ∈ ks) then Some None else d !! k.
Proof.
  revert d. induction ks as [| k0 ks IH]; intros d.
  - destruct (decide (k ∈ [])) as [Hin | _]; [| reflexivity].
    apply elem_of_nil in Hin. contradiction.
  - cbn [foldl]. rewrite IH.
    destruct (decide (k ∈ ks)) as [Hin | Hin];
      destruct (decide (k ∈ k0 :: ks)) as [Hin' | Hin']; try reflexivity.
    + exfalso. apply Hin'. right. exact Hin.
    + apply elem_of_cons in Hin' as [-> | Hin']; [apply lookup_insert_eq | contradiction].
    + apply lookup_insert_ne. intros ->. apply Hin'. left.
Qed.

(** What the reader files under a field name, when the names are distinct
    and the record is not longer than the header: the cell at the place of
    the name, or [None] where the record has ended. *)
Lemma read_row_get (fieldnames record : list string) (i : nat) (k : string) :
  NoDup fieldnames →
  (length record ≤ length fieldnames)%nat →
  fieldnames !! i = Some k →
  OnlyPhone.row_get (OnlyPhone.read_row fieldnames record) k = record !! i.
Proof.
  intros Hnd Hlen Hk. unfold OnlyPhone.read_row, OnlyPhone.row_get.
  rewrite (proj2 (Nat.ltb_ge _ _)) by exact Hlen. simpl.
  rewrite fill_none_lookup.
  destruct (record !! i) as [v |] eqn:Hv.
  - rewrite decide_False.
    + unfold OnlyPhone.py_dict.
      rewrite (py_dict_lookup fieldnames (Some <$> record) ∅ i k (Some v) Hnd Hk);
        [reflexivity |].
      rewrite list_lookup_fmap, Hv. reflexivity.
    + intros Hin. apply list_elem_of_lookup_1 in Hin as [j Hj].
      rewrite lookup_drop in Hj.
      pose proof (NoDup_lookup _ _ _ _ Hnd Hk Hj) as Hij.
      apply lookup_lt_Some in Hv. lia.
  - rewrite decide_True; [reflexivity |].
    apply lookup_ge_None in Hv.
    apply (list_elem_of_lookup_2 _ (i - length record)%nat).
    rewrite lookup_drop. replace (length record + (i - length record))%nat with i by lia.
    exact Hk.
Qed.

Lemma pad_lookup (n : nat) (record : list string) (i : nat) :
  (length record ≤ n)%nat → (i < n)%nat →
  pad n record !! i = Some (default "" (record !! i)).
Proof.
  intros Hlen Hi. unfold pad. destruct (record !! i) as [v |] eqn:Hv.
  - rewrite lookup_app_l by (apply lookup_lt_Some in Hv; exact Hv). exact Hv.
  - apply lookup_ge_None in Hv. rewrite lookup_app_r by exact Hv.
    apply lookup_replicate. split; [reflexivity | lia].
Qed.

(** Reading a record that is not longer than the header and writing it
    back gives the record, its missing cells empty. *)
Lemma write_read_short (fieldnames record : list string) :
  NoDup fieldnames →
  (length record ≤ length fieldnames)%nat →
  OnlyPhone.write_row fieldnames (OnlyPhone.read_row fieldnames record)
  = inr (pad (length fieldnames) record).
Proof.
  intros Hnd Hlen. unfold OnlyPhone.write_row.
  assert (Hrest : OnlyPhone.rest (OnlyPhone.read_row fieldnames record) = None).
  { unfold OnlyPhone.read_row. rewrite (proj2 (Nat.ltb_ge _ _)) by exact Hlen. reflexivity. }
  rewrite Hrest. f_equal. apply list_eq. intros i. rewrite list_lookup_fmap.
  destruct (fieldnames !! i) as [k |] eqn:Hk; simpl.
  - rewrite (read_row_get fieldnames record i k Hnd Hlen Hk).
    symmetry. apply pad_lookup; [exact Hlen | apply lookup_lt_Some in Hk; exact Hk].
  - apply lookup_ge_None in Hk. symmetry. apply lookup_ge_None.
    unfold pad. rewrite length_app, length_replicate. lia.
Qed.

Lemma write_read_long (fieldnames record : list string) :
  (length fieldnames < length record)%nat →
  OnlyPhone.write_row fieldnames (OnlyPhone.read_row fieldnames record) = inl ValueError.
Proof.
  intros Hlen. unfold OnlyPhone.write_row, OnlyPhone.read_row.
  rewrite (proj2 (Nat.ltb_lt _ _)) by exact Hlen. reflexivity.
Qed.

Lemma filter_rows_harmless (fieldnames : list string) (records : list (list string))
  (out : list (list string)) (tail : list OnlyPhone.row) :
  NoDup fieldnames →
  Forall (harmless fieldnames) records →
  OnlyPhone.filter_rows fieldnames ((OnlyPhone.read_row fieldnames <$> records) ++ tail) out
  = OnlyPhone.filter_rows fieldnames tail
      (out ++ (pad (length fieldnames)
                 <$> filter (fun record =>
                               OnlyPhone.keeps (OnlyPhone.read_row fieldnames record) = true)
                       records)).
Proof.
  intros Hnd Hh. revert out. induction Hh as [| record records Hr _ IH]; intros out.
  - simpl. rewrite app_nil_r. reflexivity.
  - rewrite fmap_cons. cbn [app OnlyPhone.filter_rows]. rewrite filter_cons.
    destruct (OnlyPhone.keeps (OnlyPhone.read_row fieldnames record)) eqn:Hk.
    + destruct Hr as [Hlen | Hno]; [| congruence].
      rewrite write_read_short by assumption. rewrite IH.
      rewrite decide_True by reflexivity. rewrite fmap_cons, <- app_assoc. reflexivity.
    + rewrite IH. rewrite decide_False by discriminate. reflexivity.
Qed.

Lemma harmless_nonblank (fieldnames : list string) (records : list (list string)) :
  Forall (harmless fieldnames) records →
  Forall (harmless fieldnames) (filter (fun record => record ≠ []) records).
Proof.
  intros H. apply Forall_forall. intros record Hin.
  apply list_elem_of_filter in Hin as [_ Hin]. rewrite Forall_forall in H. auto.
Qed.

(** X14: records shorter or longer than the header.  With distinct field
    names: a kept record that is shorter than the header is written with
    its missing cells empty; a record longer than the header that fails the
    test is skipped like any other; and the first record longer than the
    header that passes the test stops the run with a [ValueError], the
    records before it written and those after it lost. *)
Theorem only_phone_short_and_long_records (fieldnames : list string)
  (before : list (list string)) (bad : list string) (after : list (list string)) :
  NoDup fieldnames →
  Forall (harmless fieldnames) before →
  (length fieldnames < length bad)%nat →
  OnlyPhone.keeps (OnlyPhone.read_row fieldnames bad) = true →
  OnlyPhone.main (fieldnames :: before)
  = (fieldnames :: (pad (length fieldnames) <$> kept_records fieldnames before), None)
  ∧ OnlyPhone.main (fieldnames :: before ++ bad :: after)
    = (fieldnames :: (pad (length fieldnames) <$> kept_records fieldnames before),
       Some ValueError).
Proof.
  intros Hnd Hh Hlen Hk. unfold OnlyPhone.main, OnlyPhone.read_rows, kept_records. split.
  - pose proof (filter_rows_harmless fieldnames (filter (fun record => record ≠ []) before)
                  [fieldnames] [] Hnd (harmless_nonblank _ _ Hh)) as H.
    rewrite app_nil_r in H. rewrite H. reflexivity.
  - rewrite filter_app, fmap_app.
    rewrite (filter_rows_harmless fieldnames (filter (fun record => record ≠ []) before)
               [fieldnames] _ Hnd (harmless_nonblank _ _ Hh)).
    rewrite filter_cons, decide_True by (intros ->; simpl in Hlen; lia).
    rewrite fmap_cons. cbn [OnlyPhone.filter_rows].
    rewrite Hk, write_read_long by exact Hlen. reflexivity.
Qed.

Lemma only_phone_short_and_long_records_witness :
  let fieldnames := ["phone"; "name"; "address"] in
  let before := [["1"; "a"; "x"]; ["  "; "b"; "y"; "z"]; []; ["3"]; [""; "d"]] in
  let bad := ["5"; "e"; "v"; "extra"] in
  let after := [["6"; "f"; "u"]] in
  OnlyPhone.main (fieldnames :: before)
  = (fieldnames :: (pad (length fieldnames) <$> kept_records fieldnames before), None)
  ∧ OnlyPhone.main (fieldnames :: before ++ bad :: after)
    = (fieldnames :: (pad (length fieldnames) <$> kept_records fieldnames before),
       Some ValueError).
Proof.
  apply (only_phone_short_and_long_records ["phone"; "name"; "address"]
           [["1"; "a"; "x"]; ["  "; "b"; "y"; "z"]; []; ["3"]; [""; "d"]]
           ["5"; "e"; "v"; "extra"] [["6"; "f"; "u"]]).
  - apply (bool_decide_unpack _). vm_compute. exact I.
  - repeat (apply Forall_cons; split;
            [first [left; simpl; lia | right; vm_compute; reflexivity] |]).
    apply Forall_nil; exact I.
  - simpl. lia.
  - vm_compute. reflexivity.
Defined.

Lemma row_get_absent (fieldnames record : list string) (k : string) :
  k ∉ fieldnames →
  OnlyPhone.row_get (OnlyPhone.read_row fieldnames record) k = None.
Proof.
  intros Hk. unfold OnlyPhone.row_get, OnlyPhone.read_row.
  assert (Hd : OnlyPhone.py_dict (zip fieldnames (Some <$> record)) !! k = None).
  { unfold OnlyPhone.py_dict. rewrite py_dict_keeps by exact Hk. apply lookup_empty. }
  destruct (length fieldnames <? length record)%nat; simpl.
  - rewrite Hd. reflexivity.
  - rewrite fill_none_lookup, decide_False, Hd; [reflexivity |].
    intros Hin. apply Hk. apply list_elem_of_lookup_1 in Hin as [j Hj].
    rewrite lookup_drop in Hj. eapply list_elem_of_lookup_2. exact Hj.
Qed.

Lemma filter_rows_none_kept (fieldnames : list string) (rs : list OnlyPhone.row)
  (out : list (list string)) :
  Forall (fun r => OnlyPhone.keeps r = false) rs →
  OnlyPhone.filter_rows fieldnames rs out = (out, None).
Proof.
  intros H. revert out. induction H as [| r rs Hr _ IH]; intros out; [reflexivity |].
  simpl. rewrite Hr. apply IH.
Qed.

(** X15: the four keys are looked up as they are written.  When the header
    has none of the field names phone, Phone, telefono, Telefono (a column
    named PHONE or Teléfono does not count), no record passes the test:
    whatever the records hold and however long they are, the run ends
    normally and the output is the header row alone. *)
Theorem only_phone_needs_phone_column (fieldnames : list string)
  (records : list (list string)) :
  "phone" ∉ fieldnames → "Phone" ∉ fieldnames →
  "telefono" ∉ fieldnames → "Telefono" ∉ fieldnames →
  OnlyPhone.main (fieldnames :: records) = ([fieldnames], None).
Proof.
  intros H1 H2 H3 H4. unfold OnlyPhone.main, OnlyPhone.read_rows.
  apply filter_rows_none_kept. apply Forall_fmap, Forall_forall. intros record _.
  simpl. unfold OnlyPhone.keeps, OnlyPhone.phone_of.
  rewrite !row_get_absent by assumption. reflexivity.
Qed.

Lemma only_phone_needs_phone_column_witness :
  OnlyPhone.main [["name"; "PHONE"; "Tel"]; ["a"; "664 123 4567"; "1"];
                  ["b"; "2"; "3"; "4"]; ["c"]]
  = ([["name"; "PHONE"; "Tel"]], None).
Proof.
  apply (only_phone_needs_phone_column ["name"; "PHONE"; "Tel"]
           [["a"; "664 123 4567"; "1"]; ["b"; "2"; "3"; "4"]; ["c"]]);
    apply (bool_decide_unpack _); vm_compute; exact I.
Defined.

(** ** What a walk gathers from a script *)

Lemma first_sightings_elem (ids : list string) (s : gset string) (pid : string) :
  pid ∈ first_sightings ids s ↔ pid ∈ ids ∧ pid ∉ s.
Proof.
  revert s. induction ids as [| q ids IH]; intros s; simpl.
  - split; [intros H; apply elem_of_nil in H; contradiction
           | intros [H _]; apply elem_of_nil in H; contradiction].
  - destruct (decide (q ∈ s)) as [Hq | Hq].
    + rewrite IH, elem_of_cons. split; [tauto |].
      intros [[-> | Hin] Hs]; [contradiction | tauto].
    + rewrite !elem_of_cons, IH. split.
      * intros [-> | [Hin Hs]]; [tauto |]. split; [tauto | set_solver].
      * intros [[-> | Hin] Hs]; [tauto |].
        destruct (decide (pid = q)) as [-> | Hne]; [tauto |]. right. split; [exact Hin | set_solver].
Qed.

Lemma first_sightings_NoDup (ids : list string) (s : gset string) :
  NoDup (first_sightings ids s).
Proof.
  revert s. induction ids as [| q ids IH]; intros s; simpl; [constructor |].
  destruct (decide (q ∈ s)); [apply IH |].
  constructor; [| apply IH]. rewrite first_sightings_elem. set_solver.
Qed.

Lemma first_sightings_sublist (ids : list string) (s : gset string) :
  first_sightings ids s `sublist_of` ids.
Proof.
  revert s. induction ids as [| q ids IH]; intros s; simpl; [constructor |].
  destruct (decide (q ∈ s)); [apply sublist_cons, IH | apply sublist_skip, IH].
Qed.

Lemma for_each_fold {P S St} (visit : string → M P unit) (script_of : world P → S)
  (abs : world P → St) (eff : string → St → St) (pids : list string) (w : world P) :
  (∀ pid w, pid ∈ pids →
            ∃ w', visit pid w = Done tt w' ∧ script_of w' = script_of w
                  ∧ abs w' = eff pid (abs w)) →
  ∃ w', for_each pids visit w = Done tt w' ∧ script_of w' = script_of w
        ∧ abs w' = foldl (fun st pid => eff pid st) (abs w) pids.
Proof.
  revert w. induction pids as [| pid pids IH]; intros w Hv.
  - exists w. split; [reflexivity | split; reflexivity].
  - destruct (Hv pid w ltac:(left)) as (w1 & E1 & Hs1 & Ha1).
    destruct (IH w1 (fun q w Hq => Hv q w ltac:(right; exact Hq))) as (w2 & E2 & Hs2 & Ha2).
    exists w2. simpl. unfold bind. rewrite E1. split; [exact E2 |].
    split; [congruence |]. rewrite Ha2, Ha1. reflexivity.
Qed.

(** The walk over a script folds the effect of the visits over the ids of
    its pages. *)
Lemma page_loop_fold {P St} (nearby : option string → M P SearchResponse)
  (visit : string → M P unit) (script_of : world P → list SearchResponse)
  (abs : world P → St) (eff : string → St → St)
  (pages : list SearchResponse) (last : SearchResponse) (rest : list SearchResponse) :
  (∀ token w r s, script_of w = r :: s →
     ∃ w1, nearby token w = Done r w1 ∧ script_of w1 = s ∧ abs w1 = abs w) →
  (∀ m w, script_of (final (print m w)) = script_of w ∧ abs (final (print m w)) = abs w) →
  (∀ w, script_of (final (sleep 2 w)) = script_of w ∧ abs (final (sleep 2 w)) = abs w) →
  (∀ pid w, pid ∈ page_ids (pages ++ [last]) →
     ∃ w', visit pid w = Done tt w' ∧ script_of w' = script_of w
           ∧ abs w' = eff pid (abs w)) →
  Forall carries_token pages →
  ¬ carries_token last →
  ∀ fuel token page w,
    script_of w = pages ++ last :: rest →
    (length pages < fuel)%nat →
    ∃ w', page_loop nearby visit fuel token page w = Done tt w'
          ∧ script_of w' = rest
          ∧ abs w' = foldl (fun st pid => eff pid st) (abs w) (page_ids (pages ++ [last])).
Proof.
  intros Hnear Hprint Hsleep Hvisit Hpages Hlast.
  induction pages as [| r pages IH]; intros fuel token page w Hscript Hfuel.
  - destruct fuel as [| fuel]; [lia |]. simpl in Hscript.
    destruct (Hnear token w last rest Hscript) as (w1 & E1 & Hs1 & Ha1).
    simpl. unfold bind. rewrite E1.
    set (w2 := final (print (MsgPage (S page) (length (default [] (places last)))) w1)).
    change (print (MsgPage (S page) (length (default [] (places last)))) w1)
      with (Done tt w2).
    destruct (Hprint (MsgPage (S page) (length (default [] (places last)))) w1)
      as [Hs2 Ha2]. fold w2 in Hs2, Ha2.
    destruct (for_each_fold visit script_of abs eff (default [] (places last)) w2)
      as (w3 & E3 & Hs3 & Ha3).
    { intros pid w' Hin. apply Hvisit. unfold page_ids. simpl.
      rewrite app_nil_r. exact Hin. }
    rewrite E3.
    assert (Hno : truthy_str (nextPageToken last) = false).
    { destruct (truthy_str (nextPageToken last)) eqn:E; [| reflexivity].
      exfalso. apply Hlast, carries_token_truthy. exact E. }
    rewrite Hno. simpl. exists w3. split; [reflexivity |]. split; [congruence |].
    rewrite Ha3, Ha2, Ha1. unfold page_ids. simpl. rewrite app_nil_r. reflexivity.
  - destruct fuel as [| fuel]; [simpl in Hfuel; lia |]. simpl in Hscript.
    apply Forall_cons in Hpages as [Hr Hpages].
    destruct (Hnear token w r (pages ++ last :: rest) Hscript) as (w1 & E1 & Hs1 & Ha1).
    simpl. unfold bind. rewrite E1.
    set (w2 := final (print (MsgPage (S page) (length (default [] (places r)))) w1)).
    change (print (MsgPage (S page) (length (default [] (places r)))) w1)
      with (Done tt w2).
    destruct (Hprint (MsgPage (S page) (length (default [] (places r)))) w1)
      as [Hs2 Ha2]. fold w2 in Hs2, Ha2.
    destruct (for_each_fold visit script_of abs eff (default [] (places r)) w2)
      as (w3 & E3 & Hs3 & Ha3).
    { intros pid w' Hin. apply Hvisit. unfold page_ids. simpl.
      apply elem_of_app. left. exact Hin. }
    rewrite E3.
    rewrite (proj1 (carries_token_truthy r) Hr). simpl.
    set (w4 := final (sleep 2 w3)).
    change (sleep 2 w3) with (Done tt w4).
    destruct (Hsleep w3) as [Hs4 Ha4]. fold w4 in Hs4, Ha4.
    assert (Hvisit' : ∀ pid w', pid ∈ page_ids (pages ++ [last]) →
              ∃ w'', visit pid w' = Done tt w'' ∧ script_of w'' = script_of w'
                     ∧ abs w'' = eff pid (abs w')).
    { intros pid w' Hin. apply Hvisit. unfold page_ids in *. simpl.
      apply elem_of_app. right. exact Hin. }
    assert (Hfuel' : (length pages < fuel)%nat) by (simpl in Hfuel; lia).
    destruct (IH Hvisit' Hpages fuel (nextPageToken r) (S page) w4) as (w5 & E5 & Hs5 & Ha5);
      [congruence | exact Hfuel' |].
    exists w5. split; [exact E5 |]. split; [exact Hs5 |].
    rewrite Ha5, Ha4, Ha3, Ha2, Ha1. unfold page_ids. simpl.
    rewrite foldl_app. reflexivity.
Qed.

Lemma records_of_app (acc : gmap string json → option PlaceRecord)
  (dets : string → option (gmap string json)) (ids1 ids2 : list string) :
  records_of acc dets (ids1 ++ ids2) = records_of acc dets ids1 ++ records_of acc dets ids2.
Proof. unfold records_of. apply omap_app. Qed.

Lemma foldl_dedup (acc : gmap string json → option PlaceRecord)
  (dets : string → option (gmap string json)) (ids : list string)
  (s : gset string) (f : list string) (rs : list PlaceRecord) :
  foldl (fun st pid => dedup_eff acc dets pid st) (s, f, rs) ids
  = (list_to_set ids ∪ s, f ++ first_sightings ids s,
     rs ++ records_of acc dets (first_sightings ids s)).
Proof.
  revert s f rs. induction ids as [| q ids IH]; intros s f rs.
  - simpl. rewrite !app_nil_r. f_equal. f_equal. set_solver.
  - cbn [foldl first_sightings]. unfold dedup_eff at 2. cbn [fst snd].
    destruct (decide (q ∈ s)) as [Hq | Hq].
    + rewrite IH. f_equal. f_equal. set_solver.
    + rewrite IH. change (q :: first_sightings ids ({[q]} ∪ s))
        with ([q] ++ first_sightings ids ({[q]} ∪ s)).
      rewrite records_of_app, !app_assoc. f_equal. f_equal. set_solver.
Qed.

Lemma foldl_plain (acc : gmap string json → option PlaceRecord)
  (dets : string → option (gmap string json)) (ids : list string)
  (s : gset string) (f : list string) (rs : list PlaceRecord) :
  foldl (fun st pid => plain_eff acc dets pid st) (s, f, rs) ids
  = (s, f ++ ids, rs ++ records_of acc dets ids).
Proof.
  revert f rs. induction ids as [| q ids IH]; intros f rs.
  - simpl. rewrite !app_nil_r. reflexivity.
  - cbn [foldl]. unfold plain_eff at 2. cbn [fst snd]. rewrite IH.
    change (q :: ids) with ([q] ++ ids). rewrite records_of_app, !app_assoc. reflexivity.
Qed.

Lemma gathered_emit {P} (ev : event) (w : world P) :
  (∀ pid mask, ev ≠ EvDetails pid mask) →
  gathered (final (emit ev w)) = gathered w.
Proof.
  intros Hev. unfold gathered. simpl. rewrite fetched_snoc_other by exact Hev. reflexivity.
Qed.

Lemma scripted_search_gathered (dets : string → option (gmap string json))
  (b : body) (mask : string) (w : world (list SearchResponse))
  (r : SearchResponse) (s : list SearchResponse) :
  prov w = r :: s →
  ∃ w1, (x <- post_search (scripted dets) b mask ;; json_or_raise x) w = Done r w1
        ∧ prov w1 = s ∧ gathered w1 = gathered w.
Proof.
  intros Hs. unfold bind, post_search. simpl. rewrite Hs. simpl.
  eexists. split; [reflexivity |]. split; [reflexivity |].
  unfold gathered. simpl. rewrite fetched_snoc_other by discriminate. reflexivity.
Qed.

Lemma exhaustive_visit_gathers (dets : string → option (gmap string json))
  (pid : string) (w : world (list SearchResponse)) :
  servable dets pid →
  ∃ w', Exhaustive.visit (scripted dets) pid w = Done tt w'
        ∧ prov w' = prov w
        ∧ gathered w' = dedup_eff accepted dets pid (gathered w).
Proof.
  intros (det & Hd & Hok). rewrite exhaustive_visit_eq. cbv zeta.
  unfold dedup_eff, gathered. cbn [fst snd].
  destruct (decide (pid ∈ seen w)); [exists w; auto |].
  unfold records_of. simpl. rewrite !Hd. simpl. unfold accepted.
  destruct (py_in "websiteUri" det) eqn:Hsite.
  - eexists. split; [reflexivity |]. split; [reflexivity |]. simpl.
    rewrite fetched_snoc_details, app_nil_r. reflexivity.
  - destruct Hok as [Hw | [r Hr]]; [apply py_in_true in Hw; congruence |].
    rewrite Hr. eexists. split; [reflexivity |]. split; [reflexivity |]. simpl.
    rewrite fetched_snoc_details. reflexivity.
Qed.

Lemma filtered_visit_gathers (dets : string → option (gmap string json))
  (pid : string) (w : world (list SearchResponse)) :
  servable_promo dets pid →
  ∃ w', Filtered.visit (scripted dets) pid w = Done tt w'
        ∧ prov w' = prov w
        ∧ gathered w' = dedup_eff accepted_promo dets pid (gathered w).
Proof.
  intros (det & v & Hd & Hv). rewrite filtered_visit_eq. cbv zeta.
  unfold dedup_eff, gathered. cbn [fst snd].
  destruct (decide (pid ∈ seen w)); [exists w; auto |].
  unfold records_of. simpl. rewrite !Hd. simpl. unfold accepted_promo.
  rewrite Hv. destruct v as [r |].
  - eexists. split; [reflexivity |]. split; [reflexivity |]. simpl.
    rewrite fetched_snoc_details. reflexivity.
  - eexists. split; [reflexivity |]. split; [reflexivity |]. simpl.
    rewrite fetched_snoc_details, app_nil_r. reflexivity.
Qed.

Lemma single_visit_gathers (dets : string → option (gmap string json))
  (pid : string) (w : world (list SearchResponse)) :
  servable dets pid →
  ∃ w', SingleCircle.visit (scripted dets) pid w = Done tt w'
        ∧ prov w' = prov w
        ∧ gathered w' = plain_eff accepted dets pid (gathered w).
Proof.
  intros (det & Hd & Hok). rewrite single_visit_eq. cbv zeta.
  unfold plain_eff, gathered. cbn [fst snd].
  unfold records_of. simpl. rewrite !Hd. simpl. unfold accepted.
  change (SingleCircle.make_row det) with (Exhaustive.make_row det).
  destruct (py_in "websiteUri" det) eqn:Hsite.
  - eexists. split; [reflexivity |]. split; [reflexivity |]. simpl.
    rewrite fetched_snoc_details, app_nil_r. reflexivity.
  - destruct Hok as [Hw | [r Hr]]; [apply py_in_true in Hw; congruence |].
    rewrite Hr. eexists. split; [reflexivity |]. split; [reflexivity |]. simpl.
    rewrite fetched_snoc_details. reflexivity.
Qed.

(** X16: what a walk gathers from a script.  Against a scripted provider
    whose next pages are [pages] (each with a non-empty token) and [last]
    (without), with enough rounds and places whose visits cannot raise, the
    walk of either grid crawler ends normally, having read these pages and
    no other, and: the seen set has grown by the ids of the pages; the
    details fetched are those of the ids met for the first time (not in the
    seen set before, repetitions dropped), in page order; and the rows have
    grown by the records of exactly these ids that are accepted, in the
    same order. *)
Theorem walk_gathers_first_sightings (dets : string → option (gmap string json))
  (pages : list SearchResponse) (last : SearchResponse) (rest : list SearchResponse)
  (fuel : nat) (lat lon : float) (w : world (list SearchResponse)) :
  Forall carries_token pages →
  ¬ carries_token last →
  prov w = pages ++ last :: rest →
  (length pages < fuel)%nat →
  let ids := page_ids (pages ++ [last]) in
  let new := first_sightings ids (seen w) in
  NoDup new
  ∧ (∀ pid, pid ∈ new ↔ pid ∈ ids ∧ pid ∉ seen w)
  ∧ new `sublist_of` ids
  ∧ (Forall (servable dets) ids →
     ∃ w', Exhaustive.walk (scripted dets) fuel lat lon None 0 w = Done tt w'
           ∧ prov w' = rest
           ∧ seen w' = list_to_set ids ∪ seen w
           ∧ fetched (trace w') = fetched (trace w) ++ new
           ∧ rows w' = rows w ++ records_of accepted dets new)
  ∧ (Forall (servable_promo dets) ids →
     ∃ w', Filtered.walk (scripted dets) fuel lat lon None 0 w = Done tt w'
           ∧ prov w' = rest
           ∧ seen w' = list_to_set ids ∪ seen w
           ∧ fetched (trace w') = fetched (trace w) ++ new
           ∧ rows w' = rows w ++ records_of accepted_promo dets new).
Proof.
  intros Hpages Hlast Hscript Hfuel ids new.
  split; [apply first_sightings_NoDup |].
  split; [intros pid; apply first_sightings_elem |].
  split; [apply first_sightings_sublist |].
  split.
  - intros Hserv. rewrite Forall_forall in Hserv.
    destruct (page_loop_fold (Exhaustive.nearby (scripted dets) lat lon)
                (Exhaustive.visit (scripted dets)) prov gathered
                (dedup_eff accepted dets) pages last rest) with (fuel := fuel)
                (token := @None string) (page := 0%nat) (w := w)
      as (w' & E & Hp & Hg); try assumption.
    + intros token w0 r s Hs. apply scripted_search_gathered. exact Hs.
    + intros m w0. split; [reflexivity | apply gathered_emit; discriminate].
    + intros w0. split; [reflexivity | apply gathered_emit; discriminate].
    + intros pid w0 Hin. apply exhaustive_visit_gathers, Hserv, Hin.
    + exists w'. rewrite exhaustive_walk_loop. split; [exact E |]. split; [exact Hp |].
      unfold gathered in Hg at 2. rewrite foldl_dedup in Hg.
      unfold gathered in Hg. injection Hg as H1 H2 H3. auto.
  - intros Hserv. rewrite Forall_forall in Hserv.
    destruct (page_loop_fold (Filtered.nearby (scripted dets) lat lon)
                (Filtered.visit (scripted dets)) prov gathered
                (dedup_eff accepted_promo dets) pages last rest) with (fuel := fuel)
                (token := @None string) (page := 0%nat) (w := w)
      as (w' & E & Hp & Hg); try assumption.
    + intros token w0 r s Hs. apply scripted_search_gathered. exact Hs.
    + intros m w0. split; [reflexivity | apply gathered_emit; discriminate].
    + intros w0. split; [reflexivity | apply gathered_emit; discriminate].
    + intros pid w0 Hin. apply filtered_visit_gathers, Hserv, Hin.
    + exists w'. rewrite filtered_walk_loop. split; [exact E |]. split; [exact Hp |].
      unfold gathered in Hg at 2. rewrite foldl_dedup in Hg.
      unfold gathered in Hg. injection Hg as H1 H2 H3. auto.
Qed.

Lemma walk_gathers_first_sightings_witness :
  let dets := fun _ : string => Some bar_x in
  let w := init [page_one; page_one; page_two] in
  (∃ w', Exhaustive.walk (scripted dets) 3 32.42 (-117.13) None 0 w = Done tt w'
         ∧ prov w' = []
         ∧ seen w' = list_to_set ["A"; "A"; "B"] ∪ ∅
         ∧ fetched (trace w') = [] ++ first_sightings ["A"; "A"; "B"] ∅
         ∧ rows w' = [] ++ records_of accepted dets (first_sightings ["A"; "A"; "B"] ∅))
  ∧ (∃ w', Filtered.walk (scripted dets) 3 32.42 (-117.13) None 0 w = Done tt w'
           ∧ prov w' = []
           ∧ seen w' = list_to_set ["A"; "A"; "B"] ∪ ∅
           ∧ fetched (trace w') = [] ++ first_sightings ["A"; "A"; "B"] ∅
           ∧ rows w' = [] ++ records_of accepted_promo dets
                                (first_sightings ["A"; "A"; "B"] ∅)).
Proof.
  cbv zeta.
  assert (Hex : servable (fun _ => Some bar_x) "A" ∧ servable (fun _ => Some bar_x) "B").
  { split; (exists bar_x; split; [reflexivity | right; eexists; vm_compute; reflexivity]). }
  assert (Hfil : servable_promo (fun _ => Some bar_x) "A"
                 ∧ servable_promo (fun _ => Some bar_x) "B").
  { split; (exists bar_x; eexists; split; [reflexivity | vm_compute; reflexivity]). }
  destruct (walk_gathers_first_sightings (fun _ => Some bar_x) [page_one; page_one] page_two []
              3 32.42 (-117.13) (init [page_one; page_one; page_two]))
    as (_ & _ & _ & H1 & H2).
  - repeat constructor; (exists "t1"; split; [reflexivity | discriminate]).
  - intros (t & Ht & _). discriminate.
  - reflexivity.
  - simpl. lia.
  - split; [apply H1 | apply H2]; repeat constructor; tauto.
Defined.

Lemma single_search_gathered (dets : string → option (gmap string json))
  (token : option string) (w : world (list SearchResponse))
  (r : SearchResponse) (s : list SearchResponse) :
  prov w = r :: s →
  ∃ w1, SingleCircle.nearby_page (scripted dets) token w = Done r w1
        ∧ prov w1 = s ∧ gathered w1 = gathered w.
Proof.
  intros Hs. unfold SingleCircle.nearby_page, bind, post_search. simpl. rewrite Hs. simpl.
  eexists. split; [reflexivity |]. split; [reflexivity |].
  unfold gathered. simpl. rewrite fetched_snoc_other by discriminate. reflexivity.
Qed.

(** X17: a whole run of the single-circle crawler against a script.  When
    the provider serves the pages [pages] (each with a non-empty token)
    and then [last] (without), and no visit can raise, the program ends
    normally having read these pages and no other; it has fetched the
    details of every listed id, once per listing and in page order (an id
    listed twice is fetched twice); the records found are those of the
    listed places without a website, in the same order; and the one file
    written, if any record was found, holds the header and one row per
    record. *)
Theorem single_circle_run_from_script (dets : string → option (gmap string json))
  (pages : list SearchResponse) (last : SearchResponse) (rest : list SearchResponse)
  (fuel : nat) :
  Forall carries_token pages →
  ¬ carries_token last →
  (length pages < fuel)%nat →
  Forall (servable dets) (page_ids (pages ++ [last])) →
  let ids := page_ids (pages ++ [last]) in
  let found := records_of accepted dets ids in
  ∃ w', SingleCircle.main (scripted dets) fuel (init (pages ++ last :: rest)) = Done tt w'
        ∧ prov w' = rest
        ∧ seen w' = ∅
        ∧ fetched (trace w') = ids
        ∧ rows w' = found
        ∧ written (trace w')
          = match found with
            | [] => []
            | _ :: _ => [("tijuana_no_website.csv", header :: (cells <$> found))]
            end.
Proof.
  intros Hpages Hlast Hfuel Hserv ids found. rewrite Forall_forall in Hserv.
  destruct (page_loop_fold (SingleCircle.nearby_page (scripted dets))
              (SingleCircle.visit (scripted dets)) prov gathered
              (plain_eff accepted dets) pages last rest) with (fuel := fuel)
              (token := @None string) (page := 0%nat) (w := init (pages ++ last :: rest))
    as (w1 & E & Hp & Hg); try assumption; try reflexivity.
  - intros token w0 r s Hs. apply single_search_gathered. exact Hs.
  - intros m w0. split; [reflexivity | apply gathered_emit; discriminate].
  - intros w0. split; [reflexivity | apply gathered_emit; discriminate].
  - intros pid w0 Hin. apply single_visit_gathers, Hserv, Hin.
  - rewrite <- single_crawl_loop in E.
    pose proof (no_write_single_crawl (scripted dets) fuel None 0%nat
                  (init (pages ++ last :: rest)) eq_refl) as Hnw.
    rewrite E in Hnw. unfold no_write in Hnw.
    unfold gathered in Hg at 2. simpl in Hg. rewrite foldl_plain in Hg.
    unfold gathered in Hg. injection Hg as H1 H2 H3. simpl in H2, H3.
    fold ids in H2, H3. fold found in H3.
    unfold SingleCircle.main, bind. rewrite E, single_export_same, export_eq.
    eexists. split; [reflexivity |]. cbn [prov seen rows trace].
    split; [exact Hp |]. split; [exact H1 |].
    rewrite fetched_app, written_app, Hnw, H2, H3.
    split; [destruct found; simpl; apply app_nil_r |].
    split; [reflexivity |]. destruct found; reflexivity.
Qed.

Lemma single_circle_run_from_script_witness :
  let dets := fun _ : string => Some cafe_x in
  let found := records_of accepted dets ["A"; "A"; "B"] in
  ∃ w', SingleCircle.main (scripted dets) 3 (init [page_one; page_one; page_two]) = Done tt w'
        ∧ prov w' = []
        ∧ seen w' = ∅
        ∧ fetched (trace w') = ["A"; "A"; "B"]
        ∧ rows w' = found
        ∧ length found = 3%nat
        ∧ written (trace w')
          = match found with
            | [] => []
            | _ :: _ => [("tijuana_no_website.csv", header :: (cells <$> found))]
            end.
Proof.
  cbv zeta.
  destruct (single_circle_run_from_script (fun _ => Some cafe_x) [page_one; page_one]
              page_two [] 3) as (w' & E & Hp & Hs & Hf & Hr & Hw).
  - repeat constructor; (exists "t1"; split; [reflexivity | discriminate]).
  - intros (t & Ht & _). discriminate.
  - simpl. lia.
  - repeat constructor;
      (exists cafe_x; split; [reflexivity | right; eexists; vm_compute; reflexivity]).
  - exists w'. repeat split; assumption.
Defined.

(** ** A whole run of a grid crawler against a script *)

Lemma page_ids_app (pages1 pages2 : list SearchResponse) :
  page_ids (pages1 ++ pages2) = page_ids pages1 ++ page_ids pages2.
Proof. unfold page_ids. apply bind_app. Qed.

Lemma for_enumerate_fold {P St} (f : nat → float * float → M P unit)
  (script_of : world P → list SearchResponse) (abs : world P → St)
  (eff : string → St → St) (ok : list SearchResponse → Prop) :
  (∀ idx pt wk w rest, ok wk → script_of w = wk ++ rest →
     ∃ w', f idx pt w = Done tt w' ∧ script_of w' = rest
           ∧ abs w' = foldl (fun st pid => eff pid st) (abs w) (page_ids wk)) →
  ∀ pts wks i0 w rest,
    length wks = length pts →
    Forall ok wks →
    script_of w = concat wks ++ rest →
    ∃ w', for_enumerate i0 pts f w = Done tt w' ∧ script_of w' = rest
          ∧ abs w' = foldl (fun st pid => eff pid st) (abs w) (page_ids (concat wks)).
Proof.
  intros Hstep pts. induction pts as [| pt pts IH]; intros wks i0 w rest Hlen Hok Hscript.
  - destruct wks; [| discriminate]. simpl in Hscript. exists w. auto.
  - destruct wks as [| wk wks]; [discriminate |]. simpl in Hlen, Hscript.
    apply Forall_cons in Hok as [Hwk Hok]. rewrite <- app_assoc in Hscript.
    destruct (Hstep i0 pt wk w (concat wks ++ rest) Hwk Hscript) as (w1 & E1 & Hs1 & Ha1).
    destruct (IH wks (S i0) w1 rest ltac:(lia) Hok Hs1) as (w2 & E2 & Hs2 & Ha2).
    exists w2. simpl. unfold bind. rewrite E1. split; [exact E2 |]. split; [exact Hs2 |].
    rewrite Ha2, Ha1, page_ids_app, foldl_app. reflexivity.
Qed.

Lemma exhaustive_crawl_fold (dets : string → option (gmap string json)) (fuel : nat)
  (pts : list (float * float)) (wks : list (list SearchResponse))
  (w : world (list SearchResponse)) (rest : list SearchResponse) :
  length wks = length pts →
  Forall (walkable fuel (servable dets)) wks →
  prov w = concat wks ++ rest →
  ∃ w', Exhaustive.crawl (scripted dets) fuel pts w = Done tt w' ∧ prov w' = rest
        ∧ gathered w' = foldl (fun st pid => dedup_eff accepted dets pid st) (gathered w)
                          (page_ids (concat wks)).
Proof.
  unfold Exhaustive.crawl. apply for_enumerate_fold.
  intros idx [lat lon] wk w0 rest0 ((pages & last & -> & Hpages & Hlast) & Hfuel & Hserv) Hs.
  unfold bind at 1. unfold print at 1. unfold emit at 1.
  rewrite exhaustive_walk_loop. rewrite Forall_forall in Hserv.
  rewrite length_app in Hfuel. simpl in Hfuel.
  destruct (page_loop_fold (Exhaustive.nearby (scripted dets) lat lon)
              (Exhaustive.visit (scripted dets)) prov gathered
              (dedup_eff accepted dets) pages last rest0) with (fuel := fuel)
              (token := @None string) (page := 0%nat)
              (w := World (prov w0) (seen w0) (rows w0)
                      (trace w0 ++ [EvPrint (MsgPoint idx (length pts) lat lon)]))
    as (w' & E & Hp & Hg); try assumption.
  - intros token w1 r s Hs1. apply scripted_search_gathered. exact Hs1.
  - intros m w1. split; [reflexivity | apply gathered_emit; discriminate].
  - intros w1. split; [reflexivity | apply gathered_emit; discriminate].
  - intros pid w1 Hin. apply exhaustive_visit_gathers, Hserv, Hin.
  - simpl. rewrite Hs, <- app_assoc. reflexivity.
  - lia.
  - exists w'. split; [exact E |]. split; [exact Hp |]. rewrite Hg.
    f_equal. unfold gathered. simpl. rewrite fetched_snoc_other by discriminate. reflexivity.
Qed.

Lemma filtered_crawl_fold (dets : string → option (gmap string json)) (fuel : nat)
  (pts : list (float * float)) (wks : list (list SearchResponse))
  (w : world (list SearchResponse)) (rest : list SearchResponse) :
  length wks = length pts →
  Forall (walkable fuel (servable_promo dets)) wks →
  prov w = concat wks ++ rest →
  ∃ w', Filtered.crawl (scripted dets) fuel pts w = Done tt w' ∧ prov w' = rest
        ∧ gathered w' = foldl (fun st pid => dedup_eff accepted_promo dets pid st)
                          (gathered w) (page_ids (concat wks)).
Proof.
  unfold Filtered.crawl. apply for_enumerate_fold.
  intros idx [lat lon] wk w0 rest0 ((pages & last & -> & Hpages & Hlast) & Hfuel & Hserv) Hs.
  unfold bind at 1. unfold print at 1. unfold emit at 1.
  rewrite filtered_walk_loop. rewrite Forall_forall in Hserv.
  rewrite length_app in Hfuel. simpl in Hfuel.
  destruct (page_loop_fold (Filtered.nearby (scripted dets) lat lon)
              (Filtered.visit (scripted dets)) prov gathered
              (dedup_eff accepted_promo dets) pages last rest0) with (fuel := fuel)
              (token := @None string) (page := 0%nat)
              (w := World (prov w0) (seen w0) (rows w0)
                      (trace w0 ++ [EvPrint (MsgPoint idx (length pts) lat lon)]))
    as (w' & E & Hp & Hg); try assumption.
  - intros token w1 r s Hs1. apply scripted_search_gathered. exact Hs1.
  - intros m w1. split; [reflexivity | apply gathered_emit; discriminate].
  - intros w1. split; [reflexivity | apply gathered_emit; discriminate].
  - intros pid w1 Hin. apply filtered_visit_gathers, Hserv, Hin.
  - simpl. rewrite Hs, <- app_assoc. reflexivity.
  - lia.
  - exists w'. split; [exact E |]. split; [exact Hp |]. rewrite Hg.
    f_equal. unfold gathered. simpl. rewrite fetched_snoc_other by discriminate. reflexivity.
Qed.

Lemma export_written {P} (w : world P) :
  written (trace w) = [] →
  ∃ w', Exhaustive.export w = Done tt w'
        ∧ prov w' = prov w ∧ seen w' = seen w ∧ rows w' = rows w
        ∧ fetched (trace w') = fetched (trace w)
        ∧ written (trace w') = exported (rows w).
Proof.
  intros Hnw. rewrite export_eq. eexists. split; [reflexivity |]. cbn [prov seen rows trace].
  repeat split; try reflexivity.
  - rewrite fetched_app. destruct (rows w); simpl; apply app_nil_r.
  - rewrite written_app, Hnw. destruct (rows w); reflexivity.
Qed.

(** X18: a whole run of a grid crawler against a script.  When the provider
    serves, for each scan point in turn, pages that a walk can take (some
    with a non-empty token, then one without, within the rounds allowed)
    and no visit can raise, the program ends normally having read these
    pages and no other, and across all points and pages: the seen set is
    the set of the listed ids; the details fetched are those of the ids at
    their first listing, in the order of listing; the rows are the records
    of these ids that are accepted, in the same order; and the one file
    written, if there is any row, holds the header and one row per record.
    This holds for exhaustive.py and, with its own acceptance test, for
    places.py. *)
Theorem grid_run_from_script (dets : string → option (gmap string json))
  (wks : list (list SearchResponse)) (rest : list SearchResponse)
  (grid_fuel fuel : nat) (g g' : list (float * float)) :
  Exhaustive.grid_points grid_fuel = Some g →
  Filtered.grid grid_fuel = Some g' →
  let ids := page_ids (concat wks) in
  let new := first_sightings ids ∅ in
  (length wks = length g →
   Forall (walkable fuel (servable dets)) wks →
   ∃ w', Exhaustive.main (scripted dets) grid_fuel fuel (init (concat wks ++ rest))
         = Done tt w'
         ∧ prov w' = rest
         ∧ seen w' = list_to_set ids
         ∧ fetched (trace w') = new
         ∧ rows w' = records_of accepted dets new
         ∧ written (trace w') = exported (records_of accepted dets new))
  ∧ (length wks = length g' →
     Forall (walkable fuel (servable_promo dets)) wks →
     ∃ w', Filtered.main (scripted dets) grid_fuel fuel (init (concat wks ++ rest))
           = Done tt w'
           ∧ prov w' = rest
           ∧ seen w' = list_to_set ids
           ∧ fetched (trace w') = new
           ∧ rows w' = records_of accepted_promo dets new
           ∧ written (trace w') = exported (records_of accepted_promo dets new)).
Proof.
  intros Hg Hg' ids new. split; intros Hlen Hwk.
  - unfold Exhaustive.main. rewrite Hg. unfold bind at 1. unfold print at 1. unfold emit at 1.
    set (w0 := World _ _ _ _).
    destruct (exhaustive_crawl_fold dets fuel g wks w0 rest Hlen Hwk eq_refl)
      as (w1 & E1 & Hp1 & Hg1).
    pose proof (no_write_exhaustive_crawl (scripted dets) fuel g w0 eq_refl) as Hnw.
    rewrite E1 in Hnw.
    unfold bind. rewrite E1.
    destruct (export_written w1 Hnw) as (w2 & E2 & Hp2 & Hs2 & Hr2 & Hf2 & Hw2).
    exists w2. split; [exact E2 |].
    unfold gathered in Hg1 at 2. simpl in Hg1. rewrite foldl_dedup in Hg1.
    unfold gathered in Hg1. injection Hg1 as H1 H2 H3. simpl in H2, H3.
    fold ids in H1, H2, H3. fold new in H2, H3.
    rewrite Hp2, Hs2, Hr2, Hf2, Hw2, H1, H2, H3.
    repeat split; try reflexivity; try assumption. set_solver.
  - unfold Filtered.main. rewrite Hg'. unfold bind at 1. unfold print at 1. unfold emit at 1.
    set (w0 := World _ _ _ _).
    destruct (filtered_crawl_fold dets fuel g' wks w0 rest Hlen Hwk eq_refl)
      as (w1 & E1 & Hp1 & Hg1).
    pose proof (no_write_filtered_crawl (scripted dets) fuel g' w0 eq_refl) as Hnw.
    rewrite E1 in Hnw.
    unfold bind. rewrite E1, filtered_export_same.
    destruct (export_written w1 Hnw) as (w2 & E2 & Hp2 & Hs2 & Hr2 & Hf2 & Hw2).
    exists w2. split; [exact E2 |].
    unfold gathered in Hg1 at 2. simpl in Hg1. rewrite foldl_dedup in Hg1.
    unfold gathered in Hg1. injection Hg1 as H1 H2 H3. simpl in H2, H3.
    fold ids in H1, H2, H3. fold new in H2, H3.
    rewrite Hp2, Hs2, Hr2, Hf2, Hw2, H1, H2, H3.
    repeat split; try reflexivity; try assumption. set_solver.
Qed.

Lemma grid_run_from_script_witness :
  let dets := fun _ : string => Some bar_x in
  let wks := [page_one; page_two] :: replicate 116 [page_two] in
  ∃ g g',
    Exhaustive.grid_points 14 = Some g
    ∧ Filtered.grid 14 = Some g'
    ∧ (∃ w', Exhaustive.main (scripted dets) 14 2 (init (concat wks ++ [])) = Done tt w'
             ∧ prov w' = []
             ∧ seen w' = list_to_set (page_ids (concat wks))
             ∧ fetched (trace w') = ["A"; "B"]
             ∧ rows w' = records_of accepted dets ["A"; "B"]
             ∧ written (trace w') = exported (records_of accepted dets ["A"; "B"]))
    ∧ (∃ w', Filtered.main (scripted dets) 14 2 (init (concat wks ++ [])) = Done tt w'
             ∧ prov w' = []
             ∧ seen w' = list_to_set (page_ids (concat wks))
             ∧ fetched (trace w') = ["A"; "B"]
             ∧ rows w' = records_of accepted_promo dets ["A"; "B"]
             ∧ written (trace w') = exported (records_of accepted_promo dets ["A"; "B"])).
Proof.
  cbv zeta.
  destruct (Exhaustive.grid_points 14) as [g |] eqn:Hg; [| vm_compute in Hg; discriminate].
  destruct (Filtered.grid 14) as [g' |] eqn:Hg'; [| vm_compute in Hg'; discriminate].
  assert (Hlen : length g = 117%nat) by (vm_compute in Hg; injection Hg as <-; reflexivity).
  assert (Hlen' : length g' = 117%nat) by (vm_compute in Hg'; injection Hg' as <-; reflexivity).
  assert (Hnew : first_sightings
                   (page_ids (concat ([page_one; page_two] :: replicate 116 [page_two]))) ∅
                 = ["A"; "B"]) by (vm_compute; reflexivity).
  assert (Hlast : ¬ carries_token page_two) by (intros (t & Ht & _); discriminate).
  assert (Hwalk : ∀ ok : string → Prop, ok "A" → ok "B" →
            Forall (walkable 2 ok) ([page_one; page_two] :: replicate 116 [page_two])).
  { intros ok HA HB. constructor.
    - split; [| split; [simpl; lia | repeat constructor; assumption]].
      exists [page_one], page_two. split; [reflexivity |]. split; [| exact Hlast].
      repeat constructor. exists "t1". split; [reflexivity | discriminate].
    - apply Forall_replicate.
      split; [| split; [simpl; lia | repeat constructor; assumption]].
      exists [], page_two. split; [reflexivity |]. split; [constructor | exact Hlast]. }
  exists g, g'. split; [reflexivity |]. split; [reflexivity |].
  destruct (grid_run_from_script (fun _ => Some bar_x)
              ([page_one; page_two] :: replicate 116 [page_two]) [] 14 2 g g' Hg Hg')
    as [H1 H2].
  rewrite Hnew in H1, H2. split.
  - apply H1; [rewrite Hlen; reflexivity |]. apply Hwalk;
      (exists bar_x; split; [reflexivity | right; eexists; vm_compute; reflexivity]).
  - apply H2; [rewrite Hlen'; reflexivity |]. apply Hwalk;
      (exists bar_x; eexists; split; [reflexivity | vm_compute; reflexivity]).
Defined.

(** ** The filtered crawler keeps a sub-list of what the exhaustive one keeps *)

Lemma accepted_promo_accepted (det : gmap string json) (r : PlaceRecord) :
  accepted_promo det = Some r → accepted det = Some r.
Proof.
  unfold accepted_promo, accepted, Filtered.decide_place.
  destruct (py_in "websiteUri" det); [discriminate |].
  destruct (Filtered.place_types det) as [e | types]; [discriminate |].
  destruct (bool_decide (Filtered.promo_overlap types = ∅)); [discriminate |].
  change (Filtered.make_row det) with (Exhaustive.make_row det).
  destruct (Exhaustive.make_row det); [discriminate |]. intros H. exact H.
Qed.

Lemma alike_ret {P A} (a : A) : alike (@ret P A a) (ret a).
Proof. intros we wf H. split; [reflexivity | exact H]. Qed.

Lemma alike_bind {P A B} (me mf : M P A) (ke kf : A → M P B) :
  alike me mf → (∀ a, alike (ke a) (kf a)) → alike (bind me ke) (bind mf kf).
Proof.
  intros Hm Hk we wf H. unfold bind. specialize (Hm we wf H).
  destruct (me we) as [a we' | e we' | we'], (mf wf) as [b wf' | e' wf' | wf'];
    try exact I.
  - destruct Hm as [<- H']. apply Hk. exact H'.
  - destruct (ke a we'); exact I.
  - destruct (ke a we'); exact I.
Qed.

Lemma alike_emit {P} (ev ev' : event) :
  (∀ pid mask, ev ≠ EvDetails pid mask) →
  (∀ pid mask, ev' ≠ EvDetails pid mask) →
  alike (@emit P ev) (emit ev').
Proof.
  intros Hev Hev' we wf (Hp & Hs & Hf & Hr). split; [reflexivity |].
  repeat split; simpl; try assumption.
  rewrite !fetched_snoc_other by assumption. exact Hf.
Qed.

Lemma alike_for_each {P} (fe ff : string → M P unit) (pids : list string) :
  (∀ pid, alike (fe pid) (ff pid)) → alike (for_each pids fe) (for_each pids ff).
Proof.
  intros Hf. induction pids as [| pid pids IH]; [apply alike_ret |].
  simpl. apply alike_bind; [apply Hf | intros ?; exact IH].
Qed.

Lemma alike_page_loop {P} (ne nf : option string → M P SearchResponse)
  (ve vf : string → M P unit) :
  (∀ token, alike (ne token) (nf token)) →
  (∀ pid, alike (ve pid) (vf pid)) →
  ∀ fuel token page,
    alike (page_loop ne ve fuel token page) (page_loop nf vf fuel token page).
Proof.
  intros Hn Hv fuel. induction fuel as [| fuel IH]; intros token page.
  - intros we wf H. exact I.
  - simpl. apply alike_bind; [apply Hn |]. intros resp.
    apply alike_bind; [apply alike_emit; discriminate |]. intros ?.
    apply alike_bind; [apply alike_for_each; exact Hv |]. intros ?.
    destruct (negb (truthy_str (nextPageToken resp))); [apply alike_ret |].
    apply alike_bind; [apply alike_emit; discriminate | intros ?; apply IH].
Qed.

Lemma alike_for_enumerate {P} (fe ff : nat → float * float → M P unit)
  (pts pts' : list (float * float)) :
  Forall2 (fun pt pt' => ∀ idx, alike (fe idx pt) (ff idx pt')) pts pts' →
  ∀ i0, alike (for_enumerate i0 pts fe) (for_enumerate i0 pts' ff).
Proof.
  induction 1 as [| pt pt' pts pts' Hpt _ IH]; intros i0; [apply alike_ret |].
  simpl. apply alike_bind; [apply Hpt | intros ?; apply IH].
Qed.

(** The two visits of a place stay in step: [places.py] appends the record
    [exhaustive.py] appends, or nothing. *)
Lemma alike_visit {P} (pv : provider P) (pid : string) :
  alike (Exhaustive.visit pv pid) (Filtered.visit pv pid).
Proof.
  intros we wf (Hp & Hs & Hf & Hr).
  rewrite exhaustive_visit_eq, filtered_visit_eq. cbv zeta. rewrite <- Hs, <- Hp.
  destruct (decide (pid ∈ seen we)); [split; [reflexivity | repeat split; assumption] |].
  destruct ((fetch pv (prov we) pid).2) as [det |]; [| exact I].
  unfold Filtered.decide_place.
  destruct (py_in "websiteUri" det).
  - split; [reflexivity |]. repeat split; simpl; try assumption; try congruence.
    rewrite !fetched_snoc_details, Hf. reflexivity.
  - change (Filtered.make_row det) with (Exhaustive.make_row det).
    destruct (Exhaustive.make_row det) as [e | row];
      [destruct (Filtered.place_types det) as [e' | types];
       [exact I | destruct (bool_decide (Filtered.promo_overlap types = ∅)); exact I] |].
    destruct (Filtered.place_types det) as [e' | types]; [exact I |].
    destruct (bool_decide (Filtered.promo_overlap types = ∅)).
    + split; [reflexivity |]. repeat split; simpl; try assumption; try congruence.
      * rewrite !fetched_snoc_details, Hf. reflexivity.
      * apply sublist_inserts_r. exact Hr.
    + split; [reflexivity |]. repeat split; simpl; try assumption; try congruence.
      * rewrite !fetched_snoc_details, Hf. reflexivity.
      * apply sublist_app; [exact Hr | reflexivity].
Qed.

(** Two searches that the provider answers alike. *)
Lemma alike_search {P} (pv : provider P) (b b' : body) (mask mask' : string) :
  (∀ p, search pv p b = search pv p b') →
  alike (x <- post_search pv b mask ;; json_or_raise x)
        (x <- post_search pv b' mask' ;; json_or_raise x).
Proof.
  intros Hb we wf (Hp & Hs & Hf & Hr). unfold bind, post_search.
  rewrite <- Hp, <- Hb. destruct (search pv (prov we) b) as [p' [r |]]; simpl; [| exact I].
  split; [reflexivity |]. repeat split; simpl; try assumption.
  rewrite !fetched_snoc_other by discriminate. exact Hf.
Qed.

Lemma alike_walk {P} (pv : provider P) (fuel : nat) (lat lon lat' lon' : float) :
  (∀ token p, search pv p (Exhaustive.nearby_body lat lon token)
              = search pv p (Filtered.nearby_body lat' lon' token)) →
  alike (Exhaustive.walk pv fuel lat lon None 0) (Filtered.walk pv fuel lat' lon' None 0).
Proof.
  intros Hb we wf H. rewrite exhaustive_walk_loop, filtered_walk_loop. revert we wf H.
  apply alike_page_loop.
  - intros token. apply alike_search. intros p. apply Hb.
  - apply alike_visit.
Qed.

Lemma alike_export {P} : alike (@Exhaustive.export P) Exhaustive.export.
Proof.
  intros we wf (Hp & Hs & Hf & Hr). rewrite !export_eq. split; [reflexivity |].
  repeat split; simpl; try assumption.
  rewrite !fetched_app, Hf. f_equal. destruct (rows we), (rows wf); reflexivity.
Qed.

Lemma lockstep_refl {P} (w : world P) : lockstep w w.
Proof. repeat split; reflexivity. Qed.

Lemma grids_same_length (fuel : nat) (g g' : list (float * float)) :
  Exhaustive.grid_points fuel = Some g → Filtered.grid fuel = Some g' →
  length g = length g'.
Proof.
  unfold Exhaustive.grid_points, Exhaustive.grid, Filtered.grid.
  rewrite !filtered_frange_rounds.
  change Filtered.LAT_MIN with Exhaustive.LAT_MIN.
  change Filtered.LAT_MAX with Exhaustive.LAT_MAX.
  change Filtered.LAT_STEP with Exhaustive.LAT_STEP.
  change Filtered.LON_MIN with Exhaustive.LON_MIN.
  change Filtered.LON_MAX with Exhaustive.LON_MAX.
  change Filtered.LON_STEP with Exhaustive.LON_STEP.
  destruct (Exhaustive.frange fuel Exhaustive.LAT_MIN Exhaustive.LAT_MAX Exhaustive.LAT_STEP)
    as [lats |]; [| discriminate].
  destruct (Exhaustive.frange fuel Exhaustive.LON_MIN Exhaustive.LON_MAX Exhaustive.LON_STEP)
    as [lons |]; [| discriminate].
  simpl. intros H H'. injection H as <-. injection H' as <-.
  rewrite !product_length, !length_fmap. reflexivity.
Qed.

(** X19: places.py against exhaustive.py, run against the same provider.
    Over the same scan points, whenever both crawls end normally they have
    left the provider in the same state, seen and fetched the same ids in
    the same order, and the rows of places.py are a sub-list of the rows of
    exhaustive.py: the category test only removes rows, it never adds or
    alters one.  The same holds for the two whole programs, whose scan
    points differ by the rounding, against a provider that answers a search
    whatever circle it carries.  Nothing is said of a run that an exception
    stops: either program can stop where the other goes on.  And every
    record places.py accepts from a response, exhaustive.py accepts from
    it as the same record. *)
Theorem filtered_rows_among_exhaustive {P} (pv : provider P) (fuel grid_fuel : nat)
  (pts : list (float * float)) (w : world P) (p0 : P) :
  (∀ we wf,
     Exhaustive.crawl pv fuel pts w = Done tt we →
     Filtered.crawl pv fuel pts w = Done tt wf →
     lockstep we wf)
  ∧ ((∀ p b b', search pv p b = search pv p b') →
     ∀ we wf,
       Exhaustive.main pv grid_fuel fuel (init p0) = Done tt we →
       Filtered.main pv grid_fuel fuel (init p0) = Done tt wf →
       lockstep we wf)
  ∧ (∀ det r, accepted_promo det = Some r →
              accepted det = Some r
              ∧ det !! "websiteUri" = None
              ∧ Exhaustive.make_row det = inr r).
Proof.
  split; [| split].
  - intros we wf Ee Ef.
    assert (H : alike (Exhaustive.crawl pv fuel pts) (Filtered.crawl pv fuel pts)).
    { unfold Exhaustive.crawl, Filtered.crawl. apply alike_for_enumerate.
      apply Forall_Forall2_diag, Forall_forall. intros [lat lon] _ idx.
      apply alike_bind; [apply alike_emit; discriminate |]. intros ?.
      apply alike_walk. reflexivity. }
    specialize (H w w (lockstep_refl w)). rewrite Ee, Ef in H. exact (proj2 H).
  - intros Hbody we wf. unfold Exhaustive.main, Filtered.main.
    destruct (Exhaustive.grid_points grid_fuel) as [g |] eqn:Hg; [| discriminate].
    destruct (Filtered.grid grid_fuel) as [g' |] eqn:Hg'; [| discriminate].
    intros Ee Ef.
    assert (H : alike (print (MsgGrid (length g)) ;; Exhaustive.crawl pv fuel g ;;
                       Exhaustive.export)
                      (print (MsgGrid (length g')) ;; Filtered.crawl pv fuel g' ;;
                       Filtered.export)).
    { apply alike_bind; [apply alike_emit; discriminate |]. intros ?.
      apply alike_bind; [| intros ?; exact alike_export].
      unfold Exhaustive.crawl, Filtered.crawl. apply alike_for_enumerate.
      apply Forall2_true; [| exact (grids_same_length grid_fuel g g' Hg Hg')].
      intros [lat lon] [lat' lon'] idx.
      apply alike_bind; [apply alike_emit; discriminate |]. intros ?.
      apply alike_walk. intros token p. apply Hbody. }
    specialize (H (init p0) (init p0) (lockstep_refl _)). rewrite Ee, Ef in H.
    exact (proj2 H).
  - intros det r Hp. pose proof (accepted_promo_accepted det r Hp) as Ha.
    split; [exact Ha |]. unfold accepted in Ha.
    destruct (py_in "websiteUri" det) eqn:Hsite; [discriminate |].
    split.
    + destruct (det !! "websiteUri") eqn:Hw; [| reflexivity].
      assert (py_in "websiteUri" det = true) by (apply py_in_true; rewrite Hw; eauto).
      congruence.
    + destruct (Exhaustive.make_row det); [discriminate | congruence].
Qed.

Lemma filtered_rows_among_exhaustive_witness :
  ∃ we wf,
    Exhaustive.main (scripted bar_and_park) 14 1 (init (replicate 117 ab_page)) = Done tt we
    ∧ Filtered.main (scripted bar_and_park) 14 1 (init (replicate 117 ab_page)) = Done tt wf
    ∧ lockstep we wf
    ∧ length (rows we) = 2%nat
    ∧ length (rows wf) = 1%nat.
Proof.
  assert (Ee : ∃ we, Exhaustive.main (scripted bar_and_park) 14 1
                       (init (replicate 117 ab_page)) = Done tt we
                     ∧ length (rows we) = 2%nat)
    by (vm_compute; eexists; split; reflexivity).
  assert (Ef : ∃ wf, Filtered.main (scripted bar_and_park) 14 1
                       (init (replicate 117 ab_page)) = Done tt wf
                     ∧ length (rows wf) = 1%nat)
    by (vm_compute; eexists; split; reflexivity).
  destruct Ee as (we & Ee & Hne). destruct Ef as (wf & Ef & Hnf).
  exists we, wf. split; [exact Ee |]. split; [exact Ef |].
  split; [| split; assumption].
  apply (proj1 (proj2 (filtered_rows_among_exhaustive (scripted bar_and_park) 1 14 []
                         (init (replicate 117 ab_page)) (replicate 117 ab_page)))).
  - intros p b b'. reflexivity.
  - exact Ee.
  - exact Ef.
Defined.

(** ** only_phone.py: repeated field names *)

Lemma last_index_None (k : string) (ks : list string) :
  last_index k ks = None ↔ k ∉ ks.
Proof.
  induction ks as [| k0 ks IH]; simpl.
  - split; [intros _; apply not_elem_of_nil | reflexivity].
  - destruct (last_index k ks) as [j |].
    + split; [discriminate |]. intros Hn. exfalso.
      apply not_elem_of_cons in Hn as [_ Hn]. apply IH in Hn. discriminate.
    + destruct (decide (k0 = k)) as [-> | Hne].
      * split; [discriminate |]. intros Hn. exfalso. apply Hn. left.
      * split; [| reflexivity]. intros _. apply not_elem_of_cons. split; [congruence |].
        apply IH. reflexivity.
Qed.

Lemma last_index_Some (k : string) (ks : list string) (j : nat) :
  last_index k ks = Some j
  ↔ ks !! j = Some k ∧ ∀ j', (j < j')%nat → ks !! j' ≠ Some k.
Proof.
  revert j. induction ks as [| k0 ks IH]; intros j; simpl.
  - split; [discriminate | intros [H _]; discriminate].
  - destruct (last_index k ks) as [i |] eqn:Hi.
    + split.
      * intros H. injection H as <-. destruct (proj1 (IH i) eq_refl) as [Hk Hafter].
        split; [exact Hk |]. intros [| j'] Hlt; [lia |]. simpl. apply Hafter. lia.
      * intros [Hk Hafter]. destruct j as [| j].
        -- exfalso. pose proof (proj1 (IH i) eq_refl) as [Hki _].
           apply (Hafter (S i)); [lia | exact Hki].
        -- f_equal. f_equal. simpl in Hk.
           assert (Hj : Some i = Some j); [| congruence].
           apply IH. split; [exact Hk |]. intros j' Hlt. apply (Hafter (S j')). lia.
    + apply last_index_None in Hi.
      destruct (decide (k0 = k)) as [-> | Hne].
      * split.
        -- intros H. injection H as <-. split; [reflexivity |].
           intros [| j'] Hlt; [lia |]. simpl. intros Hk. apply Hi.
           eapply list_elem_of_lookup_2. exact Hk.
        -- intros [Hk _]. destruct j as [| j]; [reflexivity |]. simpl in Hk.
           exfalso. apply Hi. eapply list_elem_of_lookup_2. exact Hk.
      * split; [discriminate |]. intros [Hk _]. destruct j as [| j]; simpl in Hk.
        -- congruence.
        -- exfalso. apply Hi. eapply list_elem_of_lookup_2. exact Hk.
Qed.

Lemma last_index_app (k : string) (ks1 ks2 : list string) :
  last_index k (ks1 ++ ks2)
  = match last_index k ks2 with
    | Some j => Some (length ks1 + j)%nat
    | None => last_index k ks1
    end.
Proof.
  induction ks1 as [| k0 ks1 IH]; simpl.
  - destruct (last_index k ks2); reflexivity.
  - rewrite IH. destruct (last_index k ks2); reflexivity.
Qed.

Lemma zip_dict_lookup {V} (ks : list string) (vs : list V) (d : gmap string V) (k : string) :
  foldl (fun d kv => <[kv.1 := kv.2]> d) d (zip ks vs) !! k
  = match last_index k (take (length vs) ks) with
    | Some j => vs !! j
    | None => d !! k
    end.
Proof.
  revert vs d. induction ks as [| k0 ks IH]; intros vs d.
  - destruct vs; reflexivity.
  - destruct vs as [| v0 vs]; [reflexivity |].
    cbn [zip zip_with foldl length take last_index fst snd]. rewrite IH.
    destruct (last_index k (take (length vs) ks)) as [j |]; [reflexivity |].
    destruct (decide (k0 = k)) as [-> | Hne].
    + apply lookup_insert_eq.
    + apply lookup_insert_ne. exact Hne.
Qed.

Lemma row_get_last_index (fieldnames record : list string) (k : string) :
  OnlyPhone.row_get (OnlyPhone.read_row fieldnames record) k
  = match last_index k fieldnames with
    | Some j => record !! j
    | None => None
    end.
Proof.
  unfold OnlyPhone.row_get, OnlyPhone.read_row, OnlyPhone.py_dict.
  destruct (length fieldnames <? length record)%nat eqn:Hlt; simpl.
  - apply Nat.ltb_lt in Hlt. rewrite zip_dict_lookup, length_fmap.
    rewrite take_ge by lia.
    destruct (last_index k fieldnames) as [j |]; [| reflexivity].
    rewrite list_lookup_fmap. destruct (record !! j); reflexivity.
  - apply Nat.ltb_ge in Hlt. rewrite fill_none_lookup.
    rewrite <- (take_drop (length record) fieldnames) at 3.
    rewrite last_index_app, length_take, Nat.min_l by exact Hlt.
    destruct (decide (k ∈ drop (length record) fieldnames)) as [Hin | Hin].
    + destruct (last_index k (drop (length record) fieldnames)) as [j |] eqn:Hj.
      * simpl. symmetry. apply lookup_ge_None. lia.
      * apply last_index_None in Hj. contradiction.
    + rewrite (proj2 (last_index_None k _) Hin).
      rewrite zip_dict_lookup, length_fmap.
      destruct (last_index k (take (length record) fieldnames)) as [j |]; [| reflexivity].
      rewrite list_lookup_fmap. destruct (record !! j); reflexivity.
Qed.

(** X20: what the reader files under a field name.  For any header and any
    record, [row.get(k)] is the cell at the last place where [k] stands in
    the header ([None] when the record is too short to have that cell, or
    when [k] is no field name): with a repeated field name the last column
    of that name wins, for the phone test and for every column of that name
    in the row written; writing the row back fails exactly when the record
    is longer than the header, and otherwise gives that cell, column by
    column, empty when missing. *)
Theorem read_row_last_cell_wins (fieldnames record : list string) (k : string) :
  OnlyPhone.row_get (OnlyPhone.read_row fieldnames record) k
  = match last_index k fieldnames with
    | Some j => record !! j
    | None => None
    end
  ∧ (∀ j, last_index k fieldnames = Some j
          ↔ fieldnames !! j = Some k ∧ ∀ j', (j < j')%nat → fieldnames !! j' ≠ Some k)
  ∧ (last_index k fieldnames = None ↔ k ∉ fieldnames)
  ∧ OnlyPhone.write_row fieldnames (OnlyPhone.read_row fieldnames record)
    = if (length fieldnames <? length record)%nat then inl ValueError
      else inr ((fun key => default "" (match last_index key fieldnames with
                                        | Some j => record !! j
                                        | None => None
                                        end)) <$> fieldnames).
Proof.
  split; [apply row_get_last_index |].
  split; [intros j; apply last_index_Some |].
  split; [apply last_index_None |].
  unfold OnlyPhone.write_row.
  destruct (length fieldnames <? length record)%nat eqn:Hlt.
  - unfold OnlyPhone.read_row. rewrite Hlt. reflexivity.
  - assert (Hrest : OnlyPhone.rest (OnlyPhone.read_row fieldnames record) = None)
      by (unfold OnlyPhone.read_row; rewrite Hlt; reflexivity).
    rewrite Hrest. f_equal. apply list_fmap_ext. intros i key _.
    rewrite row_get_last_index. reflexivity.
Qed.

(** A header with the phone column twice: the record is kept for its last
    phone cell, which is written in both columns. *)
Lemma only_phone_repeated_column :
  OnlyPhone.main [["phone"; "name"; "phone"]; [""; "a"; "5"]; ["7"; "b"; ""]]
  = ([["phone"; "name"; "phone"]; ["5"; "a"; "5"]], None).
Proof. vm_compute. reflexivity. Qed.

(** ** The configured scan points *)

Lemma frange_more_fuel (fuel k : nat) (x stop step : float) (l : list float) :
  Exhaustive.frange fuel x stop step = Some l →
  Exhaustive.frange (fuel + k) x stop step = Some l.
Proof.
  revert x l. induction fuel as [| fuel IH]; intros x l; [discriminate |].
  simpl. destruct (PrimFloat.ltb x stop); [| intros H; exact H].
  destruct (Exhaustive.frange fuel (PrimFloat.add x step) stop step) as [l' |] eqn:E;
    [| discriminate].
  rewrite (IH _ _ E). intros H. exact H.
Qed.

(** X21: the circles the two grid crawlers are configured to scan.  With
    at least 14 tests allowed to each range loop (the longitude range has
    13 points), the grid is built, and
    the scan points of places.py are the 9 by 13 two-decimal coordinates
    from 32.42 to 32.58 and from -117.13 to -116.89, while those of
    exhaustive.py, which does not round, drift from them by the error
    accumulated in the repeated additions (its second latitude is
    32.440000000000005, its last longitude -116.89000000000004). *)
Theorem configured_scan_points (fuel : nat) :
  (14 ≤ fuel)%nat →
  Filtered.grid fuel
  = Some (product [32.42; 32.44; 32.46; 32.48; 32.5; 32.52; 32.54; 32.56; 32.58]%float
            [-117.13; -117.11; -117.09; -117.07; -117.05; -117.03; -117.01;
             -116.99; -116.97; -116.95; -116.93; -116.91; -116.89]%float)
  ∧ Exhaustive.grid_points fuel
    = Some (product [32.42; 32.440000000000005; 32.46000000000001; 32.48000000000001;
                     32.500000000000014; 32.52000000000002; 32.54000000000002;
                     32.560000000000024; 32.58000000000003]%float
              [-117.13; -117.11; -117.09; -117.07000000000001; -117.05000000000001;
               -117.03000000000002; -117.01000000000002; -116.99000000000002;
               -116.97000000000003; -116.95000000000003; -116.93000000000004;
               -116.91000000000004; -116.89000000000004]%float).
Proof.
  intros Hfuel. replace fuel with (14 + (fuel - 14))%nat by lia.
  generalize (fuel - 14)%nat. intros k.
  assert (Hlat : Exhaustive.frange 14 Exhaustive.LAT_MIN Exhaustive.LAT_MAX Exhaustive.LAT_STEP
                 = Some [32.42; 32.440000000000005; 32.46000000000001; 32.48000000000001;
                         32.500000000000014; 32.52000000000002; 32.54000000000002;
                         32.560000000000024; 32.58000000000003]%float)
    by (vm_compute; reflexivity).
  assert (Hlon : Exhaustive.frange 14 Exhaustive.LON_MIN Exhaustive.LON_MAX Exhaustive.LON_STEP
                 = Some [-117.13; -117.11; -117.09; -117.07000000000001; -117.05000000000001;
                         -117.03000000000002; -117.01000000000002; -116.99000000000002;
                         -116.97000000000003; -116.95000000000003; -116.93000000000004;
                         -116.91000000000004; -116.89000000000004]%float)
    by (vm_compute; reflexivity).
  apply (frange_more_fuel 14 k) in Hlat, Hlon. split.
  - unfold Filtered.grid. rewrite !filtered_frange_rounds.
    change Filtered.LAT_MIN with Exhaustive.LAT_MIN.
    change Filtered.LAT_MAX with Exhaustive.LAT_MAX.
    change Filtered.LAT_STEP with Exhaustive.LAT_STEP.
    change Filtered.LON_MIN with Exhaustive.LON_MIN.
    change Filtered.LON_MAX with Exhaustive.LON_MAX.
    change Filtered.LON_STEP with Exhaustive.LON_STEP.
    rewrite Hlat, Hlon. vm_compute. reflexivity.
  - unfold Exhaustive.grid_points, Exhaustive.grid. rewrite Hlat, Hlon. reflexivity.
Qed.

Lemma configured_scan_points_witness :
  (14 ≤ 20)%nat
  ∧ Filtered.grid 20
    = Some (product [32.42; 32.44; 32.46; 32.48; 32.5; 32.52; 32.54; 32.56; 32.58]%float
              [-117.13; -117.11; -117.09; -117.07; -117.05; -117.03; -117.01;
               -116.99; -116.97; -116.95; -116.93; -116.91; -116.89]%float)
  ∧ Exhaustive.grid_points 20
    = Some (product [32.42; 32.440000000000005; 32.46000000000001; 32.48000000000001;
                     32.500000000000014; 32.52000000000002; 32.54000000000002;
                     32.560000000000024; 32.58000000000003]%float
              [-117.13; -117.11; -117.09; -117.07000000000001; -117.05000000000001;
               -117.03000000000002; -117.01000000000002; -116.99000000000002;
               -116.97000000000003; -116.95000000000003; -116.93000000000004;
               -116.91000000000004; -116.89000000000004]%float).
Proof. split; [lia | apply (configured_scan_points 20); lia]. Defined.

(** ** A request that fails *)

(** X22: no request is retried and no failure is skipped.  When the search
    of a round is answered with an error status, the walk stops there with
    the HTTP error, the failed search being its last request (the
    single-circle crawler prints its diagnostic first); when the detail
    request of a place not seen before is answered with an error status,
    the visit stops with the HTTP error, no row added, the id left in the
    seen set of the grid crawlers. *)
Theorem failed_request_stops_walk {P} (pv : provider P) (fuel : nat) (lat lon : float)
  (token : option string) (page : nat) (pid : string) (w : world P) (p' : P) :
  (∀ b, search pv (prov w) b = (p', None)) →
  fetch pv (prov w) pid = (p', None) →
  pid ∉ seen w →
  Exhaustive.walk pv (S fuel) lat lon token page w
  = Raised HTTPError
      (World p' (seen w) (rows w)
         (trace w ++ [EvSearch (Exhaustive.nearby_body lat lon token) "places.id"]))
  ∧ Filtered.walk pv (S fuel) lat lon token page w
    = Raised HTTPError
        (World p' (seen w) (rows w)
           (trace w ++ [EvSearch (Filtered.nearby_body lat lon token) "places.id"]))
  ∧ SingleCircle.crawl pv (S fuel) token page w
    = Raised HTTPError
        (World p' (seen w) (rows w)
           (trace w ++ [EvSearch (SingleCircle.nearby_body token)
                          "places.id,places.displayName,places.formattedAddress";
                        EvPrint MsgSearchError]))
  ∧ Exhaustive.visit pv pid w
    = Raised HTTPError
        (World p' ({[pid]} ∪ seen w) (rows w)
           (trace w ++ [EvDetails pid
              "displayName,formattedAddress,internationalPhoneNumber,nationalPhoneNumber,websiteUri"]))
  ∧ Filtered.visit pv pid w
    = Raised HTTPError
        (World p' ({[pid]} ∪ seen w) (rows w)
           (trace w ++ [EvDetails pid
              "displayName,formattedAddress,internationalPhoneNumber,nationalPhoneNumber,websiteUri,types,primaryType"]))
  ∧ SingleCircle.visit pv pid w
    = Raised HTTPError
        (World p' (seen w) (rows w)
           (trace w ++ [EvDetails pid
              "displayName,formattedAddress,internationalPhoneNumber,nationalPhoneNumber,websiteUri";
                        EvPrint (MsgDetailsError pid)])).
Proof.
  intros Hs Hf Hn. repeat split.
  - simpl. unfold Exhaustive.nearby, bind, post_search. rewrite Hs. reflexivity.
  - simpl. unfold Filtered.nearby, bind, post_search. rewrite Hs. reflexivity.
  - simpl. unfold SingleCircle.nearby_page, bind, post_search, print, emit. rewrite Hs.
    simpl. rewrite <- app_assoc. reflexivity.
  - rewrite exhaustive_visit_eq. cbv zeta. rewrite decide_False by exact Hn.
    rewrite Hf. reflexivity.
  - rewrite filtered_visit_eq. cbv zeta. rewrite decide_False by exact Hn.
    rewrite Hf. reflexivity.
  - rewrite single_visit_eq. cbv zeta. rewrite Hf. simpl. rewrite <- app_assoc. reflexivity.
Qed.

Lemma failed_request_stops_walk_witness :
  Exhaustive.walk down 5 32.42 (-117.13) None 0 (init tt)
  = Raised HTTPError
      (World tt ∅ []
         ([] ++ [EvSearch (Exhaustive.nearby_body 32.42 (-117.13) None) "places.id"]))
  ∧ Filtered.walk down 5 32.42 (-117.13) None 0 (init tt)
    = Raised HTTPError
        (World tt ∅ []
           ([] ++ [EvSearch (Filtered.nearby_body 32.42 (-117.13) None) "places.id"]))
  ∧ SingleCircle.crawl down 5 None 0 (init tt)
    = Raised HTTPError
        (World tt ∅ []
           ([] ++ [EvSearch (SingleCircle.nearby_body None)
                     "places.id,places.displayName,places.formattedAddress";
                   EvPrint MsgSearchError]))
  ∧ Exhaustive.visit down "A" (init tt)
    = Raised HTTPError
        (World tt ({["A"]} ∪ ∅) []
           ([] ++ [EvDetails "A"
              "displayName,formattedAddress,internationalPhoneNumber,nationalPhoneNumber,websiteUri"]))
  ∧ Filtered.visit down "A" (init tt)
    = Raised HTTPError
        (World tt ({["A"]} ∪ ∅) []
           ([] ++ [EvDetails "A"
              "displayName,formattedAddress,internationalPhoneNumber,nationalPhoneNumber,websiteUri,types,primaryType"]))
  ∧ SingleCircle.visit down "A" (init tt)
    = Raised HTTPError
        (World tt ∅ []
           ([] ++ [EvDetails "A"
              "displayName,formattedAddress,internationalPhoneNumber,nationalPhoneNumber,websiteUri";
                   EvPrint (MsgDetailsError "A")])).
Proof.
  apply (failed_request_stops_walk down 4 32.42 (-117.13) None 0 "A" (init tt) tt).
  - intros b. reflexivity.
  - reflexivity.
  - apply not_elem_of_empty.
Defined.

(** ** A walk goes on through tokens only *)

Lemma for_each_ended {P} (visit : string → M P unit) (pids : list string) (w : world P) :
  (∀ pid w, ended (visit pid w) ∧ quietly_after (trace w) (final (visit pid w))) →
  ended (for_each pids visit w)
  ∧ quietly_after (trace w) (final (for_each pids visit w)).
Proof.
  intros Hv.
  destruct (for_each_script_any visit (fun _ => tt) pids w) as (He & _ & Hq).
  - intros pid w0. destruct (Hv pid w0) as [He Hq]. auto.
  - auto.
Qed.

Lemma page_loop_cut {P} (nearby : option string → M P SearchResponse)
  (visit : string → M P unit) :
  (∀ token w, ended (nearby token w)
              ∧ search_count (trace (final (nearby token w))) = S (search_count (trace w))) →
  (∀ pid w, ended (visit pid w) ∧ quietly_after (trace w) (final (visit pid w))) →
  ∀ fuel token page w w',
    page_loop nearby visit fuel token page w = OutOfFuel w' →
    search_count (trace w') = (search_count (trace w) + fuel)%nat
    ∧ (fuel ≠ 0%nat → ∃ tr, trace w' = tr ++ [EvSleep 2]).
Proof.
  intros Hnear Hvisit fuel. induction fuel as [| fuel IH]; intros token page w w' E.
  - change (@OutOfFuel P unit w = OutOfFuel w') in E. injection E as <-. split; [lia | contradiction].
  - simpl in E. unfold bind in E.
    destruct (Hnear token w) as [He1 Hc1].
    destruct (nearby token w) as [r w1 | e w1 | w1];
      cbv beta iota in E; [| discriminate E | contradiction].
    simpl in Hc1.
    set (w2 := final (print (MsgPage (S page) (length (default [] (places r)))) w1)) in *.
    change (print (MsgPage (S page) (length (default [] (places r)))) w1)
      with (Done tt w2) in E.
    cbv beta iota in E.
    destruct (for_each_ended visit (default [] (places r)) w2 Hvisit) as [He3 (evs & Ht3 & Hq)].
    destruct (for_each (default [] (places r)) visit w2) as [[] w3 | e w3 | w3];
      cbv beta iota in E; [| discriminate E | contradiction].
    simpl in Ht3.
    destruct (truthy_str (nextPageToken r)); cbn [negb] in E; cbv beta iota in E;
      [| discriminate E].
    set (w4 := final (sleep 2 w3)) in *.
    change (sleep 2 w3) with (Done tt w4) in E.
    assert (Hc4 : search_count (trace w4) = S (search_count (trace w))).
    { unfold w4, sleep, emit. simpl. rewrite search_count_app, Ht3, search_count_app.
      rewrite (search_count_quiet evs Hq). unfold w2, print, emit. simpl.
      rewrite search_count_app, Hc1. unfold search_count. simpl. lia. }
    destruct (IH _ _ _ _ E) as [Hc Hlast]. split; [rewrite Hc, Hc4; lia |].
    intros _. destruct fuel as [| fuel].
    + change (@OutOfFuel P unit w4 = OutOfFuel w') in E. injection E as <-.
      exists (trace w3). reflexivity.
    + apply Hlast. discriminate.
Qed.

Lemma search_ended {P} (pv : provider P) (b : body) (mask : string) (w : world P) :
  ended ((x <- post_search pv b mask ;; json_or_raise x) w)
  ∧ search_count (trace (final ((x <- post_search pv b mask ;; json_or_raise x) w)))
    = S (search_count (trace w)).
Proof.
  unfold bind, post_search. destruct (search pv (prov w) b) as [p' [r |]]; simpl;
    (split; [exact I |]); rewrite search_count_app; unfold search_count; simpl; lia.
Qed.

Lemma exhaustive_visit_ended {P} (pv : provider P) (pid : string) (w : world P) :
  ended (Exhaustive.visit pv pid w).
Proof.
  rewrite exhaustive_visit_eq. cbv zeta. destruct (decide (pid ∈ seen w)); [exact I |].
  destruct ((fetch pv (prov w) pid).2) as [det |]; [| exact I].
  destruct (py_in "websiteUri" det); [exact I |].
  destruct (Exhaustive.make_row det); exact I.
Qed.

Lemma filtered_visit_ended {P} (pv : provider P) (pid : string) (w : world P) :
  ended (Filtered.visit pv pid w).
Proof.
  rewrite filtered_visit_eq. cbv zeta. destruct (decide (pid ∈ seen w)); [exact I |].
  destruct ((fetch pv (prov w) pid).2) as [det |]; [| exact I].
  destruct (Filtered.decide_place det) as [e | [r |]]; exact I.
Qed.

Lemma single_visit_ended {P} (pv : provider P) (pid : string) (w : world P) :
  ended (SingleCircle.visit pv pid w).
Proof.
  rewrite single_visit_eq. cbv zeta.
  destruct ((fetch pv (prov w) pid).2) as [det |]; [| exact I].
  destruct (py_in "websiteUri" det); [exact I |].
  destruct (SingleCircle.make_row det); exact I.
Qed.

(** X23: a walk goes on through tokens only.  With any provider, nothing
    in a round can keep the loop running but a page with a non-empty
    token: if the walk of either grid crawler, or the loop of the
    single-circle crawler, is still running after [fuel] rounds, then it
    has sent exactly [fuel] searches, one per round, and the last thing it
    did was the two-second pause that follows a page with a token. *)
Theorem walk_cut_only_after_token {P} (pv : provider P) (fuel : nat) (lat lon : float)
  (token : option string) (page : nat) (w w' : world P) :
  Exhaustive.walk pv fuel lat lon token page w = OutOfFuel w'
  ∨ Filtered.walk pv fuel lat lon token page w = OutOfFuel w'
  ∨ SingleCircle.crawl pv fuel token page w = OutOfFuel w' →
  search_count (trace w') = (search_count (trace w) + fuel)%nat
  ∧ (fuel ≠ 0%nat → ∃ tr, trace w' = tr ++ [EvSleep 2]).
Proof.
  intros [E | [E | E]].
  - rewrite exhaustive_walk_loop in E. revert E. apply page_loop_cut.
    + intros tok w0. apply search_ended.
    + intros pid w0. split; [apply exhaustive_visit_ended | apply exhaustive_visit_quiet].
  - rewrite filtered_walk_loop in E. revert E. apply page_loop_cut.
    + intros tok w0. apply search_ended.
    + intros pid w0. split; [apply filtered_visit_ended | apply filtered_visit_quiet].
  - rewrite single_crawl_loop in E. revert E. apply page_loop_cut.
    + intros tok w0. unfold SingleCircle.nearby_page, bind, post_search, print, emit.
      destruct (search pv (prov w0) (SingleCircle.nearby_body tok)) as [p' [r |]]; simpl;
        (split; [exact I |]); rewrite ?search_count_app; unfold search_count; simpl; lia.
    + intros pid w0. split; [apply single_visit_ended | apply single_visit_quiet].
Qed.

Lemma walk_cut_only_after_token_witness :
  ∃ w', Exhaustive.walk endless 3 32.42 (-117.13) None 0 (init 0%nat) = OutOfFuel w'
        ∧ search_count (trace w') = (search_count (trace (init 0%nat)) + 3)%nat
        ∧ (3%nat ≠ 0%nat → ∃ tr, trace w' = tr ++ [EvSleep 2]).
Proof.
  destruct (Exhaustive.walk endless 3 32.42 (-117.13) None 0 (init 0%nat))
    as [u w' | e w' | w'] eqn:E; [vm_compute in E; discriminate | vm_compute in E; discriminate |].
  exists w'. split; [reflexivity |].
  apply (walk_cut_only_after_token endless 3 32.42 (-117.13) None 0 (init 0%nat) w').
  left. exact E.
Defined.

(** ** only_phone.py on its own output *)

Lemma truthy_default (o : option string) :
  truthy_str o = negb (String.eqb (default "" o) "").
Proof. destruct o; reflexivity. Qed.

Lemma strip_default (o : option string) :
  truthy_str (OnlyPhone.strip <$> o)
  = negb (String.eqb (OnlyPhone.strip (default "" o)) "").
Proof. destruct o; reflexivity. Qed.

Lemma opt_or_default (a b : option string) :
  default "" (OnlyPhone.opt_or a b)
  = if negb (String.eqb (default "" a) "") then default "" a else default "" b.
Proof. unfold OnlyPhone.opt_or. rewrite truthy_default. destruct (negb _); reflexivity. Qed.

(** The test of line 14 reads the four values as texts: a missing value
    and an empty one are the same to it. *)
Lemma keeps_by_texts (r r' : OnlyPhone.row) :
  (∀ k, default "" (OnlyPhone.row_get r k) = default "" (OnlyPhone.row_get r' k)) →
  OnlyPhone.keeps r = OnlyPhone.keeps r'.
Proof.
  intros H. unfold OnlyPhone.keeps, OnlyPhone.phone_of. cbv zeta.
  rewrite !strip_default, !truthy_default, !opt_or_default, !H. reflexivity.
Qed.

Lemma keeps_pad (fieldnames record : list string) :
  (length record ≤ length fieldnames)%nat →
  OnlyPhone.keeps (OnlyPhone.read_row fieldnames (pad (length fieldnames) record))
  = OnlyPhone.keeps (OnlyPhone.read_row fieldnames record).
Proof.
  intros Hlen. apply keeps_by_texts. intros k. rewrite !row_get_last_index.
  destruct (last_index k fieldnames) as [j |] eqn:Hj; [| reflexivity].
  apply last_index_Some in Hj as [Hk _]. apply lookup_lt_Some in Hk.
  rewrite pad_lookup by assumption. reflexivity.
Qed.

Lemma filter_all {A} (P : A → Prop) `{∀ x, Decision (P x)} (l : list A) :
  Forall P l → filter P l = l.
Proof.
  induction 1 as [| x l Hx _ IH]; [reflexivity |].
  rewrite filter_cons, decide_True by exact Hx. rewrite IH. reflexivity.
Qed.

(** X24: only_phone.py is idempotent.  With distinct field names and an
    input on which it ends normally (no record longer than the header
    passes the test), the output is the header followed by the kept
    records, short ones completed with empty cells, and running the script
    again on that output gives the same file: every record of the output
    is non-blank, of full length and passes the test again. *)
Theorem only_phone_idempotent (fieldnames : list string) (records : list (list string)) :
  NoDup fieldnames →
  Forall (harmless fieldnames) records →
  let out := fieldnames :: (pad (length fieldnames) <$> kept_records fieldnames records) in
  OnlyPhone.main (fieldnames :: records) = (out, None)
  ∧ OnlyPhone.main out = (out, None).
Proof.
  intros Hnd Hh out. unfold out, OnlyPhone.main, OnlyPhone.read_rows, kept_records. split.
  - pose proof (filter_rows_harmless fieldnames (filter (fun record => record ≠ []) records)
                  [fieldnames] [] Hnd (harmless_nonblank _ _ Hh)) as H.
    rewrite app_nil_r in H. rewrite H. reflexivity.
  - set (kept := filter (fun record =>
                           OnlyPhone.keeps (OnlyPhone.read_row fieldnames record) = true)
                   (filter (fun record => record ≠ []) records)).
    assert (Hkept : Forall (fun record =>
                              record ≠ [] ∧ (length record ≤ length fieldnames)%nat
                              ∧ OnlyPhone.keeps (OnlyPhone.read_row fieldnames record) = true)
                      kept).
    { apply Forall_forall. intros record Hin. unfold kept in Hin.
      apply list_elem_of_filter in Hin as [Hk Hin].
      apply list_elem_of_filter in Hin as [Hne Hin].
      rewrite Forall_forall in Hh. destruct (Hh record Hin) as [Hlen | Hno]; [| congruence].
      auto. }
    assert (Hpadded : Forall (fun record =>
                                record ≠ [] ∧ length record = length fieldnames
                                ∧ OnlyPhone.keeps (OnlyPhone.read_row fieldnames record) = true)
                        (pad (length fieldnames) <$> kept)).
    { apply Forall_fmap. eapply Forall_impl; [exact Hkept |].
      intros record (Hne & Hlen & Hk). simpl. split; [| split].
      - unfold pad. destruct record; [contradiction | discriminate].
      - unfold pad. rewrite length_app, length_replicate. lia.
      - rewrite keeps_pad by exact Hlen. exact Hk. }
    rewrite (filter_all (fun record => record ≠ []));
      [| eapply Forall_impl; [exact Hpadded | intros record (H1 & _); exact H1]].
    rewrite filter_rows_fits;
      [| exact Hnd | eapply Forall_impl; [exact Hpadded | intros record (_ & H2 & _); exact H2]].
    rewrite (filter_all (fun record =>
                           OnlyPhone.keeps (OnlyPhone.read_row fieldnames record) = true));
      [reflexivity | eapply Forall_impl; [exact Hpadded | intros record (_ & _ & H3); exact H3]].
Qed.

Lemma only_phone_idempotent_witness :
  let fieldnames := ["phone"; "name"; "address"] in
  let records := [["1"; "a"; "x"]; ["  "; "b"; "y"; "z"]; []; ["3"]; [""; "d"]] in
  let out := fieldnames :: (pad (length fieldnames) <$> kept_records fieldnames records) in
  out = [["phone"; "name"; "address"]; ["1"; "a"; "x"]; ["3"; ""; ""]]
  ∧ OnlyPhone.main (fieldnames :: records) = (out, None)
  ∧ OnlyPhone.main out = (out, None).
Proof.
  cbv zeta. split; [vm_compute; reflexivity |].
  apply (only_phone_idempotent ["phone"; "name"; "address"]
           [["1"; "a"; "x"]; ["  "; "b"; "y"; "z"]; []; ["3"]; [""; "d"]]).
  - apply (bool_decide_unpack _). vm_compute. exact I.
  - repeat (apply Forall_cons; split;
            [first [left; simpl; lia | right; vm_compute; reflexivity] |]).
    apply Forall_nil; exact I.
Defined.

(** ** The category test comes before the record *)

(** X25: in places.py the category test comes before the record is built.
    A place without a website whose types meet none of the promoted ones
    is skipped there without its name or address being read, so details
    from which no record can be built (no ["displayName"], say) do not
    stop the run; the same details stop exhaustive.py, which builds the
    record of every place without a website. *)
Theorem category_test_precedes_record {P} (pv : provider P) (pid : string) (w : world P)
  (p' : P) (det : gmap string json) (types : gset atom) (e : exn) :
  pid ∉ seen w →
  fetch pv (prov w) pid = (p', Some det) →
  det !! "websiteUri" = None →
  Filtered.place_types det = inr types →
  Filtered.promo_overlap types = ∅ →
  Exhaustive.make_row det = inl e →
  Filtered.visit pv pid w
  = Done tt (World p' ({[pid]} ∪ seen w) (rows w)
               (trace w ++ [EvDetails pid
                  "displayName,formattedAddress,internationalPhoneNumber,nationalPhoneNumber,websiteUri,types,primaryType"]))
  ∧ Exhaustive.visit pv pid w
    = Raised e (World p' ({[pid]} ∪ seen w) (rows w)
                  (trace w ++ [EvDetails pid
                     "displayName,formattedAddress,internationalPhoneNumber,nationalPhoneNumber,websiteUri"])).
Proof.
  intros Hn Hf Hsite Htypes Hover Hrow.
  assert (Hin : py_in "websiteUri" det = false).
  { destruct (py_in "websiteUri" det) eqn:E; [| reflexivity].
    apply py_in_true in E. rewrite Hsite in E. destruct E as [v Hv]. discriminate. }
  split.
  - rewrite filtered_visit_eq. cbv zeta. rewrite decide_False by exact Hn.
    rewrite Hf. cbn [fst snd]. unfold Filtered.decide_place.
    rewrite Hin, Htypes, Hover. rewrite bool_decide_eq_true_2 by reflexivity. reflexivity.
  - rewrite exhaustive_visit_eq. cbv zeta. rewrite decide_False by exact Hn.
    rewrite Hf. cbn [fst snd]. rewrite Hin, Hrow. reflexivity.
Qed.

Lemma category_test_precedes_record_witness :
  Filtered.visit (stub nameless_park) "A" (init tt)
  = Done tt (World tt ({["A"]} ∪ ∅) []
               ([] ++ [EvDetails "A"
                  "displayName,formattedAddress,internationalPhoneNumber,nationalPhoneNumber,websiteUri,types,primaryType"]))
  ∧ Exhaustive.visit (stub nameless_park) "A" (init tt)
    = Raised (KeyError "displayName")
        (World tt ({["A"]} ∪ ∅) []
           ([] ++ [EvDetails "A"
              "displayName,formattedAddress,internationalPhoneNumber,nationalPhoneNumber,websiteUri"])).
Proof.
  destruct (Filtered.place_types nameless_park) as [e | types] eqn:Ht;
    [vm_compute in Ht; discriminate |].
  apply (category_test_precedes_record (stub nameless_park) "A" (init tt) tt nameless_park
           types (KeyError "displayName")).
  - apply not_elem_of_empty.
  - reflexivity.
  - vm_compute. reflexivity.
  - exact Ht.
  - vm_compute in Ht. injection Ht as <-. apply (bool_decide_unpack _). vm_compute. exact I.
  - vm_compute. reflexivity.
Defined.

(** ** The console output *)

Lemma printed_quiet_visit {P} (m : M P unit) (w : world P) :
  (∃ evs, trace (final (m w)) = trace w ++ evs ∧ printed evs = []) →
  printed (trace (final (m w))) = printed (trace w).
Proof. intros (evs & -> & He). rewrite printed_app, He. apply app_nil_r. Qed.

Lemma exhaustive_visit_printed {P} (pv : provider P) (pid : string) (w : world P) :
  printed (trace (final (Exhaustive.visit pv pid w))) = printed (trace w).
Proof.
  destruct (exhaustive_visit_effect pv pid w) as [[_ ->] | (_ & _ & mask & ->)];
    [reflexivity |].
  rewrite printed_app. apply app_nil_r.
Qed.

Lemma filtered_visit_printed {P} (pv : provider P) (pid : string) (w : world P) :
  printed (trace (final (Filtered.visit pv pid w))) = printed (trace w).
Proof.
  destruct (filtered_visit_effect pv pid w) as [[_ ->] | (_ & _ & mask & ->)];
    [reflexivity |].
  rewrite printed_app. apply app_nil_r.
Qed.

Lemma for_each_printed {P} (visit : string → M P unit) (pids : list string) (w : world P) :
  (∀ pid w, printed (trace (final (visit pid w))) = printed (trace w)) →
  printed (trace (final (for_each pids visit w))) = printed (trace w).
Proof.
  intros Hv. revert w. induction pids as [| pid pids IH]; intros w; [reflexivity |].
  simpl. unfold bind. specialize (Hv pid w).
  destruct (visit pid w) as [[] w1 | e w1 | w1]; simpl in Hv; [| exact Hv | exact Hv].
  rewrite IH. exact Hv.
Qed.

Lemma search_printed {P} (pv : provider P) (b : body) (mask : string) (w : world P) :
  printed (trace (final ((x <- post_search pv b mask ;; json_or_raise x) w)))
  = printed (trace w).
Proof.
  unfold bind, post_search. destruct (search pv (prov w) b) as [p' [r |]]; simpl;
    rewrite printed_app; apply app_nil_r.
Qed.

Lemma page_round_printed {P} (nearby : option string → M P SearchResponse)
  (visit : string → M P unit) (token : option string) (page : nat) (w : world P) :
  (∀ token w, printed (trace (final (nearby token w))) = printed (trace w)) →
  (∀ pid w, printed (trace (final (visit pid w))) = printed (trace w)) →
  ∃ counts,
    (length counts ≤ 1)%nat
    ∧ printed (trace (final ((resp <- nearby token ;;
                              print (MsgPage (S page) (length (default [] (places resp)))) ;;
                              for_each (default [] (places resp)) visit ;;
                              ret resp) w)))
      = printed (trace w) ++ page_lines page counts
    ∧ ((∃ resp w3, (resp <- nearby token ;;
                    print (MsgPage (S page) (length (default [] (places resp)))) ;;
                    for_each (default [] (places resp)) visit ;;
                    ret resp) w = Done resp w3) →
       length counts = 1%nat).
Proof.
  intros Hnear Hvisit. unfold bind. specialize (Hnear token w).
  destruct (nearby token w) as [r w1 | e w1 | w1]; cbn [final] in Hnear.
  - pose proof (for_each_printed visit (default [] (places r))
                  (final (print (MsgPage (S page) (length (default [] (places r)))) w1))
                  Hvisit) as H3.
    unfold print, emit in H3 |- *. cbn [final trace] in H3.
    rewrite printed_app, Hnear in H3.
    exists [length (default [] (places r))]. split; [reflexivity |].
    split; [| reflexivity].
    destruct (for_each (default [] (places r)) visit _) as [[] w3 | e w3 | w3];
      cbn [final] in H3 |- *; exact H3.
  - exists []. split; [simpl; lia |]. split.
    + cbn [final page_lines]. rewrite app_nil_r. exact Hnear.
    + intros (resp & w3 & E). discriminate.
  - exists []. split; [simpl; lia |]. split.
    + cbn [final page_lines]. rewrite app_nil_r. exact Hnear.
    + intros (resp & w3 & E). discriminate.
Qed.

(** The page lines of a walk count the pages from one. *)
Lemma page_loop_printed {P} (nearby : option string → M P SearchResponse)
  (visit : string → M P unit) :
  (∀ token w, printed (trace (final (nearby token w))) = printed (trace w)) →
  (∀ pid w, printed (trace (final (visit pid w))) = printed (trace w)) →
  ∀ fuel token page w,
    ∃ counts,
      (length counts ≤ fuel)%nat
      ∧ printed (trace (final (page_loop nearby visit fuel token page w)))
        = printed (trace w) ++ page_lines page counts.
Proof.
  intros Hnear Hvisit fuel. induction fuel as [| fuel IH]; intros token page w.
  - exists []. split; [reflexivity | symmetry; apply app_nil_r].
  - rewrite page_loop_round.
    destruct (page_round_printed nearby visit token page w Hnear Hvisit)
      as (counts1 & Hlen1 & Hp1 & Hone).
    destruct ((resp <- nearby token ;;
               print (MsgPage (S page) (length (default [] (places resp)))) ;;
               for_each (default [] (places resp)) visit ;;
               ret resp) w) as [resp w3 | e w3 | w3]; cbn [final] in Hp1.
    + destruct (truthy_str (nextPageToken resp)).
      * destruct (IH (nextPageToken resp) (S page)
                    (World (prov w3) (seen w3) (rows w3) (trace w3 ++ [EvSleep 2])))
          as (counts & Hlen & Hp).
        specialize (Hone ltac:(eauto)).
        destruct counts1 as [| n [| ? ?]]; try discriminate.
        exists (n :: counts). split; [simpl; lia |].
        rewrite Hp. cbn [trace]. rewrite printed_app, Hp1. simpl.
        rewrite app_nil_r, <- app_assoc. reflexivity.
      * exists counts1. split; [lia | exact Hp1].
    + exists counts1. split; [lia | exact Hp1].
    + exists counts1. split; [lia | exact Hp1].
Qed.

Lemma point_lines_nil (idx total : nat) (pts : list (float * float)) :
  point_lines idx total pts [] = [].
Proof. destruct pts as [| [lat lon] pts]; reflexivity. Qed.

Lemma for_enumerate_printed {P} (f : nat → float * float → M P unit) (total : nat) :
  (∀ idx pt w, ∃ counts,
     printed (trace (final (f idx pt w)))
     = printed (trace w) ++ MsgPoint idx total pt.1 pt.2 :: page_lines 0 counts) →
  ∀ pts i0 w,
    ∃ cs,
      (length cs ≤ length pts)%nat
      ∧ printed (trace (final (for_enumerate i0 pts f w)))
        = printed (trace w) ++ point_lines i0 total pts cs
      ∧ (ended (for_enumerate i0 pts f w) →
         ∀ u w', for_enumerate i0 pts f w = Done u w' → length cs = length pts).
Proof.
  intros Hstep pts. induction pts as [| [lat lon] pts IH]; intros i0 w.
  - exists []. split; [reflexivity |]. split; [symmetry; apply app_nil_r | reflexivity].
  - simpl. unfold bind. destruct (Hstep i0 (lat, lon) w) as (counts & Hc).
    destruct (f i0 (lat, lon) w) as [[] w1 | e w1 | w1]; simpl in Hc.
    + destruct (IH (S i0) w1) as (cs & Hlen & Hp & Hdone).
      exists (counts :: cs). split; [simpl; lia |]. split.
      * rewrite Hp, Hc. simpl. rewrite <- !app_assoc. reflexivity.
      * intros He u w' E. simpl. f_equal. apply (Hdone He u w' E).
    + exists [counts]. split; [simpl; lia |]. split; [| intros _ u w' E; discriminate].
      simpl. rewrite Hc, point_lines_nil, app_nil_r. reflexivity.
    + exists [counts]. split; [simpl; lia |]. split; [| intros _ u w' E; discriminate].
      simpl. rewrite Hc, point_lines_nil, app_nil_r. reflexivity.
Qed.

Lemma exhaustive_point_printed {P} (pv : provider P) (fuel idx total : nat)
  (pt : float * float) (w : world P) :
  ∃ counts,
    printed (trace (final ((let '(lat, lon) := pt in
                            print (MsgPoint idx total lat lon) ;;
                            Exhaustive.walk pv fuel lat lon None 0) w)))
    = printed (trace w) ++ MsgPoint idx total pt.1 pt.2 :: page_lines 0 counts.
Proof.
  destruct pt as [lat lon]. unfold bind at 1. unfold print at 1. unfold emit at 1.
  rewrite exhaustive_walk_loop.
  destruct (page_loop_printed (Exhaustive.nearby pv lat lon) (Exhaustive.visit pv)
              (fun tok w0 => search_printed pv _ _ w0) (exhaustive_visit_printed pv)
              fuel None 0%nat
              (World (prov w) (seen w) (rows w) (trace w ++ [EvPrint (MsgPoint idx total lat lon)])))
    as (counts & _ & Hp).
  exists counts. rewrite Hp. simpl. rewrite printed_app, <- app_assoc. reflexivity.
Qed.

Lemma filtered_point_printed {P} (pv : provider P) (fuel idx total : nat)
  (pt : float * float) (w : world P) :
  ∃ counts,
    printed (trace (final ((let '(lat, lon) := pt in
                            print (MsgPoint idx total lat lon) ;;
                            Filtered.walk pv fuel lat lon None 0) w)))
    = printed (trace w) ++ MsgPoint idx total pt.1 pt.2 :: page_lines 0 counts.
Proof.
  destruct pt as [lat lon]. unfold bind at 1. unfold print at 1. unfold emit at 1.
  rewrite filtered_walk_loop.
  destruct (page_loop_printed (Filtered.nearby pv lat lon) (Filtered.visit pv)
              (fun tok w0 => search_printed pv _ _ w0) (filtered_visit_printed pv)
              fuel None 0%nat
              (World (prov w) (seen w) (rows w) (trace w ++ [EvPrint (MsgPoint idx total lat lon)])))
    as (counts & _ & Hp).
  exists counts. rewrite Hp. simpl. rewrite printed_app, <- app_assoc. reflexivity.
Qed.

Lemma main_printed {P} (crawl : M P unit) (g : list (float * float)) (p0 : P) :
  (∀ w, ∃ cs,
     (length cs ≤ length g)%nat
     ∧ printed (trace (final (crawl w)))
       = printed (trace w) ++ point_lines 1 (length g) g cs
     ∧ (ended (crawl w) → ∀ u w', crawl w = Done u w' → length cs = length g)) →
  ∃ cs,
    (length cs ≤ length g)%nat
    ∧ match (print (MsgGrid (length g)) ;; crawl ;; Exhaustive.export) (init p0) with
      | Done _ w' =>
          length cs = length g
          ∧ printed (trace w')
            = MsgGrid (length g) :: point_lines 1 (length g) g cs ++ closing_lines (rows w')
      | Raised _ w' | OutOfFuel w' =>
          printed (trace w') = MsgGrid (length g) :: point_lines 1 (length g) g cs
      end.
Proof.
  intros Hcrawl. unfold bind at 1. unfold print at 1. unfold emit at 1.
  cbn [init prov seen rows trace app].
  destruct (Hcrawl (World p0 ∅ [] [EvPrint (MsgGrid (length g))])) as (cs & Hlen & Hp & Hdone).
  exists cs. split; [exact Hlen |]. unfold bind.
  destruct (crawl (World p0 ∅ [] [EvPrint (MsgGrid (length g))])) as [[] w1 | e w1 | w1];
    simpl in Hp; [| exact Hp | exact Hp].
  rewrite export_eq. split; [apply (Hdone I tt w1 eq_refl) |].
  cbn [trace rows]. rewrite printed_app, Hp. unfold closing_lines.
  destruct (rows w1); reflexivity.
Qed.

(** X26: the console output of the grid crawlers.  With any provider, a
    run prints the size of the grid, then for each scan point begun its
    line, numbered from 1 in grid order and showing the total, followed by
    the page lines of its walk, numbered from 1 at every point; a run that
    reaches the export has begun every point and closes with the count of
    the rows and either the name of the file saved or the no-match line;
    a run that is stopped prints nothing after the page line it stopped
    at. *)
Theorem console_output {P} (pv : provider P) (grid_fuel fuel : nat)
  (g g' : list (float * float)) (p0 : P) :
  Exhaustive.grid_points grid_fuel = Some g →
  Filtered.grid grid_fuel = Some g' →
  (∃ cs,
     (length cs ≤ length g)%nat
     ∧ match Exhaustive.main pv grid_fuel fuel (init p0) with
       | Done _ w' =>
           length cs = length g
           ∧ printed (trace w')
             = MsgGrid (length g) :: point_lines 1 (length g) g cs ++ closing_lines (rows w')
       | Raised _ w' | OutOfFuel w' =>
           printed (trace w') = MsgGrid (length g) :: point_lines 1 (length g) g cs
       end)
  ∧ (∃ cs,
       (length cs ≤ length g')%nat
       ∧ match Filtered.main pv grid_fuel fuel (init p0) with
         | Done _ w' =>
             length cs = length g'
             ∧ printed (trace w')
               = MsgGrid (length g') :: point_lines 1 (length g') g' cs
                   ++ closing_lines (rows w')
         | Raised _ w' | OutOfFuel w' =>
             printed (trace w') = MsgGrid (length g') :: point_lines 1 (length g') g' cs
         end).
Proof.
  intros Hg Hg'. split.
  - unfold Exhaustive.main. rewrite Hg. apply main_printed. intros w.
    unfold Exhaustive.crawl. apply for_enumerate_printed. intros idx pt w0.
    apply exhaustive_point_printed.
  - unfold Filtered.main. rewrite Hg', filtered_export_same. apply main_printed. intros w.
    unfold Filtered.crawl. apply for_enumerate_printed. intros idx pt w0.
    apply filtered_point_printed.
Qed.

Lemma console_output_witness :
  ∃ g g',
    Exhaustive.grid_points 14 = Some g
    ∧ Filtered.grid 14 = Some g'
    ∧ (∃ cs,
         (length cs ≤ length g)%nat
         ∧ match Exhaustive.main (stub cafe_x) 14 1 (init tt) with
           | Done _ w' =>
               length cs = length g
               ∧ printed (trace w')
                 = MsgGrid (length g) :: point_lines 1 (length g) g cs
                     ++ closing_lines (rows w')
           | Raised _ w' | OutOfFuel w' =>
               printed (trace w') = MsgGrid (length g) :: point_lines 1 (length g) g cs
           end)
    ∧ (∃ cs,
         (length cs ≤ length g')%nat
         ∧ match Filtered.main (stub cafe_x) 14 1 (init tt) with
           | Done _ w' =>
               length cs = length g'
               ∧ printed (trace w')
                 = MsgGrid (length g') :: point_lines 1 (length g') g' cs
                     ++ closing_lines (rows w')
           | Raised _ w' | OutOfFuel w' =>
               printed (trace w') = MsgGrid (length g') :: point_lines 1 (length g') g' cs
           end).
Proof.
  destruct (Exhaustive.grid_points 14) as [g |] eqn:Hg; [| vm_compute in Hg; discriminate].
  destruct (Filtered.grid 14) as [g' |] eqn:Hg'; [| vm_compute in Hg'; discriminate].
  exists g, g'. split; [reflexivity |]. split; [reflexivity |].
  apply (console_output (stub cafe_x) 14 1 g g' tt Hg Hg').
Defined.
